(** * WebTerm: session protocol, token service and pty lifecycle

    A shallow embedding of the server side of WebTerm
    (src/server/auth.ts, src/server/pty-manager.ts,
    src/server/websocket-handler.ts) and the properties of its
    specification checked against it.

    Conventions.
    - A JavaScript string is a [string]; every [ascii] stands for one
      UTF-16 code unit, so the model covers the strings whose code units
      are below 256.  [String.length] is the JavaScript [length].
    - A JavaScript number that the code only uses as an integer
      (timestamps, counters, sizes) is a [Z].
    - A Buffer is a list of bytes, each a [Z] in 0..255.
    - Calls that leave the program (ws, node-pty, fs, timers) are recorded
      in an effect log; whether such a call throws is answered by an
      environment record. *)

From Stdlib Require Import ZArith List String Ascii Bool Lia DecimalString DecimalPos.
Import ListNotations.
Local Open Scope string_scope.
Local Close Scope list_scope.
Local Open Scope list_scope.
Local Open Scope Z_scope.

Infix "+++" := String.append (at level 60, right associativity).

Local Set Warnings "-register-all".

(** ** Strings and buffers *)

Definition code (c : ascii) : Z := Z.of_N (N_of_ascii c).

Definition Buffer := list Z.

(** UTF-8 encoding of a string of code units below 256, as
    [Buffer.from(s, 'utf-8')] and [hmac.update(s)] do it. *)
Fixpoint utf8_encode (s : string) : Buffer :=
  match s with
  | EmptyString => []
  | String c r =>
      let n := code c in
      if n <? 128 then n :: utf8_encode r
      else (192 + Z.shiftr n 6) :: (128 + Z.land n 63) :: utf8_encode r
  end.

(** [String.prototype.split] with a one-character separator: the fields
    between the separators, the empty string giving one empty field. *)
Fixpoint split_acc (sep : ascii) (cur : string) (s : string) : list string :=
  match s with
  | EmptyString => [cur]
  | String c r =>
      if Ascii.eqb c sep then cur :: split_acc sep EmptyString r
      else split_acc sep (cur +++ String c EmptyString) r
  end.

Definition split (sep : ascii) (s : string) : list string :=
  split_acc sep EmptyString s.

(** [String.prototype.startsWith]. *)
Definition startsWith (s p : string) : bool := String.prefix p s.

(** ** SHA-256 and HMAC (FIPS 180-4, RFC 2104), on 32-bit words kept in [Z] *)

Module Sha256.

Definition w32 (x : Z) : Z := x mod 2 ^ 32.
Definition add32 (x y : Z) : Z := w32 (x + y).
Definition not32 (x : Z) : Z := Z.lxor x 0xffffffff.
Definition rotr (n x : Z) : Z :=
  Z.lor (Z.shiftr x n) (w32 (Z.shiftl x (32 - n))).

Definition Ch (x y z : Z) : Z := Z.lxor (Z.land x y) (Z.land (not32 x) z).
Definition Maj (x y z : Z) : Z :=
  Z.lxor (Z.lxor (Z.land x y) (Z.land x z)) (Z.land y z).
Definition bsig0 (x : Z) : Z := Z.lxor (Z.lxor (rotr 2 x) (rotr 13 x)) (rotr 22 x).
Definition bsig1 (x : Z) : Z := Z.lxor (Z.lxor (rotr 6 x) (rotr 11 x)) (rotr 25 x).
Definition ssig0 (x : Z) : Z := Z.lxor (Z.lxor (rotr 7 x) (rotr 18 x)) (Z.shiftr x 3).
Definition ssig1 (x : Z) : Z := Z.lxor (Z.lxor (rotr 17 x) (rotr 19 x)) (Z.shiftr x 10).

(** The primes among [2 .. 2 + n - 1], smallest first. *)
Definition is_prime (n : Z) : bool :=
  forallb (fun d => negb (n mod Z.of_nat d =? 0)) (seq 2 (Z.to_nat n - 2)).

Definition primes_below (n : nat) : list Z :=
  filter is_prime (map Z.of_nat (seq 2 n)).

(** The integer cube root, by bisection between [lo] and [hi]. *)
Fixpoint cube_root (fuel : nat) (lo hi n : Z) : Z :=
  match fuel with
  | O => lo
  | S f =>
      let mid := (lo + hi) / 2 in
      if mid * mid * mid <=? n then cube_root f mid hi n else cube_root f lo mid n
  end.

(** The round constants: the first 32 bits of the fractional parts of
    the cube roots of the first 64 primes. *)
Definition K : list Z :=
  map (fun q => w32 (cube_root 48 0 (2 ^ 40) (q * 2 ^ 96))) (primes_below 310).

(** The initial hash value: the first 32 bits of the fractional parts
    of the square roots of the first 8 primes. *)
Definition H0 : list Z :=
  map (fun q => w32 (Z.sqrt (q * 2 ^ 64))) (primes_below 18).

(** Big-endian bytes of a number, [n] of them. *)
Fixpoint be_bytes (n : nat) (x : Z) : Buffer :=
  match n with
  | O => []
  | S m => Z.land (Z.shiftr x (8 * Z.of_nat m)) 255 :: be_bytes m x
  end.

Definition be_word (bs : Buffer) : Z :=
  fold_left (fun acc b => acc * 256 + b) bs 0.

Definition pad (msg : Buffer) : Buffer :=
  let len := Z.of_nat (List.length msg) in
  msg ++ [128] ++ repeat 0 (Z.to_nat ((55 - len) mod 64)) ++ be_bytes 8 (8 * len).

(** The words of the buffer, four bytes each. *)
Fixpoint words (fuel : nat) (bs : Buffer) : list Z :=
  match fuel, bs with
  | S f, _ :: _ => be_word (firstn 4 bs) :: words f (skipn 4 bs)
  | _, _ => []
  end.

(** One round: the window holds W[t..t+15]. *)
Definition round (st : list Z * list Z) (k : Z) : list Z * list Z :=
  let '(wnd, h) := st in
  let W i := nth i wnd 0 in
  let X i := nth i h 0 in
  let t1 := add32 (add32 (add32 (add32 (X 7%nat) (bsig1 (X 4%nat)))
                     (Ch (X 4%nat) (X 5%nat) (X 6%nat))) k) (W 0%nat) in
  let t2 := add32 (bsig0 (X 0%nat)) (Maj (X 0%nat) (X 1%nat) (X 2%nat)) in
  let next := add32 (add32 (add32 (ssig1 (W 14%nat)) (W 9%nat))
                       (ssig0 (W 1%nat))) (W 0%nat) in
  (tl wnd ++ [next],
   [ add32 t1 t2; X 0%nat; X 1%nat; X 2%nat;
     add32 (X 3%nat) t1; X 4%nat; X 5%nat; X 6%nat ]).

Definition compress (h : list Z) (block : list Z) : list Z :=
  let '(_, h') := fold_left round K (block, h) in
  map (fun p => add32 (fst p) (snd p)) (combine h h').

Fixpoint blocks (fuel : nat) (h : list Z) (ws : list Z) : list Z :=
  match fuel, ws with
  | S f, _ :: _ => blocks f (compress h (firstn 16 ws)) (skipn 16 ws)
  | _, _ => h
  end.

Definition sha256 (msg : Buffer) : Buffer :=
  let p := pad msg in
  let ws := words (List.length p) p in
  flat_map (be_bytes 4) (blocks (List.length ws) H0 ws).

Definition block_key (key : Buffer) : Buffer :=
  let k := if (64 <? Z.of_nat (List.length key)) then sha256 key else key in
  k ++ repeat 0 (64 - List.length k)%nat.

Definition hmac (key msg : Buffer) : Buffer :=
  let k := block_key key in
  let ipad := map (fun b => Z.lxor b 0x36) k in
  let opad := map (fun b => Z.lxor b 0x5c) k in
  sha256 (opad ++ sha256 (ipad ++ msg)).

Definition hex_digit (n : Z) : ascii :=
  if n <? 10 then ascii_of_N (Z.to_N (48 + n)) else ascii_of_N (Z.to_N (87 + n)).

(** [digest('hex')]: two lower-case digits per byte. *)
Fixpoint hex (bs : Buffer) : string :=
  match bs with
  | [] => EmptyString
  | b :: r => String (hex_digit (Z.shiftr b 4)) (String (hex_digit (Z.land b 15)) (hex r))
  end.

End Sha256.

(** ** Numbers *)

(** The numbers of the program are doubles, and the ones it computes
    with are integers, NaN and the infinities.  [Int z] is the double
    nearest to the integer [z]; a magnitude of [Infinity] = 2^1024 or
    more, beyond every finite double, is the infinity of that sign.

    [parseInt] and the comparison of the expiry check keep the exact
    integer: where the compared timestamp is a safe integer, the
    rounding of a long digit string to a double does not change the
    outcome of [>].  Sums, products and the conversion to a string
    round as the doubles do. *)
Inductive Number :=
| NaN
| Int (z : Z).

(** [Number.MAX_SAFE_INTEGER]. *)
Definition MAX_SAFE_INTEGER : Z := 2 ^ 53 - 1.

Definition Infinity : Z := 2 ^ 1024.

(** The double nearest to an integer, ties going to the even
    significand of 53 bits; [Infinity] with the sign of the integer
    where that rounding leaves the finite doubles. *)
Definition nearest_double (z : Z) : Z :=
  let a := Z.abs z in
  if a <=? MAX_SAFE_INTEGER then z
  else
    let e := Z.log2 a - 52 in
    let q := Z.shiftr a e in
    let r := a - Z.shiftl q e in
    let half := Z.shiftl 1 (e - 1) in
    let q := if (half <? r) || ((r =? half) && Z.odd q) then q + 1 else q in
    Z.sgn z * Z.min (Z.shiftl q e) Infinity.

Definition infinite (x : Z) : bool := Infinity <=? Z.abs x.

(** [a + b] on doubles: the nearest double of the exact sum; an
    infinity absorbs what is finite, and the two infinities of opposite
    signs give NaN. *)
Definition Number_add (a b : Number) : Number :=
  match a, b with
  | Int x, Int y =>
      let x := nearest_double x in
      let y := nearest_double y in
      if infinite x && infinite y then (if x =? y then Int x else NaN)
      else if infinite x then Int x
      else if infinite y then Int y
      else Int (nearest_double (x + y))
  | _, _ => NaN
  end.

(** [a * b] on doubles: the nearest double of the exact product; an
    infinity times zero is NaN. *)
Definition Number_mul (a b : Number) : Number :=
  match a, b with
  | Int x, Int y =>
      let x := nearest_double x in
      let y := nearest_double y in
      if infinite x || infinite y then
        (if (x =? 0) || (y =? 0) then NaN else Int (Z.sgn x * Z.sgn y * Infinity))
      else Int (nearest_double (x * y))
  | _, _ => NaN
  end.

(** [a > b]: false as soon as one side is NaN. *)
Definition Number_gt (a b : Number) : bool :=
  match a, b with
  | Int x, Int y => x >? y
  | _, _ => false
  end.

(** [a <= b]: false as soon as one side is NaN. *)
Definition Number_le (a b : Number) : bool :=
  match a, b with
  | Int x, Int y => x <=? y
  | _, _ => false
  end.

(** An integer in decimal digits, with its sign when negative. *)
Definition decimal (v : Z) : string := NilZero.string_of_int (Z.to_int v).

(** The number of decimal digits of a positive integer. *)
Definition decimal_length (v : Z) : nat := String.length (decimal v).

(** The integer of the fewest significant digits that the double [x],
    a positive integer, is the nearest double of: tried with [j]
    trailing zeros, then with fewer.  Of two candidates the closer one
    to [x] is taken, and of two equally close the one whose last
    significant digit is even. *)
Fixpoint shortest (j : nat) (x : Z) : Z :=
  let p := 10 ^ Z.of_nat j in
  let lo := x / p * p in
  let hi := lo + p in
  let below := (0 <? lo) && (nearest_double lo =? x) in
  let above := nearest_double hi =? x in
  let found :=
    if below && above then
      Some (if x - lo <? hi - x then lo
            else if hi - x <? x - lo then hi
            else if Z.even (lo / p) then lo else hi)
    else if below then Some lo
    else if above then Some hi
    else None in
  match found, j with
  | Some v, _ => v
  | None, S j' => shortest j' x
  | None, O => x
  end.

(** A positive integer without its trailing zeros. *)
Fixpoint significand (fuel : nat) (v : Z) : Z :=
  match fuel with
  | S f => if v mod 10 =? 0 then significand f (v / 10) else v
  | O => v
  end.

(** The exponent notation of a positive integer [v] of more than 21
    digits: its first significant digit, the others after a point, and
    the power of ten. *)
Definition exponential (v : Z) : string :=
  match decimal (significand (decimal_length v) v) with
  | String d rest =>
      String d (match rest with
                | EmptyString => EmptyString
                | _ => String "." rest
                end)
      +++ String "e" (String "+" (decimal (Z.of_nat (decimal_length v) - 1)))
  | EmptyString => EmptyString
  end.

(** Template-literal conversion of a number to a string,
    [Number::toString]: a safe integer digit for digit; a larger one by
    the fewest digits that still name the double, in plain decimal up
    to 21 digits and in exponent notation beyond. *)
Definition Number_toString (a : Number) : string :=
  match a with
  | NaN => "NaN"
  | Int z =>
      let x := nearest_double z in
      if Z.abs x <=? MAX_SAFE_INTEGER then decimal x
      else
        (if x <? 0 then String "-" EmptyString else EmptyString)
        +++ (if infinite x then "Infinity"
             else
               let v := shortest (decimal_length (Z.abs x)) (Z.abs x) in
               if v <? 10 ^ 21 then decimal v else exponential v)
  end.

(** White space and line terminators that [parseInt] skips, among the
    code units below 256: TAB, LF, VT, FF, CR, SP, NBSP. *)
Definition isWhiteSpace (c : ascii) : bool :=
  let n := code c in
  ((9 <=? n) && (n <=? 13)) || (n =? 32) || (n =? 160).

Fixpoint trimStart (s : string) : string :=
  match s with
  | String c r => if isWhiteSpace c then trimStart r else s
  | EmptyString => s
  end.

Definition digit (c : ascii) : option Z :=
  let n := code c in
  if (48 <=? n) && (n <=? 57) then Some (n - 48) else None.

(** The value of the longest prefix of decimal digits; [None] when the
    string does not start with a digit. *)
Fixpoint digits (acc : option Z) (s : string) : option Z :=
  match s with
  | String c r =>
      match digit c with
      | Some d => digits (Some (10 * match acc with Some a => a | None => 0 end + d)) r
      | None => acc
      end
  | EmptyString => acc
  end.

(** [parseInt(s, 10)]. *)
Definition parseInt (s : string) : Number :=
  let t := trimStart s in
  let '(sign, rest) :=
    match t with
    | String "-" r => (-1, r)
    | String "+" r => (1, r)
    | _ => (1, t)
    end in
  match digits None rest with
  | Some n => Int (sign * n)
  | None => NaN
  end.

(** ** src/server/auth.ts *)

Module AuthService.

Record t := {
  secret : string;
  tokenExpiry : Number   (* seconds; [parseInt(process.env.TOKEN_EXPIRY || '3600', 10)] *)
}.

(** [createSignature]: HMAC-SHA256 of the payload under the secret, in hex. *)
Definition createSignature (a : t) (payload : string) : string :=
  Sha256.hex (Sha256.hmac (utf8_encode (secret a)) (utf8_encode payload)).

(** [generateToken], [now] being [Date.now()]. *)
Definition generateToken (a : t) (now : Z) : string * Number :=
  let timestamp := Int now in
  let expiresAt := Number_add timestamp (Number_mul (tokenExpiry a) (Int 1000)) in
  let payload := Number_toString timestamp +++ ":" +++ Number_toString expiresAt in
  let signature := createSignature a payload in
  (payload +++ ":" +++ signature, expiresAt).

(** [validateToken], [now] being [Date.now()].  Nothing in the body
    throws, so the [catch] branch is never taken. *)
Definition validateToken (a : t) (now : Z) (token : string) : bool :=
  match split ":" token with
  | [timestamp; expiresAt; signature] =>
      let payload := timestamp +++ ":" +++ expiresAt in
      let expectedSignature := createSignature a payload in
      if negb (String.eqb signature expectedSignature) then false
      else
        let expiryTime := parseInt expiresAt in
        if Number_gt (Int now) expiryTime then false
        else true
  | _ => false
  end.

End AuthService.

(** ** Node's [path.posix] functions used by the upload handler *)

Module Path.

Definition isPosixPathSeparator (c : ascii) : bool := Ascii.eqb c "/".

Fixpoint skip_separators (l : list ascii) : list ascii :=
  match l with
  | c :: r => if isPosixPathSeparator c then skip_separators r else l
  | [] => []
  end.

Fixpoint until_separator (l : list ascii) : list ascii :=
  match l with
  | c :: r => if isPosixPathSeparator c then [] else c :: until_separator r
  | [] => []
  end.

(** [path.basename(p)]: scanning from the end, the separators that end
    the string are skipped and the characters up to the next separator
    are the result. *)
Definition basename (p : string) : string :=
  string_of_list_ascii
    (rev (until_separator (skip_separators (rev (list_ascii_of_string p))))).

Fixpoint join (segs : list string) : string :=
  match segs with
  | [] => ""
  | [s] => s
  | s :: r => s +++ "/" +++ join r
  end.

(** One segment of [normalizeString]; [res] is the result so far, last
    segment first. *)
Definition normalizeSegment (allowAboveRoot : bool) (res : list string) (seg : string)
  : list string :=
  if String.eqb seg "" || String.eqb seg "." then res
  else if String.eqb seg ".." then
    match res with
    | last :: r =>
        if String.eqb last ".." then (if allowAboveRoot then ".." :: res else res)
        else r
    | [] => if allowAboveRoot then [".."] else []
    end
  else seg :: res.

(** [normalizeString(path, allowAboveRoot, '/', isPosixPathSeparator)]:
    empty and [.] segments dropped, [..] removing the segment before it. *)
Definition normalizeString (path : string) (allowAboveRoot : bool) : string :=
  join (rev (fold_left (normalizeSegment allowAboveRoot) (split "/" path) [])).

Definition isAbsolute (p : string) : bool :=
  match p with
  | String c _ => isPosixPathSeparator c
  | EmptyString => false
  end.

(** The loop of [path.resolve], from the last argument to the first and
    then the working directory, until the path is absolute. *)
Fixpoint resolve_loop (posixCwd : string) (args_rev : list string) (resolvedPath : string)
  : string * bool :=
  match args_rev with
  | p :: r =>
      if (String.length p =? 0)%nat then resolve_loop posixCwd r resolvedPath
      else
        let resolvedPath := p +++ "/" +++ resolvedPath in
        if isAbsolute p then (resolvedPath, true)
        else resolve_loop posixCwd r resolvedPath
  | [] =>
      if (String.length posixCwd =? 0)%nat then (resolvedPath, false)
      else (posixCwd +++ "/" +++ resolvedPath, isAbsolute posixCwd)
  end.

(** [path.resolve(...args)], [posixCwd] being [process.cwd()]. *)
Definition resolve (posixCwd : string) (args : list string) : string :=
  let '(resolvedPath, resolvedAbsolute) := resolve_loop posixCwd (rev args) "" in
  let resolvedPath := normalizeString resolvedPath (negb resolvedAbsolute) in
  if resolvedAbsolute then "/" +++ resolvedPath
  else if (0 <? String.length resolvedPath)%nat then resolvedPath else ".".

End Path.

(** ** Values, frames and the world around the handler *)

(** Object identities: a [ws] socket, a node-pty process, a timer. *)
Definition WebSocket := nat.
Definition IPty := nat.
Definition Timeout := nat.

(** [ws.readyState] of a server-side socket (never CONNECTING). *)
Inductive ReadyState := OPEN | CLOSING | CLOSED.

(** What [JSON.parse] returns, and the Buffer the binary path puts into
    the [data] field.  [undefined] is [None] where a property is read. *)
Inductive JSValue :=
| JNull
| JBool (b : bool)
| JNum (n : Z)
| JStr (s : string)
| JArr (l : list JSValue)
| JObj (fields : list (string * JSValue))
| JBuf (b : Buffer).

Fixpoint assoc (k : string) (fields : list (string * JSValue)) : option JSValue :=
  match fields with
  | [] => None
  | (k', v) :: r => if String.eqb k k' then Some v else assoc k r
  end.

(** [v.k] for a value [v] that is not null; reading a property of a
    primitive, an array or a Buffer that is not there gives undefined. *)
Definition prop (v : JSValue) (k : string) : option JSValue :=
  match v with
  | JObj fields => assoc k fields
  | _ => None
  end.

(** src/shared/types.ts, [enum MessageType]. *)
Module MessageType.
Definition INPUT := "input".
Definition OUTPUT := "output".
Definition RESIZE := "resize".
Definition FILE_UPLOAD := "file-upload".
Definition FILE_DOWNLOAD := "file-download".
Definition AUTH := "auth".
Definition ERROR := "error".
Definition READY := "ready".
End MessageType.

(** The messages the server sends, before [JSON.stringify]. *)
Inductive Frame :=
| Output (data : string)
| Error (message : string)
| Ready (shellType cwd : string).

(** Calls that leave the program, with their outcome where the call can
    throw ([ok = false]: it threw). *)
Inductive Effect :=
| ws_send (ws : WebSocket) (f : Frame)
| ws_ping (ws : WebSocket)
| ws_close (ws : WebSocket)
| ws_terminate (ws : WebSocket)
| pty_spawn (p : option IPty) (shell cwd : string) (cols rows : Z)
| pty_write (p : IPty) (data : option JSValue) (ok : bool)
| pty_resize (p : IPty) (cols rows : option JSValue) (ok : bool)
| pty_kill (p : IPty) (ok : bool)
| fs_writeFileSync (path : string) (data : Buffer) (ok : bool).

(** What the program cannot decide: the process environment, the
    library functions whose result is taken as given, and whether an
    external call throws (asked with the calls made so far). *)
Record Env := {
  process_cwd : string;
  os_homedir : string;
  detectShell : string;
  JSON_parse : string -> option JSValue;
  Buffer_toString : Buffer -> string;
  base64_decode : string -> Buffer;
  Buffer_from_object : JSValue -> option Buffer;
  pty_spawn_throws : list Effect -> bool;
  pty_write_throws : list Effect -> IPty -> bool;
  pty_resize_throws : list Effect -> IPty -> bool;
  pty_kill_throws : list Effect -> IPty -> bool;
  fs_writeFileSync_throws : list Effect -> string -> bool
}.

(** [class PTYManager], the object state. *)
Record PTYManagerObject := {
  ptyProcess : option IPty;
  sessionId : string
}.

(** [interface SessionState]. *)
Record SessionState := {
  pty : PTYManagerObject;
  authenticated : bool;
  messageCount : Z;
  lastMinute : Z;
  isAlive : bool
}.

(** The variables one call of [handleAuth] declares and its callbacks
    capture. *)
Record Closure := {
  cl_ws : WebSocket;
  outputBuffer : string;
  flushTimeout : option Timeout
}.

(** The handler object together with the sockets, processes and timers
    it is connected to. *)
Record World := {
  log : list Effect;                          (* oldest first *)
  readyState : WebSocket -> ReadyState;
  processes : nat;                            (* node-pty processes created *)
  timeouts : nat;                             (* timers created *)
  timers : list (Timeout * (Z * IPty));       (* pending: id, due time, owner *)
  dataHandlers : list (IPty * Closure);       (* ptyProcess.onData *)
  exitHandlers : list (IPty * WebSocket);     (* ptyProcess.onExit *)
  sessions : list (WebSocket * SessionState); (* Map, in insertion order *)
  rateLimit : Z;
  maxMessageSize : Z
}.

Definition set_log (l : list Effect) (W : World) : World :=
  {| log := l; readyState := readyState W; processes := processes W;
     timeouts := timeouts W; timers := timers W; dataHandlers := dataHandlers W;
     exitHandlers := exitHandlers W; sessions := sessions W;
     rateLimit := rateLimit W; maxMessageSize := maxMessageSize W |}.

Definition set_readyState (r : WebSocket -> ReadyState) (W : World) : World :=
  {| log := log W; readyState := r; processes := processes W;
     timeouts := timeouts W; timers := timers W; dataHandlers := dataHandlers W;
     exitHandlers := exitHandlers W; sessions := sessions W;
     rateLimit := rateLimit W; maxMessageSize := maxMessageSize W |}.

Definition set_processes (n : nat) (W : World) : World :=
  {| log := log W; readyState := readyState W; processes := n;
     timeouts := timeouts W; timers := timers W; dataHandlers := dataHandlers W;
     exitHandlers := exitHandlers W; sessions := sessions W;
     rateLimit := rateLimit W; maxMessageSize := maxMessageSize W |}.

Definition set_timers (n : nat) (t : list (Timeout * (Z * IPty))) (W : World) : World :=
  {| log := log W; readyState := readyState W; processes := processes W;
     timeouts := n; timers := t; dataHandlers := dataHandlers W;
     exitHandlers := exitHandlers W; sessions := sessions W;
     rateLimit := rateLimit W; maxMessageSize := maxMessageSize W |}.

Definition set_dataHandlers (h : list (IPty * Closure)) (W : World) : World :=
  {| log := log W; readyState := readyState W; processes := processes W;
     timeouts := timeouts W; timers := timers W; dataHandlers := h;
     exitHandlers := exitHandlers W; sessions := sessions W;
     rateLimit := rateLimit W; maxMessageSize := maxMessageSize W |}.

Definition set_exitHandlers (h : list (IPty * WebSocket)) (W : World) : World :=
  {| log := log W; readyState := readyState W; processes := processes W;
     timeouts := timeouts W; timers := timers W; dataHandlers := dataHandlers W;
     exitHandlers := h; sessions := sessions W;
     rateLimit := rateLimit W; maxMessageSize := maxMessageSize W |}.

Definition set_sessions (m : list (WebSocket * SessionState)) (W : World) : World :=
  {| log := log W; readyState := readyState W; processes := processes W;
     timeouts := timeouts W; timers := timers W; dataHandlers := dataHandlers W;
     exitHandlers := exitHandlers W; sessions := m;
     rateLimit := rateLimit W; maxMessageSize := maxMessageSize W |}.

Definition effect (e : Effect) (W : World) : World := set_log (log W ++ [e]) W.

(** ** A [Map] keyed by object identity, in insertion order *)

Section Map.
Context {V : Type}.

Fixpoint Map_get (k : nat) (m : list (nat * V)) : option V :=
  match m with
  | [] => None
  | (k', v) :: r => if Nat.eqb k k' then Some v else Map_get k r
  end.

(** [set] keeps the place of a key that is there and appends a new one. *)
Fixpoint Map_set (k : nat) (v : V) (m : list (nat * V)) : list (nat * V) :=
  match m with
  | [] => [(k, v)]
  | (k', v') :: r => if Nat.eqb k k' then (k, v) :: r else (k', v') :: Map_set k v r
  end.

Fixpoint Map_delete (k : nat) (m : list (nat * V)) : list (nat * V) :=
  match m with
  | [] => []
  | (k', v') :: r => if Nat.eqb k k' then r else (k', v') :: Map_delete k r
  end.

End Map.

(** ** The [ws] socket *)

(** [ws.close()]: starts the closing handshake of an open socket. *)
Definition close_ws (ws : WebSocket) (W : World) : World :=
  let W := effect (ws_close ws) W in
  match readyState W ws with
  | OPEN => set_readyState (fun w => if Nat.eqb w ws then CLOSING else readyState W w) W
  | _ => W
  end.

(** [ws.terminate()]: destroys the connection of a socket that is not
    closed yet; its 'close' event follows. *)
Definition terminate_ws (ws : WebSocket) (W : World) : World :=
  let W := effect (ws_terminate ws) W in
  match readyState W ws with
  | CLOSED => W
  | _ => set_readyState (fun w => if Nat.eqb w ws then CLOSING else readyState W w) W
  end.

(** [ws.ping()]. *)
Definition ping_ws (ws : WebSocket) (W : World) : World := effect (ws_ping ws) W.

(** How a call ends. *)
Inductive Completion := Normal | Throw.

(** ** src/server/pty-manager.ts *)

Module PTYManager.
Section Methods.
Variable env : Env.

(** [Partial<PTYConfig>], without the [env] overrides. *)
Record Config := {
  shell : option string;
  cwd : option string;
  cols : option Z;
  rows : option Z
}.

Definition new (sessionId : string) : PTYManagerObject :=
  {| ptyProcess := None; sessionId := sessionId |}.

Definition or_string (v : option string) (d : string) : string :=
  match v with
  | Some s => if (String.length s =? 0)%nat then d else s
  | None => d
  end.

Definition or_number (v : option Z) (d : Z) : Z :=
  match v with
  | Some n => if n =? 0 then d else n
  | None => d
  end.

(** [spawn(config)]: a new process replaces whatever [ptyProcess] held;
    an error of [pty.spawn] is rethrown. *)
Definition spawn (config : Config) (m : PTYManagerObject) (W : World)
  : Completion * PTYManagerObject * World :=
  let shell := or_string (shell config) (detectShell env) in
  let cwd := or_string (cwd config) (os_homedir env) in
  let cols := or_number (cols config) 80 in
  let rows := or_number (rows config) 24 in
  if pty_spawn_throws env (log W) then
    (Throw, m, effect (pty_spawn None shell cwd cols rows) W)
  else
    let p := processes W in
    (Normal, {| ptyProcess := Some p; sessionId := sessionId m |},
     set_processes (S p) (effect (pty_spawn (Some p) shell cwd cols rows) W)).

(** [write(data)]. *)
Definition write (data : option JSValue) (m : PTYManagerObject) (W : World)
  : Completion * World :=
  match ptyProcess m with
  | None => (Throw, W)
  | Some p =>
      if pty_write_throws env (log W) p then (Throw, effect (pty_write p data false) W)
      else (Normal, effect (pty_write p data true) W)
  end.

(** [resize(cols, rows)]: an error of the process is logged and dropped. *)
Definition resize (cols rows : option JSValue) (m : PTYManagerObject) (W : World)
  : Completion * World :=
  match ptyProcess m with
  | None => (Throw, W)
  | Some p =>
      (Normal, effect (pty_resize p cols rows (negb (pty_resize_throws env (log W) p))) W)
  end.

(** [onData(callback)], the callback being given by what it captures. *)
Definition onData (callback : Closure) (m : PTYManagerObject) (W : World)
  : Completion * World :=
  match ptyProcess m with
  | None => (Throw, W)
  | Some p => (Normal, set_dataHandlers (Map_set p callback (dataHandlers W)) W)
  end.

(** [onExit(callback)], the callback closing the socket it captures. *)
Definition onExit (callback : WebSocket) (m : PTYManagerObject) (W : World)
  : Completion * World :=
  match ptyProcess m with
  | None => (Throw, W)
  | Some p => (Normal, set_exitHandlers (Map_set p callback (exitHandlers W)) W)
  end.

(** [kill(signal)]: the reference is cleared when the process's [kill]
    returned; an error is logged and dropped. *)
Definition kill (m : PTYManagerObject) (W : World) : PTYManagerObject * World :=
  match ptyProcess m with
  | Some p =>
      if pty_kill_throws env (log W) p then (m, effect (pty_kill p false) W)
      else ({| ptyProcess := None; sessionId := sessionId m |},
            effect (pty_kill p true) W)
  | None => (m, W)
  end.

Definition getProcess (m : PTYManagerObject) : option IPty := ptyProcess m.

Definition isAlive (m : PTYManagerObject) : bool :=
  match ptyProcess m with
  | Some _ => true
  | None => false
  end.

End Methods.
End PTYManager.

(** ** src/server/websocket-handler.ts *)

Module WebSocketHandler.
Section Methods.
Variable env : Env.

Definition with_pty (m : PTYManagerObject) (s : SessionState) : SessionState :=
  {| pty := m; authenticated := authenticated s; messageCount := messageCount s;
     lastMinute := lastMinute s; isAlive := isAlive s |}.

Definition with_authenticated (b : bool) (s : SessionState) : SessionState :=
  {| pty := pty s; authenticated := b; messageCount := messageCount s;
     lastMinute := lastMinute s; isAlive := isAlive s |}.

Definition with_rate (count last : Z) (s : SessionState) : SessionState :=
  {| pty := pty s; authenticated := authenticated s; messageCount := count;
     lastMinute := last; isAlive := isAlive s |}.

Definition with_isAlive (b : bool) (s : SessionState) : SessionState :=
  {| pty := pty s; authenticated := authenticated s; messageCount := messageCount s;
     lastMinute := lastMinute s; isAlive := b |}.

(** [new WebSocketHandler(rateLimit, maxMessageSize)]. *)
Definition new (rateLimit maxMessageSize : Z) : World :=
  {| log := []; readyState := fun _ => OPEN; processes := 0; timeouts := 0;
     timers := []; dataHandlers := []; exitHandlers := []; sessions := [];
     rateLimit := rateLimit; maxMessageSize := maxMessageSize |}.

(** [send]: only an open socket is written to. *)
Definition send (ws : WebSocket) (message : Frame) (W : World) : World :=
  match readyState W ws with
  | OPEN => effect (ws_send ws message) W
  | _ => W
  end.

Definition sendError (ws : WebSocket) (message : string) (W : World) : World :=
  send ws (Error message) W.

(** [handleConnection], [now] being [Date.now()]. *)
Definition handleConnection (ws : WebSocket) (sessionId : string) (now : Z) (W : World)
  : World :=
  let pty := PTYManager.new sessionId in
  set_sessions
    (Map_set ws {| pty := pty; authenticated := false; messageCount := 0;
                   lastMinute := now; isAlive := true |} (sessions W)) W.

(** *** The output callbacks that [handleAuth] registers

    The closure of a [handleAuth] call is found under the process its
    callbacks were registered on. *)

Definition store (p : IPty) (c : Closure) (W : World) : World :=
  set_dataHandlers (Map_set p c (dataHandlers W)) W.

(** [const flush = () => ...]. *)
Definition flush (p : IPty) (W : World) : World :=
  match Map_get p (dataHandlers W) with
  | Some c =>
      if 0 <? Z.of_nat (String.length (outputBuffer c)) then
        store p {| cl_ws := cl_ws c; outputBuffer := ""; flushTimeout := None |}
          (send (cl_ws c) (Output (outputBuffer c)) W)
      else
        store p {| cl_ws := cl_ws c; outputBuffer := outputBuffer c; flushTimeout := None |} W
  | None => W
  end.

(** [setTimeout(flush, delay)] at time [now]. *)
Definition setTimeout (p : IPty) (delay now : Z) (W : World) : Timeout * World :=
  let id := timeouts W in
  (id, set_timers (S id) (timers W ++ [(id, (now + delay, p))]) W).

Definition clearTimeout (id : Timeout) (W : World) : World :=
  set_timers (timeouts W) (Map_delete id (timers W)) W.

(** [session.pty.onData((data) => ...)], the callback, run at time [now]. *)
Definition onData_callback (p : IPty) (data : string) (now : Z) (W : World) : World :=
  match Map_get p (dataHandlers W) with
  | Some c =>
      let c := {| cl_ws := cl_ws c; outputBuffer := outputBuffer c +++ data;
                  flushTimeout := flushTimeout c |} in
      let W := store p c W in
      if 8192 <? Z.of_nat (String.length (outputBuffer c)) then
        let W := match flushTimeout c with
                 | Some id => clearTimeout id W
                 | None => W
                 end in
        flush p W
      else
        match flushTimeout c with
        | None =>
            let '(id, W) := setTimeout p 5 now W in
            store p {| cl_ws := cl_ws c; outputBuffer := outputBuffer c;
                       flushTimeout := Some id |} W
        | Some _ => W
        end
  | None => W
  end.

(** [session.pty.onExit((exitCode) => ...)], the callback. *)
Definition onExit_callback (p : IPty) (W : World) : World :=
  match Map_get p (exitHandlers W) with
  | Some ws => close_ws ws W
  | None => W
  end.

(** *** Message handlers *)

(** [handleAuth]; the token is a parameter the body never reads. *)
Definition handleAuth (ws : WebSocket) (session : SessionState) (token : option JSValue)
  (W : World) : SessionState * World :=
  let session := with_authenticated true session in
  let failed (W : World) := close_ws ws (sendError ws "Failed to spawn shell" W) in
  match PTYManager.spawn env
          {| PTYManager.shell := None; PTYManager.cwd := None;
             PTYManager.cols := Some 100; PTYManager.rows := Some 30 |}
          (pty session) W with
  | (Normal, m, W) =>
      let session := with_pty m session in
      match PTYManager.onData
              {| cl_ws := ws; outputBuffer := ""; flushTimeout := None |} m W with
      | (Normal, W) =>
          match PTYManager.onExit ws m W with
          | (Normal, W) => (session, send ws (Ready "sh" (os_homedir env)) W)
          | (Throw, W) => (session, failed W)
          end
      | (Throw, W) => (session, failed W)
      end
  | (Throw, m, W) => (with_pty m session, failed W)
  end.

Definition handleInput (session : SessionState) (data : option JSValue) (W : World)
  : World :=
  snd (PTYManager.write env data (pty session) W).

Definition handleResize (session : SessionState) (message : JSValue) (W : World)
  : World :=
  snd (PTYManager.resize env (prop message "cols") (prop message "rows") (pty session) W).

(** [Buffer.from(data, 'base64')] for a [data] that is not an
    ArrayBuffer: a Buffer is copied, a string decoded, and null,
    undefined, numbers and booleans are a TypeError. *)
Definition Buffer_from (data : option JSValue) : option Buffer :=
  match data with
  | Some (JBuf b) => Some b
  | Some (JStr s) => Some (base64_decode env s)
  | Some (JArr l) => Buffer_from_object env (JArr l)
  | Some (JObj o) => Buffer_from_object env (JObj o)
  | _ => None
  end.

Definition upload_complete (filename : string) : string :=
  String "013" (String "010" ("✅ Upload complete: " +++ filename
    +++ String "013" (String "010" ""))).

(** [handleFileUpload]; [path.basename] throws on a filename that is
    not a string, and every error ends in the [catch]. *)
Definition handleFileUpload (ws : WebSocket) (session : SessionState) (message : JSValue)
  (W : World) : World :=
  let cwd := process_cwd env in
  match prop message "filename" with
  | Some (JStr filename) =>
      let safePath := Path.resolve cwd [cwd; Path.basename filename] in
      if negb (startsWith safePath cwd) then sendError ws "Invalid path" W
      else
        match Buffer_from (prop message "data") with
        | Some buffer =>
            if fs_writeFileSync_throws env (log W) safePath then
              sendError ws "Upload failed" (effect (fs_writeFileSync safePath buffer false) W)
            else
              send ws (Output (upload_complete filename))
                (effect (fs_writeFileSync safePath buffer true) W)
        | None => sendError ws "Upload failed" W
        end
  | _ => sendError ws "Upload failed" W
  end.

(** [routeMessage]; reading [message.type] of null throws before
    anything is done, which is the only way it ends in [None]. *)
Definition routeMessage (ws : WebSocket) (session : SessionState) (message : JSValue)
  (W : World) : option (SessionState * World) :=
  match message with
  | JNull => None
  | _ =>
      match prop message "type" with
      | Some (JStr type) =>
          if String.eqb type MessageType.AUTH then
            Some (handleAuth ws session (prop message "token") W)
          else if String.eqb type MessageType.INPUT then
            Some (session,
                  if authenticated session
                  then handleInput session (prop message "data") W else W)
          else if String.eqb type MessageType.RESIZE then
            Some (session,
                  if authenticated session then handleResize session message W else W)
          else if String.eqb type MessageType.FILE_UPLOAD then
            Some (session,
                  if authenticated session
                  then handleFileUpload ws session message W else W)
          else Some (session, W)
      | _ => Some (session, W)
      end
  end.

(** [buffer.readUInt32BE(0)]: a RangeError when four bytes are not there. *)
Definition readUInt32BE (buffer : Buffer) : option Z :=
  if Z.of_nat (List.length buffer) <? 4 then None
  else Some (Sha256.be_word (firstn 4 buffer)).

(** [buffer.subarray(start, end)] for indices that are not negative:
    both are clipped to the length. *)
Definition subarray (buffer : Buffer) (start stop : Z) : Buffer :=
  firstn (Z.to_nat stop - Z.to_nat start) (skipn (Z.to_nat start) buffer).

(** The object literal of the binary path: [filename] is whatever the
    header holds under that name, a field that is undefined being left
    out. *)
Definition FILE_UPLOAD_message (header : JSValue) (fileData : Buffer) : JSValue :=
  JObj ([("type", JStr MessageType.FILE_UPLOAD)]
        ++ match prop header "filename" with
           | Some v => [("filename", v)]
           | None => []
           end
        ++ [("data", JBuf fileData);
            ("size", JNum (Z.of_nat (List.length fileData)))]).

(** The [if (isBinary) ... else ...] of [handleMessage]: the message, or
    [None] when reading the frame throws. *)
Definition decode (data : Buffer) (isBinary : bool) : option JSValue :=
  if isBinary then
    match readUInt32BE data with
    | Some headerLength =>
        let headerJson := Buffer_toString env (subarray data 4 (4 + headerLength)) in
        match JSON_parse env headerJson with
        | Some JNull => None
        | Some header =>
            let fileData := subarray data (4 + headerLength)
                              (Z.of_nat (List.length data)) in
            Some (FILE_UPLOAD_message header fileData)
        | None => None
        end
    | None => None
    end
  else JSON_parse env (Buffer_toString env data).

(** The rate window of [handleMessage]: restarted once a whole minute
    has passed, then the message counted. *)
Definition count_message (now : Z) (session : SessionState) : SessionState :=
  let minutesPassed := (now - lastMinute session) / 60000 in
  let session := if minutesPassed >? 0 then with_rate 0 now session else session in
  with_rate (messageCount session + 1) (lastMinute session) session.

(** The size check and the [try] block of [handleMessage], for a
    message that passed the rate limit. *)
Definition accept (ws : WebSocket) (data : Buffer) (isBinary : bool)
  (session : SessionState) (W : World) : World :=
  let size := Z.of_nat (List.length data) in
  if size >? maxMessageSize W then sendError ws "Message too large" W
  else
    match decode data isBinary with
    | Some message =>
        match routeMessage ws session message W with
        | Some (session, W) => set_sessions (Map_set ws session (sessions W)) W
        | None => sendError ws "Invalid message protocol" W
        end
    | None => sendError ws "Invalid message protocol" W
    end.

(** [handleMessage], [now] being [Date.now()]; [data] is the Buffer that
    ws hands to the 'message' listener. *)
Definition handleMessage (ws : WebSocket) (data : Buffer) (isBinary : bool) (now : Z)
  (W : World) : World :=
  match Map_get ws (sessions W) with
  | None => W
  | Some session =>
      let session := count_message now session in
      let W := set_sessions (Map_set ws session (sessions W)) W in
      if messageCount session >? rateLimit W then sendError ws "Rate limit exceeded" W
      else accept ws data isBinary session W
  end.

(** [handleClose]. *)
Definition handleClose (ws : WebSocket) (W : World) : World :=
  match Map_get ws (sessions W) with
  | Some session =>
      let '(_, W) := PTYManager.kill env (pty session) W in
      set_sessions (Map_delete ws (sessions W)) W
  | None => W
  end.

Definition handleError (ws : WebSocket) (W : World) : World := handleClose ws W.

(** The 'pong' listener of [handleConnection]. *)
Definition pong (ws : WebSocket) (W : World) : World :=
  match Map_get ws (sessions W) with
  | Some session => set_sessions (Map_set ws (with_isAlive true session) (sessions W)) W
  | None => W
  end.

(** The callback of the heartbeat's [forEach] for the entry under [ws]:
    an entry is visited with the value the map holds for it then. *)
Definition heartbeat_entry (W : World) (ws : WebSocket) : World :=
  match Map_get ws (sessions W) with
  | Some session =>
      if negb (isAlive session) then terminate_ws ws W
      else
        ping_ws ws (set_sessions (Map_set ws (with_isAlive false session) (sessions W)) W)
  | None => W
  end.

(** The [setInterval] callback of the constructor, run every 30000 ms:
    the entries in insertion order. *)
Definition heartbeat (W : World) : World :=
  fold_left heartbeat_entry (map fst (sessions W)) W.

Definition cleanup_entry (W : World) (ws : WebSocket) : World :=
  match Map_get ws (sessions W) with
  | Some session =>
      let '(m, W) := PTYManager.kill env (pty session) W in
      close_ws ws (set_sessions (Map_set ws (with_pty m session) (sessions W)) W)
  | None => W
  end.

(** [cleanup]. *)
Definition cleanup (W : World) : World :=
  set_sessions [] (fold_left cleanup_entry (map fst (sessions W)) W).

(** *** The events the handler is called with *)

Inductive Event :=
| connection (ws : WebSocket) (sessionId : string)
| message (ws : WebSocket) (data : Buffer) (isBinary : bool)
| ws_pong (ws : WebSocket)
| ws_closed (ws : WebSocket)
| ws_error (ws : WebSocket)
| pty_data (p : IPty) (data : string)
| pty_exit (p : IPty)
| timeout (id : Timeout)
| interval.

(** One event at time [now].  The 'close' event of a socket comes with
    [readyState] CLOSED; a timer runs [flush] of the closure that set it. *)
Definition dispatch (now : Z) (e : Event) (W : World) : World :=
  match e with
  | connection ws sessionId => handleConnection ws sessionId now W
  | message ws data isBinary => handleMessage ws data isBinary now W
  | ws_pong ws => pong ws W
  | ws_closed ws =>
      handleClose ws
        (set_readyState (fun w => if Nat.eqb w ws then CLOSED else readyState W w) W)
  | ws_error ws => handleError ws W
  | pty_data p data => onData_callback p data now W
  | pty_exit p => onExit_callback p W
  | timeout id =>
      match Map_get id (timers W) with
      | Some (_, p) => flush p (clearTimeout id W)
      | None => W
      end
  | interval => heartbeat W
  end.

(** The timers that are due at [now] run, in the order they were set. *)
Definition advance (now : Z) (W : World) : World :=
  fold_left (fun W t => if fst (snd t) <=? now then dispatch now (timeout (fst t)) W else W)
    (timers W) W.

(** A run: every event at its time, after the timers due by then. *)
Fixpoint run (events : list (Z * Event)) (W : World) : World :=
  match events with
  | [] => W
  | (now, e) :: r => run r (dispatch now e (advance now W))
  end.

End Methods.
End WebSocketHandler.

(** ** An environment to run the handler in

    A reader for the part of JSON made of null, booleans, integers,
    strings without escapes, arrays and objects; on these texts it
    returns what [JSON.parse] returns, and it refuses every other text. *)

Module Json.

Definition quote : ascii := "034"%char.

Fixpoint skip_ws (s : list ascii) : list ascii :=
  match s with
  | c :: r =>
      if (code c =? 32) || (code c =? 9) || (code c =? 10) || (code c =? 13)
      then skip_ws r else s
  | [] => []
  end.

(** The characters of a string literal up to the closing quote. *)
Fixpoint string_lit (s : list ascii) : option (string * list ascii) :=
  match s with
  | [] => None
  | c :: r =>
      if Ascii.eqb c quote then Some ("", r)
      else if Ascii.eqb c "\" || (code c <? 32) then None
      else match string_lit r with
           | Some (str, r') => Some (String c str, r')
           | None => None
           end
  end.

Fixpoint digits_of (s : list ascii) (acc : Z) : Z * list ascii :=
  match s with
  | c :: r =>
      match digit c with
      | Some d => digits_of r (10 * acc + d)
      | None => (acc, s)
      end
  | [] => (acc, [])
  end.

(** An integer literal: no fraction, no exponent, no leading zero. *)
Definition integer (s : list ascii) : option (Z * list ascii) :=
  let '(sign, s) := match s with
                    | "-"%char :: r => (-1, r)
                    | _ => (1, s)
                    end in
  match s with
  | c :: r =>
      match digit c with
      | Some d =>
          let '(n, rest) := if d =? 0 then (0, r) else digits_of r d in
          match rest with
          | c' :: _ =>
              if Ascii.eqb c' "." || Ascii.eqb c' "e" || Ascii.eqb c' "E"
                 || match digit c' with Some _ => true | None => false end
              then None else Some (sign * n, rest)
          | [] => Some (sign * n, rest)
          end
      | None => None
      end
  | [] => None
  end.

(** [obj[k] = v]: a key that is there keeps its place. *)
Fixpoint obj_set (k : string) (v : JSValue) (fields : list (string * JSValue))
  : list (string * JSValue) :=
  match fields with
  | [] => [(k, v)]
  | (k', v') :: r => if String.eqb k k' then (k, v) :: r else (k', v') :: obj_set k v r
  end.

Fixpoint value (fuel : nat) (s : list ascii) : option (JSValue * list ascii) :=
  match fuel with
  | O => None
  | S f =>
      match skip_ws s with
      | "n" :: "u" :: "l" :: "l" :: r => Some (JNull, r)
      | "t" :: "r" :: "u" :: "e" :: r => Some (JBool true, r)
      | "f" :: "a" :: "l" :: "s" :: "e" :: r => Some (JBool false, r)
      | "[" :: r =>
          match skip_ws r with
          | "]" :: r' => Some (JArr [], r')
          | _ => elements f r []
          end
      | "{" :: r =>
          match skip_ws r with
          | "}" :: r' => Some (JObj [], r')
          | _ => members f r []
          end
      | c :: r =>
          if Ascii.eqb c quote then
            match string_lit r with
            | Some (str, r') => Some (JStr str, r')
            | None => None
            end
          else
            match integer (c :: r) with
            | Some (n, r') => Some (JNum n, r')
            | None => None
            end
      | [] => None
      end
  end%char
with elements (fuel : nat) (s : list ascii) (acc : list JSValue)
  : option (JSValue * list ascii) :=
  match fuel with
  | O => None
  | S f =>
      match value f s with
      | Some (v, r) =>
          match skip_ws r with
          | "," :: r' => elements f r' (acc ++ [v])
          | "]" :: r' => Some (JArr (acc ++ [v]), r')
          | _ => None
          end
      | None => None
      end
  end%char
with members (fuel : nat) (s : list ascii) (acc : list (string * JSValue))
  : option (JSValue * list ascii) :=
  match fuel with
  | O => None
  | S f =>
      match skip_ws s with
      | c :: r =>
          if Ascii.eqb c quote then
            match string_lit r with
            | Some (k, r1) =>
                match skip_ws r1 with
                | ":" :: r2 =>
                    match value f r2 with
                    | Some (v, r3) =>
                        match skip_ws r3 with
                        | "," :: r4 => members f r4 (obj_set k v acc)
                        | "}" :: r4 => Some (JObj (obj_set k v acc), r4)
                        | _ => None
                        end
                    | None => None
                    end
                | _ => None
                end
            | None => None
            end
          else None
      | [] => None
      end
  end%char.

Definition parse (text : string) : option JSValue :=
  let s := list_ascii_of_string text in
  match value (2 * List.length s + 2) s with
  | Some (v, r) =>
      match skip_ws r with
      | [] => Some v
      | _ => None
      end
  | None => None
  end.

(** A string literal of JSON for a text that needs no escape. *)
Definition quoted (s : string) : string :=
  String quote (s +++ String quote "").

End Json.

(** Bytes below 128 are the code units of the decoded text; the
    environment below is only used on such buffers. *)
Definition ascii_toString (b : Buffer) : string :=
  string_of_list_ascii (map (fun n => ascii_of_N (Z.to_N n)) b).

(** The base64 decoder of [Buffer.from(s, 'base64')]: both alphabets,
    characters outside them skipped, the first padding character ending
    the text. *)
Definition sextet (c : ascii) : option Z :=
  let n := code c in
  if (65 <=? n) && (n <=? 90) then Some (n - 65)
  else if (97 <=? n) && (n <=? 122) then Some (n - 71)
  else if (48 <=? n) && (n <=? 57) then Some (n + 4)
  else if (n =? 43) || (n =? 45) then Some 62
  else if (n =? 47) || (n =? 95) then Some 63
  else None.

Fixpoint sextets (s : string) : list Z :=
  match s with
  | EmptyString => []
  | String c r =>
      if Ascii.eqb c "=" then []
      else match sextet c with
           | Some v => v :: sextets r
           | None => sextets r
           end
  end.

Fixpoint octets (fuel : nat) (l : list Z) : Buffer :=
  match fuel, l with
  | S f, a :: b :: c :: d :: r =>
      Z.lor (Z.shiftl a 2) (Z.shiftr b 4)
      :: Z.lor (Z.shiftl (Z.land b 15) 4) (Z.shiftr c 2)
      :: Z.lor (Z.shiftl (Z.land c 3) 6) d
      :: octets f r
  | _, [a; b; c] =>
      [ Z.lor (Z.shiftl a 2) (Z.shiftr b 4);
        Z.lor (Z.shiftl (Z.land b 15) 4) (Z.shiftr c 2) ]
  | _, [a; b] => [ Z.lor (Z.shiftl a 2) (Z.shiftr b 4) ]
  | _, _ => []
  end.

Definition base64 (s : string) : Buffer :=
  let l := sextets s in octets (List.length l) l.

(** A working directory [/srv/app] and nothing outside the program ever
    throwing. *)
Definition quiet : Env :=
  {| process_cwd := "/srv/app";
     os_homedir := "/home/term";
     detectShell := "/bin/sh";
     JSON_parse := Json.parse;
     Buffer_toString := ascii_toString;
     base64_decode := base64;
     Buffer_from_object := fun _ => None;
     pty_spawn_throws := fun _ => false;
     pty_write_throws := fun _ _ => false;
     pty_resize_throws := fun _ _ => false;
     pty_kill_throws := fun _ _ => false;
     fs_writeFileSync_throws := fun _ _ => false |}.

(** ** The specification's wording and sample inputs *)

(** Validation as the specification words it: three fields, the
    signature recomputed over the first two, and the current time at
    most the parsed expiry. *)
Definition validateToken_spec (a : AuthService.t) (now : Z) (token : string) : bool :=
  match split ":" token with
  | [timestamp; expiresAt; signature] =>
      String.eqb signature (AuthService.createSignature a (timestamp +++ ":" +++ expiresAt))
      && Number_le (Int now) (parseInt expiresAt)
  | _ => false
  end.

Definition service : AuthService.t :=
  {| AuthService.secret := "s3cret"; AuthService.tokenExpiry := Int 3600 |}.

Definition unparsable_expiry_token : string :=
  "0:never:cfae26f1226e723ed8d128e5f862331c10d5ea5b9cc0d794a688cbc0d0283128".

(** A handler with the default limits, and one connection at time 1000. *)
Definition fresh : World := WebSocketHandler.new 2000 (20 * 1024 * 1024).

Definition connected : World := WebSocketHandler.handleConnection 1%nat "5e55" 1000 fresh.

(** The text frame [{"type":"auth","token":"t"}]. *)
Definition AUTH_frame : Buffer :=
  utf8_encode ("{" +++ Json.quoted "type" +++ ":" +++ Json.quoted "auth" +++ ","
               +++ Json.quoted "token" +++ ":" +++ Json.quoted "t" +++ "}").

(** The connection of [connected], authenticated at time 2000. *)
Definition authenticated_world : World :=
  WebSocketHandler.run quiet
    [ (1000, WebSocketHandler.connection 1%nat "5e55");
      (2000, WebSocketHandler.message 1%nat AUTH_frame false) ] fresh.

(** A binary frame of 24 bytes that announces a header of 100 bytes,
    followed by [{"filename":"a.txt"}]. *)
Definition oversized_header_frame : Buffer :=
  [0; 0; 0; 100]
  ++ utf8_encode ("{" +++ Json.quoted "filename" +++ ":" +++ Json.quoted "a.txt" +++ "}").

(** A binary frame of 5 bytes that announces a header of 9 bytes,
    followed by an opening brace. *)
Definition truncated_frame : Buffer := [0; 0; 0; 9; 123].

(** A string without path separator. *)
Fixpoint no_separator (s : string) : bool :=
  match s with
  | EmptyString => true
  | String c r => negb (Path.isPosixPathSeparator c) && no_separator r
  end.

(** The name of an entry of a directory: no separator, not empty and
    neither [.] nor [..]. *)
Definition component (s : string) : bool :=
  no_separator s && negb (String.eqb s "") && negb (String.eqb s ".")
  && negb (String.eqb s "..").

(** The path [/c1/.../cn] of the directory reached from the root through
    the entries [c1 ... cn]: the form in which [process.cwd()] returns
    the working directory. *)
Definition directory (segs : list string) : string := "/" +++ Path.join segs.

(** The segments of the working directory followed by a separator. *)
Definition front (segs : list string) : list string :=
  match segs with
  | [] => [""; ""]
  | _ => "" :: segs
  end.


(** An upload whose filename climbs out of the working directory. *)
Definition traversal_upload : JSValue :=
  JObj [ ("type", JStr "file-upload"); ("filename", JStr "../../etc/passwd");
         ("data", JBuf [114; 111; 111; 116]); ("size", JNum 4) ].

(** What the handler keeps about its connections and its limits. *)
Definition registry (W : World) : list (WebSocket * SessionState) * Z * Z :=
  (sessions W, rateLimit W, maxMessageSize W).

(** The events that register or remove the session of a socket. *)
Definition registration (ws : WebSocket) (e : WebSocketHandler.Event) : bool :=
  match e with
  | WebSocketHandler.connection w _ => Nat.eqb w ws
  | WebSocketHandler.ws_closed w => Nat.eqb w ws
  | WebSocketHandler.ws_error w => Nat.eqb w ws
  | _ => false
  end.

Definition message_of (ws : WebSocket) (e : WebSocketHandler.Event) : bool :=
  match e with
  | WebSocketHandler.message w _ _ => Nat.eqb w ws
  | _ => false
  end.

(** The number of inbound messages of a socket among the events. *)
Definition messages_of (ws : WebSocket) (events : list (Z * WebSocketHandler.Event)) : Z :=
  Z.of_nat (List.length (filter (fun te => message_of ws (snd te)) events)).

(** An event during the window that started at [t0] for the session of
    [ws]: the session stays registered, and a message of it arrives
    before a minute has passed. *)
Definition in_window (ws : WebSocket) (t0 : Z) (te : Z * WebSocketHandler.Event) : bool :=
  negb (registration ws (snd te))
  && (negb (message_of ws (snd te)) || (fst te - t0 <? 60000)).

(** The rate window of the session of a socket: messages counted and
    start of the window. *)
Definition rate (ws : WebSocket) (W : World) : option (Z * Z) :=
  option_map (fun s => (messageCount s, lastMinute s)) (Map_get ws (sessions W)).

(** One connection at time 1000 to a handler that admits two messages
    a minute. *)
Definition strict : World :=
  WebSocketHandler.handleConnection 1%nat "5e55" 1000 (WebSocketHandler.new 2 (20 * 1024 * 1024)).

(** The text frame [{"type":"input","data":"ls"}]. *)
Definition INPUT_frame : Buffer :=
  utf8_encode ("{" +++ Json.quoted "type" +++ ":" +++ Json.quoted "input" +++ ","
               +++ Json.quoted "data" +++ ":" +++ Json.quoted "ls" +++ "}").


(** What a tick of the heartbeat does to the socket of an entry, and
    the entry it leaves. *)
Definition probe (entry : WebSocket * SessionState) : Effect :=
  if isAlive (snd entry) then ws_ping (fst entry) else ws_terminate (fst entry).

Definition flagged (entry : WebSocket * SessionState) : WebSocket * SessionState :=
  (fst entry, WebSocketHandler.with_isAlive false (snd entry)).



(** The chunks of a burst one after the other. *)
Fixpoint joined (chunks : list string) : string :=
  match chunks with
  | [] => ""
  | d :: r => d +++ joined r
  end.

(** The world in which the closure of process [p] holds [buffer] and
    waits for the timer [id], the only one pending, to flush it. *)
Definition pending (p : IPty) (ws : WebSocket) (buffer : string) (id : Timeout) (due : Z)
  (W : World) : World :=
  set_dataHandlers
    (Map_set p {| cl_ws := ws; outputBuffer := buffer; flushTimeout := Some id |}
       (dataHandlers W))
    (set_timers (S id) [(id, (due, p))] W).

(** The shell's output as events of process [p]. *)
Definition writes_of (p : IPty) (writes : list (Z * string))
  : list (Z * WebSocketHandler.Event) :=
  map (fun w => (fst w, WebSocketHandler.pty_data p (snd w))) writes.

(** A chunk of [n] characters. *)
Fixpoint chunk (n : nat) : string :=
  match n with
  | O => ""
  | S m => String "a" (chunk m)
  end.

(** ** More of the code: shell selection, the upgrade gate, the client *)

(** A string in which the character [sep] does not occur. *)
Fixpoint free_of (sep : ascii) (s : string) : bool :=
  match s with
  | EmptyString => true
  | String c r => negb (Ascii.eqb c sep) && free_of sep r
  end.

(** [String.prototype.trim]: white space removed at both ends. *)
Definition trim (s : string) : string :=
  let l := list_ascii_of_string (trimStart s) in
  string_of_list_ascii
    (rev (list_ascii_of_string (trimStart (string_of_list_ascii (rev l))))).

(** A string is truthy when it is not empty. *)
Definition truthy (s : string) : bool := negb (String.length s =? 0)%nat.

(** src/server/pty-manager.ts, [detectShell] and the environment that
    [spawn] builds. *)
Module Shell.

(** What [detectShell] reads from the host. *)
Record Host := {
  username : option string;       (* os.userInfo().username; None: it throws *)
  passwd : option string;         (* readFileSync('/etc/passwd'); None: it throws *)
  existsSync : string -> bool;    (* fs.existsSync *)
  SHELL : option string           (* process.env.SHELL *)
}.

(** The [try] block: the shell of the user's line of [/etc/passwd],
    when that line is found and the shell exists; [None] when the block
    falls through or throws. *)
Definition passwd_shell (h : Host) : option string :=
  match username h, passwd h with
  | Some name, Some passwdContent =>
      match List.find (fun line => startsWith line (name +++ ":"))
                      (split "010" passwdContent) with
      | Some userLine =>
          if truthy userLine then
            let shell := trim (List.last (split ":" userLine) "") in
            if truthy shell && existsSync h shell then Some shell else None
          else None
      | None => None
      end
  | _, _ => None
  end.

Definition fallbacks (h : Host) : list (option string) :=
  [SHELL h; Some "/bin/zsh"; Some "/bin/bash"; Some "/bin/sh"].

Definition usable (h : Host) (shell : option string) : bool :=
  match shell with
  | Some s => truthy s && existsSync h s
  | None => false
  end.

(** [detectShell]. *)
Definition detectShell (h : Host) : string :=
  match passwd_shell h with
  | Some shell => shell
  | None =>
      match List.find (usable h) (fallbacks h) with
      | Some (Some shell) => shell
      | _ => "/bin/sh"
      end
  end.

(** An object with string values, its keys in insertion order. *)
Definition Dict := list (string * string).

Fixpoint get (k : string) (o : Dict) : option string :=
  match o with
  | [] => None
  | (k', v) :: r => if String.eqb k k' then Some v else get k r
  end.

(** [o[k] = v]. *)
Fixpoint put (k v : string) (o : Dict) : Dict :=
  match o with
  | [] => [(k, v)]
  | (k', v') :: r => if String.eqb k k' then (k, v) :: r else (k', v') :: put k v r
  end.

(** The spread [{...o, ...source}]: the properties of [source] written
    into [o] one after the other. *)
Definition spread (o source : Dict) : Dict :=
  fold_left (fun acc kv => put (fst kv) (snd kv) acc) source o.

(** The [env] object of [spawn]: the process environment, the fixed
    terminal settings, then the caller's overrides. *)
Definition spawn_env (process_env : Dict) (homedir username shell : string)
  (config_env : Dict) : Dict :=
  let LANG := match get "LANG" process_env with
              | Some l => if truthy l then l else "en_US.UTF-8"
              | None => "en_US.UTF-8"
              end in
  spread
    (put "LANG" LANG
       (put "SHELL" shell
          (put "USER" username
             (put "HOME" homedir
                (put "COLORTERM" "truecolor"
                   (put "TERM" "xterm-256color"
                      (spread [] process_env)))))))
    config_env.

End Shell.

(** The server's entry point: the 'upgrade' listener. *)
Module Server.

(** What becomes of a request to upgrade. *)
Inductive Response :=
| Thrown         (* [new URL] throws; nothing catches it and the process ends *)
| Unauthorized   (* 'HTTP/1.1 401 Unauthorized' written, the socket destroyed *)
| Aborted        (* ws refuses the handshake and never calls back *)
| Upgraded.      (* the socket handed to [handleConnection] *)

(** The 'upgrade' listener.  [url] is what
    [new URL(request.url || '', ...)] gives, [None] when it throws, and
    holds [url.searchParams.get('token')]; [handshake] is the socket
    that [wss.handleUpgrade] calls back with, [None] when it aborts the
    handshake instead; [now] is the time of the validation and
    [connected] the time at which the socket is handed to
    [handleConnection] with its random [sessionId]. *)
Definition upgrade (authService : AuthService.t) (url : option (option string))
  (handshake : option WebSocket) (sessionId : string) (now connected : Z) (W : World)
  : Response * World :=
  match url with
  | None => (Thrown, W)
  | Some token =>
      let refused :=
        match token with
        | Some t => negb (truthy t) || negb (AuthService.validateToken authService now t)
        | None => true
        end in
      if refused then (Unauthorized, W)
      else
        match handshake with
        | Some ws => (Upgraded, WebSocketHandler.handleConnection ws sessionId connected W)
        | None => (Aborted, W)
        end
  end.

End Server.

(** src/client/index.ts: the upload frame and the reconnection policy. *)
Module Client.

(** The frame that [uploadFile] builds: the length of the header as a
    32-bit big-endian number, the header, the content of the file. *)
Definition frame (headerBuffer content : Buffer) : Buffer :=
  Sha256.be_bytes 4 (Z.of_nat (List.length headerBuffer)) ++ headerBuffer ++ content.

(** [uploadFile], [JSON_stringify] being the browser's. *)
Definition uploadFile (JSON_stringify : JSValue -> string) (name : string)
  (content : Buffer) : Buffer :=
  let header := JSON_stringify
                  (JObj [ ("filename", JStr name);
                          ("size", JNum (Z.of_nat (List.length content))) ]) in
  frame (utf8_encode header) content.

(** The part of the client's state that reconnection uses. *)
Record State := {
  reconnectAttempts : Z;
  scheduled : list Z       (* the delays of the reconnections set so far *)
}.

Definition maxReconnectAttempts : Z := 5.

(** [ws.onopen]. *)
Definition onopen (c : State) : State :=
  {| reconnectAttempts := 0; scheduled := scheduled c |}.

(** [ws.onclose]: a reconnection is set while fewer than five were
    tried, each waiting a second more than the one before. *)
Definition onclose (c : State) : State :=
  if reconnectAttempts c <? maxReconnectAttempts then
    {| reconnectAttempts := reconnectAttempts c + 1;
       scheduled := scheduled c ++ [1000 * (reconnectAttempts c + 1)] |}
  else c.

End Client.

(** ** Runs and observations used by the properties *)

(** The messages of a list routed one after the other; [None] as soon
    as one throws. *)
Fixpoint route_all (env : Env) (ws : WebSocket) (session : SessionState)
  (messages : list JSValue) (W : World) : option (SessionState * World) :=
  match messages with
  | [] => Some (session, W)
  | m :: r =>
      match WebSocketHandler.routeMessage env ws session m W with
      | Some (session', W') => route_all env ws session' r W'
      | None => None
      end
  end.

(** The INPUT message with the given [data]. *)
Definition INPUT_message (data : JSValue) : JSValue :=
  JObj [("type", JStr MessageType.INPUT); ("data", data)].

(** What a log wrote to the processes, in order. *)
Fixpoint writes (l : list Effect) : list (IPty * option JSValue) :=
  match l with
  | [] => []
  | pty_write p data _ :: r => (p, data) :: writes r
  | _ :: r => writes r
  end.

(** The text of the OUTPUT frames a log sent to a socket, in order. *)
Fixpoint outputs (ws : WebSocket) (l : list Effect) : string :=
  match l with
  | [] => ""
  | ws_send w (Output data) :: r =>
      if Nat.eqb w ws then data +++ outputs ws r else outputs ws r
  | _ :: r => outputs ws r
  end.

(** The calls of [terminate] on a socket in a log. *)
Definition is_terminate (ws : WebSocket) (e : Effect) : bool :=
  match e with
  | ws_terminate w => Nat.eqb w ws
  | _ => false
  end.

(** [n] periods of the heartbeat in each of which the socket [ws]
    answers the probe. *)
Fixpoint rounds (n : nat) (ws : WebSocket) (W : World) : World :=
  match n with
  | O => W
  | S k => rounds k ws (WebSocketHandler.pong ws (WebSocketHandler.heartbeat W))
  end.

(** The output of the process [p] among the events. *)
Fixpoint data_of (p : IPty) (events : list (Z * WebSocketHandler.Event)) : string :=
  match events with
  | [] => ""
  | (_, WebSocketHandler.pty_data q d) :: r =>
      if Nat.eqb q p then d +++ data_of p r else data_of p r
  | _ :: r => data_of p r
  end.

Definition is_pty_data (e : WebSocketHandler.Event) : bool :=
  match e with
  | WebSocketHandler.pty_data _ _ => true
  | _ => false
  end.

(** The buffer of the closure of process [p]. *)
Definition buffer_of (p : IPty) (W : World) : string :=
  match Map_get p (dataHandlers W) with
  | Some c => outputBuffer c
  | None => ""
  end.

(** A printer for the objects of the JSON fragment whose strings need
    no escape, used to run the client. *)
Module Print.

Fixpoint value (fuel : nat) (v : JSValue) : string :=
  match fuel with
  | O => ""
  | S f =>
      match v with
      | JNull => "null"
      | JBool true => "true"
      | JBool false => "false"
      | JNum n => if infinite (nearest_double n) then "null" else Number_toString (Int n)
      | JStr s => Json.quoted s
      | JArr l => "[" +++ String.concat "," (map (value f) l) +++ "]"
      | JObj o =>
          "{" +++ String.concat ","
                    (map (fun kv => Json.quoted (fst kv) +++ ":" +++ value f (snd kv)) o)
          +++ "}"
      | JBuf b =>
          "{" +++ Json.quoted "type" +++ ":" +++ Json.quoted "Buffer" +++ ","
          +++ Json.quoted "data" +++ ":["
          +++ String.concat "," (map (fun n => Number_toString (Int n)) b) +++ "]}"
      end
  end.

Definition stringify (v : JSValue) : string := value 64 v.

End Print.

(** The value of a decimal numeral read from the left, [a] being the
    value read so far. *)
Fixpoint horner (u : Decimal.uint) (a : Z) : Z :=
  match u with
  | Decimal.Nil => a
  | Decimal.D0 l => horner l (10 * a + 0)
  | Decimal.D1 l => horner l (10 * a + 1)
  | Decimal.D2 l => horner l (10 * a + 2)
  | Decimal.D3 l => horner l (10 * a + 3)
  | Decimal.D4 l => horner l (10 * a + 4)
  | Decimal.D5 l => horner l (10 * a + 5)
  | Decimal.D6 l => horner l (10 * a + 6)
  | Decimal.D7 l => horner l (10 * a + 7)
  | Decimal.D8 l => horner l (10 * a + 8)
  | Decimal.D9 l => horner l (10 * a + 9)
  end.

(** [W'] is [W] after further calls, all of which satisfy [P]. *)
Definition extends (P : Effect -> bool) (W W' : World) : Prop :=
  exists new, log W' = log W ++ new /\ forallb P new = true.

(** The calls that start or end a shell or a connection. *)
Definition lifecycle (e : Effect) : bool :=
  match e with
  | pty_spawn _ _ _ _ _ | pty_kill _ _ | ws_close _ | ws_terminate _ => true
  | _ => false
  end.

(** The lines of a text file put together. *)
Definition unlines (lines : list string) : string := String.concat (String "010" "") lines.

(** The fields of a line of [/etc/passwd] put together. *)
Definition colon_separated (fields : list string) : string := String.concat ":" fields.

(** The socket that the callbacks of process [q] write to. *)
Definition socket_of (q : IPty) (W : World) : option WebSocket :=
  option_map cl_ws (Map_get q (dataHandlers W)).

(** What the socket [ws] has been sent as OUTPUT and what the closure of
    [p] still holds. *)
Definition delivered_and_held (ws : WebSocket) (p : IPty) (W : World) : string :=
  outputs ws (log W) +++ buffer_of p W.

(** What a flush of the closure of [q] sends to [ws]: its buffer, when
    [ws] is its socket and is open. *)
Definition flushed (ws : WebSocket) (q : IPty) (W : World) : string :=
  match Map_get q (dataHandlers W) with
  | Some c => if Nat.eqb (cl_ws c) ws
              then match readyState W ws with OPEN => outputBuffer c | _ => "" end
              else ""
  | None => ""
  end.

(** The closure of [p] is the only one that writes to [ws], and [ws]
    is open. *)
Definition sole_writer (ws : WebSocket) (p : IPty) (W : World) : Prop :=
  socket_of p W = Some ws /\
  (forall q w, socket_of q W = Some w -> q <> p -> w <> ws) /\
  readyState W ws = OPEN.

(** Two worlds that differ at most in their timers. *)
Definition same_but_timers (W X : World) : Prop :=
  log X = log W /\ readyState X = readyState W /\ dataHandlers X = dataHandlers W.

(** The frames a log sent to a socket, in order. *)
Fixpoint frames (ws : WebSocket) (l : list Effect) : list Frame :=
  match l with
  | [] => []
  | ws_send w f :: r => if Nat.eqb w ws then f :: frames ws r else frames ws r
  | _ :: r => frames ws r
  end.

(** No timer is pending that would flush the buffer of process [p]. *)
Definition no_flush_pending (p : IPty) (W : World) : Prop :=
  Forall (fun t => snd (snd t) <> p) (timers W).

(** What [setTimeout] and [clearTimeout] keep true of the pending
    timers: their ids are distinct, and were handed out before. *)
Definition timers_distinct (W : World) : Prop :=
  NoDup (map fst (timers W)) /\ Forall (fun t => (fst t < timeouts W)%nat) (timers W).

(** The callbacks of every process other than [p] write to another
    socket than [ws]. *)
Definition others_elsewhere (p : IPty) (ws : WebSocket) (W : World) : Prop :=
  forall q w, socket_of q W = Some w -> q <> p -> w <> ws.

(** [X'] is [X] after steps that leave alone the closure of [p], what
    [ws] has been sent and the timers of [p], and set no timer. *)
Definition spared (p : IPty) (ws : WebSocket) (X X' : World) : Prop :=
  Map_get p (dataHandlers X') = Map_get p (dataHandlers X) /\
  (forall q, socket_of q X' = socket_of q X) /\
  readyState X' = readyState X /\
  frames ws (log X') = frames ws (log X) /\
  timeouts X' = timeouts X /\
  incl (timers X') (timers X) /\
  (NoDup (map fst (timers X)) -> NoDup (map fst (timers X'))) /\
  (forall t, In t (timers X) -> snd (snd t) = p -> In t (timers X')).

(** The closure of [p] holds [buffer] for the open socket [ws], which
    no other process writes to, and waits for the timer [id], due at
    [due], the only one pending for [p]. *)
Definition holding (p : IPty) (ws : WebSocket) (buffer : string) (id : Timeout) (due : Z)
  (X : World) : Prop :=
  Map_get p (dataHandlers X)
    = Some {| cl_ws := ws; outputBuffer := buffer; flushTimeout := Some id |} /\
  others_elsewhere p ws X /\
  readyState X ws = OPEN /\
  NoDup (map fst (timers X)) /\
  In (id, (due, p)) (timers X) /\
  (forall t, In t (timers X) -> snd (snd t) = p -> t = (id, (due, p))).

(** Two authenticated connections, socket 1 with process 0 and socket 2
    with process 1; process 0 has written [x] at 4998, which waits for
    its timer. *)
Definition two_sessions : World :=
  WebSocketHandler.run quiet
    [ (1000, WebSocketHandler.connection 1%nat "5e55");
      (2000, WebSocketHandler.message 1%nat AUTH_frame false);
      (3000, WebSocketHandler.connection 2%nat "5e56");
      (4000, WebSocketHandler.message 2%nat AUTH_frame false);
      (4998, WebSocketHandler.pty_data 0%nat "x") ] fresh.

(** The pending timers and the next id that [setTimeout] hands out. *)
Definition clock (W : World) : list (Timeout * (Z * IPty)) * Timeout :=
  (timers W, timeouts W).

(** * Properties *)

Example sha256_constants :
  List.length Sha256.K = 64%nat /\ List.length Sha256.H0 = 8%nat /\
  nth 0 Sha256.K 0 = 0x428a2f98 /\ nth 63 Sha256.K 0 = 0xc67178f2 /\
  nth 0 Sha256.H0 0 = 0x6a09e667 /\ nth 7 Sha256.H0 0 = 0x5be0cd19.
Proof. vm_compute. repeat split. Qed.

Example sha256_abc :
  Sha256.hex (Sha256.sha256 (utf8_encode "abc"))
  = "ba7816bf8f01cfea414140de5dae2223b00361a396177a9cb410ff61f20015ad".
Proof. vm_compute. reflexivity. Qed.

Example hmac_rfc4231_case2 :
  Sha256.hex (Sha256.hmac (utf8_encode "Jefe") (utf8_encode "what do ya want for nothing?"))
  = "5bdcc146bf60754e6a042426089575c75a003f089d2739839dec58b964ec3843".
Proof. vm_compute. reflexivity. Qed.

Example basename_examples :
  Path.basename "../../etc/passwd" = "passwd" /\
  Path.basename "/a/b//" = "b" /\
  Path.basename "///" = "" /\
  Path.basename ".." = ".." /\
  Path.resolve "/srv/app" ["/srv/app"; "passwd"] = "/srv/app/passwd" /\
  Path.resolve "/srv/app" ["/srv/app"; ".."] = "/srv" /\
  Path.resolve "/srv/app" ["a/./b/../c"; ""] = "/srv/app/a/c" /\
  Path.resolve "/" ["/"; ".."] = "/".
Proof. vm_compute. repeat split. Qed.

Example base64_examples :
  base64 "aGk=" = [104; 105] /\ base64 "cm9vdA==" = [114; 111; 111; 116] /\
  base64 "aGVsbG8gd29ybGQ" = utf8_encode "hello world".
Proof. vm_compute. repeat split. Qed.

Example parseInt_examples :
  parseInt "  42abc" = Int 42 /\ parseInt "-7" = Int (-7) /\
  parseInt "never" = NaN /\ parseInt "" = NaN /\ parseInt "NaN" = NaN.
Proof. vm_compute. repeat split. Qed.

Example Json_parse_examples :
  Json.parse ("{" +++ Json.quoted "type" +++ ": " +++ Json.quoted "auth" +++ "}")
    = Some (JObj [("type", JStr "auth")]) /\
  Json.parse "[1, -20, null, true]" = Some (JArr [JNum 1; JNum (-20); JNull; JBool true]) /\
  Json.parse "" = None /\
  Json.parse "{" = None /\
  Json.parse "01" = None /\
  Json.parse "null" = Some JNull.
Proof. vm_compute. repeat split. Qed.

(** ** Token service *)

Lemma validateToken_true_iff (a : AuthService.t) (now : Z) (token : string) :
  AuthService.validateToken a now token = true <->
  exists timestamp expiresAt signature,
    split ":" token = [timestamp; expiresAt; signature] /\
    signature = AuthService.createSignature a (timestamp +++ ":" +++ expiresAt) /\
    Number_gt (Int now) (parseInt expiresAt) = false.
Proof.
  unfold AuthService.validateToken.
  destruct (split ":" token) as [|t [|e [|sg [|x r]]]];
    try (split; [discriminate | intros (? & ? & ? & H & _); discriminate]).
  destruct (String.eqb_spec sg (AuthService.createSignature a (t +++ ":" +++ e))) as [E|E];
    cbn [negb].
  - destruct (Number_gt (Int now) (parseInt e)) eqn:G.
    + split; [discriminate|].
      intros (t' & e' & sg' & H & _ & G'). injection H as <- <- <-. congruence.
    + split; [|reflexivity]. intros _. exists t, e, sg. auto.
  - split; [discriminate|].
    intros (t' & e' & sg' & H & S & _). injection H as <- <- <-. contradiction.
Qed.

(** Where the expiry field parses to a number the code is the
    validation of the specification. *)
Lemma validateToken_spec_when_expiry_parses (a : AuthService.t) (now : Z) (token : string) :
  (forall t e sg, split ":" token = [t; e; sg] -> parseInt e <> NaN) ->
  AuthService.validateToken a now token = validateToken_spec a now token.
Proof.
  unfold AuthService.validateToken, validateToken_spec. intros P.
  destruct (split ":" token) as [|t [|e [|sg [|x r]]]]; try reflexivity.
  specialize (P t e sg eq_refl).
  destruct (String.eqb sg _); cbn [negb andb]; [|reflexivity].
  destruct (parseInt e) as [|z]; [contradiction|].
  cbn [Number_gt Number_le].
  destruct (Z.gtb_spec now z), (Z.leb_spec now z); (reflexivity || lia).
Qed.

(** C5, at the failing input.  A token whose expiry field is not a
    number and whose signature is the HMAC-SHA256 of its first two
    fields is accepted at every time: [parseInt] gives NaN and
    [Date.now() > NaN] is false, so the expiry check lets it through,
    while validation as specified (current time at most the parsed
    expiry; a parse error is invalid) refuses it. *)
Theorem validateToken_accepts_unparsable_expiry :
  forall now : Z,
    parseInt "never" = NaN /\
    AuthService.validateToken service now unparsable_expiry_token = true /\
    validateToken_spec service now unparsable_expiry_token = false.
Proof.
  intros now. split; [reflexivity|]. split.
  - apply validateToken_true_iff.
    exists "0", "never", "cfae26f1226e723ed8d128e5f862331c10d5ea5b9cc0d794a688cbc0d0283128".
    repeat split; vm_compute; reflexivity.
  - unfold validateToken_spec.
    replace (split ":" unparsable_expiry_token)
      with ["0"; "never"; "cfae26f1226e723ed8d128e5f862331c10d5ea5b9cc0d794a688cbc0d0283128"]
      by (vm_compute; reflexivity).
    replace (parseInt "never") with NaN by reflexivity.
    cbn [Number_le]. apply andb_false_r.
Qed.

(** The same defect from the inside: a service whose [TOKEN_EXPIRY] did
    not parse issues tokens with the expiry field [NaN], and such a
    token never expires. *)
Lemma generateToken_NaN_never_expires :
  let a := {| AuthService.secret := "s3cret"; AuthService.tokenExpiry := NaN |} in
  let token := fst (AuthService.generateToken a 1700000000000) in
  split ":" token
    = ["1700000000000"; "NaN"; AuthService.createSignature a "1700000000000:NaN"] /\
  forall now, AuthService.validateToken a now token = true.
Proof.
  cbv zeta. split; [vm_compute; reflexivity|].
  intros now. apply validateToken_true_iff.
  eexists _, _, _. split; [vm_compute; reflexivity|]. split; vm_compute; reflexivity.
Qed.

(** A token the service issued is valid until its expiry time and
    invalid after it. *)
Lemma generateToken_valid_until_expiry :
  let token := fst (AuthService.generateToken service 1700000000000) in
  forall now,
    AuthService.validateToken service now token = (now <=? 1700003600000).
Proof.
  cbv zeta. intros now.
  rewrite validateToken_spec_when_expiry_parses.
  - unfold validateToken_spec.
    replace (split ":" (fst (AuthService.generateToken service 1700000000000)))
      with ["1700000000000"; "1700003600000";
            AuthService.createSignature service "1700000000000:1700003600000"]
      by (vm_compute; reflexivity).
    replace (parseInt "1700003600000") with (Int 1700003600000) by (vm_compute; reflexivity).
    replace ("1700000000000" +++ ":" +++ "1700003600000")
      with "1700000000000:1700003600000" by reflexivity.
    rewrite String.eqb_refl. reflexivity.
  - intros t e sg H.
    replace (split ":" (fst (AuthService.generateToken service 1700000000000)))
      with ["1700000000000"; "1700003600000";
            AuthService.createSignature service "1700000000000:1700003600000"] in H
      by (vm_compute; reflexivity).
    pose proof (f_equal (fun l => nth 1 l "") H) as E. cbn [nth] in E.
    subst e. vm_compute. discriminate.
Qed.

(** ** Pseudo-terminal adapter *)

(** C8.  [kill] never throws (it has no exceptional outcome); on a
    handle without a process it changes nothing; when the process's
    [kill] returns, the reference is cleared, [isAlive] is false and
    every later [kill] changes nothing. *)
Theorem kill_idempotent (env : Env) (m : PTYManagerObject) (W : World) :
  (ptyProcess m = None -> PTYManager.kill env m W = (m, W)) /\
  (forall p, ptyProcess m = Some p -> pty_kill_throws env (log W) p = false ->
     let m' := fst (PTYManager.kill env m W) in
     log (snd (PTYManager.kill env m W)) = log W ++ [pty_kill p true] /\
     ptyProcess m' = None /\
     PTYManager.isAlive m' = false /\
     forall W', PTYManager.kill env m' W' = (m', W')).
Proof.
  unfold PTYManager.kill. split.
  - intros ->. reflexivity.
  - intros p -> ->. cbn. repeat split.
Qed.

Lemma kill_idempotent_witness :
  let live := {| ptyProcess := Some 0%nat; sessionId := "5e55" |} in
  let dead := {| ptyProcess := None; sessionId := "5e55" |} in
  PTYManager.kill quiet dead fresh = (dead, fresh) /\
  fst (PTYManager.kill quiet live fresh) = dead /\
  PTYManager.kill quiet (fst (PTYManager.kill quiet live fresh)) fresh = (dead, fresh).
Proof.
  cbv zeta.
  destruct (kill_idempotent quiet {| ptyProcess := None; sessionId := "5e55" |} fresh)
    as [absent _].
  destruct (kill_idempotent quiet {| ptyProcess := Some 0%nat; sessionId := "5e55" |} fresh)
    as [_ alive].
  specialize (absent eq_refl).
  specialize (alive 0%nat eq_refl eq_refl). cbv zeta in alive.
  destruct alive as (_ & _ & _ & again).
  split; [exact absent|]. split; [reflexivity|]. exact (again fresh).
Defined.

(** A [kill] of the process that throws leaves the reference in place,
    and [kill] itself still returns. *)
Lemma kill_failure_keeps_process (env : Env) (m : PTYManagerObject) (W : World) (p : IPty) :
  ptyProcess m = Some p -> pty_kill_throws env (log W) p = true ->
  PTYManager.kill env m W = (m, effect (pty_kill p false) W).
Proof. unfold PTYManager.kill. intros -> ->. reflexivity. Qed.

(** ** Router *)

Import WebSocketHandler.

(** C6.  Routing an INPUT, RESIZE or FILE_UPLOAD message for a session
    that is not authenticated returns the session and the world as they
    were: nothing is written, nothing is sent. *)
Theorem unauthenticated_ignores (env : Env) (ws : WebSocket) (session : SessionState)
  (message : JSValue) (type : string) (W : World) :
  authenticated session = false ->
  prop message "type" = Some (JStr type) ->
  type = MessageType.INPUT \/ type = MessageType.RESIZE \/ type = MessageType.FILE_UPLOAD ->
  routeMessage env ws session message W = Some (session, W).
Proof.
  intros U T K. unfold routeMessage. rewrite T, U.
  destruct message; try discriminate T;
    destruct K as [-> | [-> | ->]]; reflexivity.
Qed.

Lemma unauthenticated_ignores_witness :
  let session := {| pty := PTYManager.new "5e55"; authenticated := false;
                    messageCount := 0; lastMinute := 1000; isAlive := true |} in
  routeMessage quiet 1%nat session
    (JObj [("type", JStr "input"); ("data", JStr "rm -rf /")]) connected
  = Some (session, connected).
Proof.
  cbv zeta.
  apply (unauthenticated_ignores quiet 1%nat _ _ "input" connected);
    [reflexivity | reflexivity | left; reflexivity].
Defined.

(** What [handleAuth] does when [pty.spawn] returns: a new process
    becomes the session's process, whatever the session held before. *)
Lemma handleAuth_spawns (env : Env) (ws : WebSocket) (session : SessionState)
  (token : option JSValue) (W : World) :
  pty_spawn_throws env (log W) = false ->
  let session' := fst (handleAuth env ws session token W) in
  let W' := snd (handleAuth env ws session token W) in
  authenticated session' = true /\
  ptyProcess (pty session') = Some (processes W) /\
  processes W' = S (processes W) /\
  log W' = log W ++ pty_spawn (Some (processes W)) (detectShell env) (os_homedir env) 100 30
                 :: match readyState W ws with
                    | OPEN => [ws_send ws (Ready "sh" (os_homedir env))]
                    | _ => []
                    end.
Proof.
  intros S0. unfold handleAuth, PTYManager.spawn. rewrite S0. cbn.
  unfold send. cbn. destruct (readyState W ws); cbn; repeat split;
    rewrite <- ?app_assoc; reflexivity.
Qed.

(** What [handleAuth] does when [pty.spawn] throws. *)
Lemma handleAuth_spawn_failure (env : Env) (ws : WebSocket) (session : SessionState)
  (token : option JSValue) (W : World) :
  pty_spawn_throws env (log W) = true ->
  let session' := fst (handleAuth env ws session token W) in
  let W' := snd (handleAuth env ws session token W) in
  authenticated session' = true /\
  ptyProcess (pty session') = ptyProcess (pty session) /\
  log W' = log W ++ pty_spawn None (detectShell env) (os_homedir env) 100 30
                 :: match readyState W ws with
                    | OPEN => [ws_send ws (Error "Failed to spawn shell")]
                    | _ => []
                    end ++ [ws_close ws].
Proof.
  intros S0. unfold handleAuth, PTYManager.spawn. rewrite S0. cbn.
  unfold sendError, send, close_ws. cbn.
  destruct (readyState W ws) eqn:R; cbn; rewrite ?R; cbn; repeat split;
    rewrite <- ?app_assoc; reflexivity.
Qed.

(** C10.  The token of an AUTH message is never read: two messages of
    type AUTH, whatever else they carry, are routed to the same result,
    and in that result the session is authenticated and a spawn of the
    shell has been attempted. *)
Theorem auth_token_never_inspected (env : Env) (ws : WebSocket) (session : SessionState)
  (m1 m2 : JSValue) (W : World) :
  prop m1 "type" = Some (JStr MessageType.AUTH) ->
  prop m2 "type" = Some (JStr MessageType.AUTH) ->
  routeMessage env ws session m1 W = routeMessage env ws session m2 W /\
  exists session' W' p rest,
    routeMessage env ws session m1 W = Some (session', W') /\
    authenticated session' = true /\
    log W' = log W ++ pty_spawn p (detectShell env) (os_homedir env) 100 30 :: rest.
Proof.
  intros T1 T2.
  assert (R : forall m, prop m "type" = Some (JStr MessageType.AUTH) ->
              routeMessage env ws session m W
              = Some (handleAuth env ws session (prop m "token") W)).
  { intros m T. unfold routeMessage. rewrite T. destruct m; try discriminate T. reflexivity. }
  split.
  - rewrite (R m1 T1), (R m2 T2). reflexivity.
  - rewrite (R m1 T1).
    destruct (handleAuth env ws session (prop m1 "token") W) as [s' W'] eqn:E.
    destruct (pty_spawn_throws env (log W)) eqn:S0.
    + destruct (handleAuth_spawn_failure env ws session (prop m1 "token") W S0) as (A & _ & L).
      rewrite E in A, L. cbn [fst snd] in A, L. eauto 8.
    + destruct (handleAuth_spawns env ws session (prop m1 "token") W S0) as (A & _ & _ & L).
      rewrite E in A, L. cbn [fst snd] in A, L. eauto 8.
Qed.

Lemma auth_token_never_inspected_witness :
  let session := {| pty := PTYManager.new "5e55"; authenticated := false;
                    messageCount := 0; lastMinute := 1000; isAlive := true |} in
  routeMessage quiet 1%nat session
    (JObj [("type", JStr "auth"); ("token", JStr unparsable_expiry_token)]) connected
  = routeMessage quiet 1%nat session (JObj [("type", JStr "auth")]) connected.
Proof.
  cbv zeta.
  apply (auth_token_never_inspected quiet 1%nat _
           (JObj [("type", JStr "auth"); ("token", JStr unparsable_expiry_token)])
           (JObj [("type", JStr "auth")]) connected); reflexivity.
Defined.

(** C2, at the failing input.  Two AUTH frames on one connection spawn
    two processes; the session keeps the second only, so closing the
    connection kills the second and the first is never killed. *)
Theorem second_AUTH_spawns_second_process :
  let W := run quiet [ (1000, connection 1%nat "5e55");
                       (2000, message 1%nat AUTH_frame false);
                       (3000, message 1%nat AUTH_frame false) ] fresh in
  log W = [ pty_spawn (Some 0%nat) "/bin/sh" "/home/term" 100 30;
            ws_send 1%nat (Ready "sh" "/home/term");
            pty_spawn (Some 1%nat) "/bin/sh" "/home/term" 100 30;
            ws_send 1%nat (Ready "sh" "/home/term") ] /\
  option_map (fun s => ptyProcess (pty s)) (Map_get 1%nat (sessions W)) = Some (Some 1%nat) /\
  map fst (dataHandlers W) = [0%nat; 1%nat] /\
  log (dispatch quiet 4000 (ws_closed 1%nat) W) = log W ++ [pty_kill 1%nat true] /\
  sessions (dispatch quiet 4000 (ws_closed 1%nat) W) = [].
Proof. vm_compute. repeat split. Qed.

(** ** Binary framing *)

(** C3, counterexample.  A frame of 24 bytes whose length field says
    100 is not rejected: the bytes after the field are read as the
    header, a FILE_UPLOAD message with an empty payload is built and
    routed, the file is written and no ERROR is sent. *)
Lemma oversized_header_frame_is_routed :
  readUInt32BE oversized_header_frame = Some 100 /\
  Z.of_nat (List.length oversized_header_frame) = 24 /\
  decode quiet oversized_header_frame true
    = Some (JObj [ ("type", JStr "file-upload"); ("filename", JStr "a.txt");
                   ("data", JBuf []); ("size", JNum 0) ]) /\
  log (handleMessage quiet 1%nat oversized_header_frame true 3000 authenticated_world)
    = log authenticated_world
      ++ [ fs_writeFileSync "/srv/app/a.txt" [] true;
           ws_send 1%nat (Output (upload_complete "a.txt")) ].
Proof. vm_compute. repeat split. Qed.

Lemma subarray_past_end (data : Buffer) (start stop : Z) :
  0 <= start -> Z.of_nat (List.length data) <= stop ->
  subarray data start stop = skipn (Z.to_nat start) data.
Proof.
  intros S E. unfold subarray. apply firstn_all2.
  rewrite length_skipn. lia.
Qed.

Lemma subarray_empty (data : Buffer) (start stop : Z) :
  stop <= start -> subarray data start stop = [].
Proof.
  intros E. unfold subarray.
  replace (Z.to_nat stop - Z.to_nat start)%nat with 0%nat by lia. reflexivity.
Qed.

Lemma readUInt32BE_range (data : Buffer) (n : Z) :
  readUInt32BE data = Some n -> 4 <= Z.of_nat (List.length data).
Proof.
  unfold readUInt32BE. destruct (Z.ltb_spec (Z.of_nat (List.length data)) 4); [discriminate|lia].
Qed.

(** A frame whose length field exceeds its size is decoded with the
    rest of the frame as header and nothing as payload. *)
Lemma decode_oversized_header (env : Env) (data : Buffer) (headerLength : Z) :
  readUInt32BE data = Some headerLength ->
  Z.of_nat (List.length data) < headerLength ->
  decode env data true
  = match JSON_parse env (Buffer_toString env (skipn 4 data)) with
    | Some JNull | None => None
    | Some header => Some (FILE_UPLOAD_message header [])
    end.
Proof.
  intros R L. pose proof (readUInt32BE_range _ _ R) as G.
  unfold decode. rewrite R.
  rewrite subarray_past_end by lia.
  rewrite subarray_empty by lia.
  reflexivity.
Qed.

Lemma routeMessage_FILE_UPLOAD (env : Env) (ws : WebSocket) (session : SessionState)
  (header : JSValue) (fileData : Buffer) (W : World) :
  routeMessage env ws session (FILE_UPLOAD_message header fileData) W
  = Some (session,
          if authenticated session
          then handleFileUpload env ws session (FILE_UPLOAD_message header fileData) W
          else W).
Proof. reflexivity. Qed.

Lemma count_message_keeps (now : Z) (session : SessionState) :
  authenticated (count_message now session) = authenticated session /\
  pty (count_message now session) = pty session /\
  isAlive (count_message now session) = isAlive session.
Proof.
  unfold count_message. destruct (_ >? 0); repeat split.
Qed.

(** C3, as the code has it.  A binary frame whose length field exceeds
    the frame's size is rejected, with the protocol ERROR sent on the
    open socket, nothing built or routed and only the message counted,
    when the bytes after the field are not the JSON text of a value
    other than null; when they are, the frame is routed as a
    FILE_UPLOAD message without payload.  No case throws. *)
Theorem oversized_header_rejected_unless_json (env : Env) (ws : WebSocket)
  (session : SessionState) (data : Buffer) (headerLength now : Z) (W : World) :
  readUInt32BE data = Some headerLength ->
  Z.of_nat (List.length data) < headerLength ->
  Map_get ws (sessions W) = Some session ->
  messageCount (count_message now session) <= rateLimit W ->
  Z.of_nat (List.length data) <= maxMessageSize W ->
  readyState W ws = OPEN ->
  let counted := set_sessions (Map_set ws (count_message now session) (sessions W)) W in
  handleMessage env ws data true now W
  = match JSON_parse env (Buffer_toString env (skipn 4 data)) with
    | Some JNull | None => effect (ws_send ws (Error "Invalid message protocol")) counted
    | Some header =>
        let routed :=
          if authenticated session
          then handleFileUpload env ws (count_message now session)
                 (FILE_UPLOAD_message header []) counted
          else counted in
        set_sessions (Map_set ws (count_message now session) (sessions routed)) routed
    end.
Proof.
  intros R L G C S O counted.
  unfold handleMessage. rewrite G. fold counted.
  replace (rateLimit counted) with (rateLimit W) by reflexivity.
  destruct (Z.gtb_spec (messageCount (count_message now session)) (rateLimit W)); [lia|].
  unfold accept.
  replace (maxMessageSize counted) with (maxMessageSize W) by reflexivity.
  destruct (Z.gtb_spec (Z.of_nat (List.length data)) (maxMessageSize W)); [lia|].
  rewrite (decode_oversized_header env data headerLength R L).
  assert (E : sendError ws "Invalid message protocol" counted
              = effect (ws_send ws (Error "Invalid message protocol")) counted).
  { unfold sendError, send. replace (readyState counted ws) with (readyState W ws) by reflexivity.
    rewrite O. reflexivity. }
  destruct (JSON_parse env (Buffer_toString env (skipn 4 data))) as [header|]; [|exact E].
  destruct (count_message_keeps now session) as (A & _ & _).
  destruct header; try exact E; rewrite routeMessage_FILE_UPLOAD, A; reflexivity.
Qed.

Lemma oversized_header_rejected_unless_json_witness :
  log (handleMessage quiet 1%nat truncated_frame true 3000 authenticated_world)
  = log authenticated_world ++ [ws_send 1%nat (Error "Invalid message protocol")].
Proof.
  rewrite (oversized_header_rejected_unless_json quiet 1%nat
             {| pty := {| ptyProcess := Some 0%nat; sessionId := "5e55" |};
                authenticated := true; messageCount := 1; lastMinute := 1000;
                isAlive := true |}
             truncated_frame 9 3000 authenticated_world);
    [reflexivity | reflexivity | reflexivity | reflexivity
    | vm_compute; discriminate | vm_compute; discriminate | reflexivity].
Defined.

(** ** Upload sandbox *)

Lemma append_assoc (a b c : string) : (a +++ b) +++ c = a +++ b +++ c.
Proof. induction a as [|x a IH]; cbn; [reflexivity | now rewrite IH]. Qed.

Lemma append_nil_r (a : string) : a +++ "" = a.
Proof. induction a as [|x a IH]; cbn; [reflexivity | now rewrite IH]. Qed.

Lemma length_append (a b : string) :
  String.length (a +++ b) = (String.length a + String.length b)%nat.
Proof. induction a as [|x a IH]; cbn; [reflexivity | now rewrite IH]. Qed.


Lemma split_acc_no_separator (a cur : string) :
  no_separator a = true -> split_acc "/" cur a = [cur +++ a].
Proof.
  revert cur. induction a as [|c a IH]; intros cur; cbn.
  - now rewrite append_nil_r.
  - unfold Path.isPosixPathSeparator. destruct (Ascii.eqb c "/"); cbn; [discriminate|].
    intros N. rewrite IH by exact N. now rewrite append_assoc.
Qed.

Lemma split_acc_field (a b cur : string) :
  no_separator a = true ->
  split_acc "/" cur (a +++ "/" +++ b) = (cur +++ a) :: split_acc "/" "" b.
Proof.
  revert cur. induction a as [|c a IH]; intros cur; cbn.
  - now rewrite append_nil_r.
  - unfold Path.isPosixPathSeparator. destruct (Ascii.eqb c "/"); cbn; [discriminate|].
    intros N. rewrite IH by exact N. now rewrite append_assoc.
Qed.

(** Splitting what [join] put together gives the segments back. *)
Lemma split_join (segs : list string) :
  segs <> [] -> Forall (fun s => no_separator s = true) segs ->
  split "/" (Path.join segs) = segs.
Proof.
  unfold split. induction segs as [|a [|b r] IH]; intros NE F.
  - contradiction.
  - cbn. pose proof (Forall_inv F) as Ha. cbn beta in Ha.
    now rewrite split_acc_no_separator.
  - pose proof (Forall_inv F) as Ha. cbn beta in Ha.
    change (Path.join (a :: b :: r)) with (a +++ "/" +++ Path.join (b :: r)).
    rewrite split_acc_field by exact Ha. cbn [String.append].
    f_equal. apply IH; [discriminate | exact (Forall_inv_tail F)].
Qed.

Lemma join_app (a b : list string) :
  a <> [] -> b <> [] -> Path.join (a ++ b) = Path.join a +++ "/" +++ Path.join b.
Proof.
  induction a as [|x [|y r] IH]; intros NA NB.
  - contradiction.
  - destruct b; [contradiction | reflexivity].
  - change (Path.join ((x :: y :: r) ++ b)) with (x +++ "/" +++ Path.join ((y :: r) ++ b)).
    rewrite IH by (assumption || discriminate).
    change (Path.join (x :: y :: r)) with (x +++ "/" +++ Path.join (y :: r)).
    now rewrite !append_assoc.
Qed.

Lemma component_spec (s : string) :
  component s = true ->
  no_separator s = true /\ s <> "" /\ s <> "." /\ s <> "..".
Proof.
  unfold component. rewrite !andb_true_iff, !negb_true_iff, !String.eqb_neq. tauto.
Qed.

Lemma normalizeSegment_component (allow : bool) (res : list string) (seg : string) :
  component seg = true -> Path.normalizeSegment allow res seg = seg :: res.
Proof.
  intros C. apply component_spec in C. destruct C as (_ & E & D & DD).
  unfold Path.normalizeSegment.
  apply String.eqb_neq in E, D, DD. now rewrite E, D, DD.
Qed.

Lemma normalize_components (segs res : list string) :
  Forall (fun s => component s = true) segs ->
  fold_left (Path.normalizeSegment false) segs res = rev segs ++ res.
Proof.
  revert res. induction segs as [|a r IH]; intros res F; [reflexivity|].
  pose proof (Forall_inv F) as Ha. cbn beta in Ha. cbn [fold_left rev].
  rewrite normalizeSegment_component by exact Ha.
  rewrite IH by exact (Forall_inv_tail F). now rewrite <- app_assoc.
Qed.

Lemma front_nonempty (segs : list string) : front segs <> [].
Proof. destruct segs; discriminate. Qed.

Lemma directory_front (segs : list string) : directory segs = Path.join (front segs).
Proof. destruct segs; reflexivity. Qed.

Lemma front_no_separator (segs : list string) :
  Forall (fun s => component s = true) segs ->
  Forall (fun s => no_separator s = true) (front segs).
Proof.
  intros F.
  assert (G : Forall (fun s => no_separator s = true) segs).
  { eapply Forall_impl; [|exact F]. intros s C. now apply component_spec in C. }
  destruct segs; cbn; repeat constructor;
    [exact (Forall_inv G) | exact (Forall_inv_tail G)].
Qed.

Lemma normalize_front (segs tail : list string) :
  Forall (fun s => component s = true) segs ->
  fold_left (Path.normalizeSegment false) (front segs ++ tail) []
  = fold_left (Path.normalizeSegment false) tail (rev segs).
Proof.
  intros F. rewrite fold_left_app. f_equal.
  destruct segs as [|a r]; [reflexivity|].
  change (fold_left (Path.normalizeSegment false) (front (a :: r)) [])
    with (fold_left (Path.normalizeSegment false) (a :: r) []).
  rewrite normalize_components by exact F. apply app_nil_r.
Qed.

(** [path.resolve(cwd, name)] for a name without separator, by what is
    left of the name after normalization. *)
Lemma resolve_in_directory (segs : list string) (name : string) :
  Forall (fun s => component s = true) segs ->
  no_separator name = true ->
  Path.resolve (directory segs) [directory segs; name]
  = "/" +++ Path.join (rev (fold_left (Path.normalizeSegment false) [name] (rev segs))).
Proof.
  intros F N. unfold Path.resolve. cbn [rev app Path.resolve_loop].
  assert (A : Path.isAbsolute (directory segs) = true) by reflexivity.
  assert (L : (String.length (directory segs) =? 0)%nat = false) by reflexivity.
  destruct name as [|c name'] eqn:E.
  - cbn [String.length Nat.eqb]. rewrite L, A. cbn [negb].
    unfold Path.normalizeString.
    rewrite directory_front.
    replace (Path.join (front segs) +++ "/" +++ "")
      with (Path.join (front segs ++ [""]))
      by (rewrite join_app; [reflexivity | apply front_nonempty | discriminate]).
    rewrite split_join;
      [| intros Z; apply app_eq_nil in Z; destruct Z; discriminate
       | apply Forall_app; split; [now apply front_no_separator | repeat constructor]].
    rewrite normalize_front by assumption. reflexivity.
  - assert (R : Path.isPosixPathSeparator c = false).
    { cbn in N. destruct (Path.isPosixPathSeparator c); [discriminate|reflexivity]. }
    cbn [String.length Nat.eqb Path.isAbsolute]. rewrite <- E in N |- *.
    rewrite R, L, A. cbn [negb].
    unfold Path.normalizeString.
    rewrite directory_front.
    replace (Path.join (front segs) +++ "/" +++ name +++ "/" +++ "")
      with (Path.join (front segs ++ [name; ""]))
      by (rewrite join_app; [reflexivity | apply front_nonempty | discriminate]).
    rewrite split_join;
      [| intros Z; apply app_eq_nil in Z; destruct Z; discriminate
       | apply Forall_app; split; [now apply front_no_separator | repeat constructor; assumption]].
    rewrite normalize_front by assumption. reflexivity.
Qed.





Lemma prefix_append (p x : string) : String.prefix p (p +++ x) = true.
Proof.
  induction p as [|c p IH]; cbn; [now destruct x|].
  destruct (Ascii.ascii_dec c c); [exact IH | contradiction].
Qed.

(** The target of an upload: below the working directory for the name
    of an entry, the working directory itself for an empty name or [.],
    its parent for [..]. *)
Lemma resolve_component (segs : list string) (name : string) :
  Forall (fun s => component s = true) segs -> component name = true ->
  Path.resolve (directory segs) [directory segs; name] = directory (segs ++ [name]) /\
  startsWith (directory (segs ++ [name])) (directory segs) = true.
Proof.
  intros F C. pose proof (component_spec _ C) as (N & _).
  rewrite resolve_in_directory by assumption. cbn [fold_left].
  rewrite normalizeSegment_component by assumption.
  cbn [rev]. rewrite rev_involutive. split; [reflexivity|].
  unfold startsWith, directory. destruct segs as [|a r].
  - cbn [app Path.join]. apply (prefix_append "/" name).
  - rewrite join_app by discriminate. rewrite <- append_assoc. apply prefix_append.
Qed.






Lemma send_effects (ws : WebSocket) (f : Frame) (W : World) :
  sessions (send ws f W) = sessions W /\
  readyState (send ws f W) = readyState W /\
  log (send ws f W) = log W ++ match readyState W ws with
                               | OPEN => [ws_send ws f]
                               | _ => []
                               end.
Proof.
  unfold send. destruct (readyState W ws); cbn; rewrite ?app_nil_r; auto.
Qed.






(** ** Registry and rate limit *)

Lemma Map_get_set_eq {V : Type} (k : nat) (v : V) (m : list (nat * V)) :
  Map_get k (Map_set k v m) = Some v.
Proof.
  induction m as [|[k' v'] m IH]; cbn.
  - now rewrite Nat.eqb_refl.
  - destruct (Nat.eqb k k') eqn:E; cbn; [now rewrite Nat.eqb_refl | now rewrite E].
Qed.

Lemma Map_get_set_neq {V : Type} (k k' : nat) (v : V) (m : list (nat * V)) :
  k <> k' -> Map_get k (Map_set k' v m) = Map_get k m.
Proof.
  intros N. apply Nat.eqb_neq in N.
  induction m as [|[k0 v0] m IH]; cbn.
  - now rewrite N.
  - destruct (Nat.eqb k' k0) eqn:E; cbn.
    + apply Nat.eqb_eq in E. subst k0. now rewrite N.
    + now rewrite IH.
Qed.

Lemma Map_get_delete_neq {V : Type} (k k' : nat) (m : list (nat * V)) :
  k <> k' -> Map_get k (Map_delete k' m) = Map_get k m.
Proof.
  intros N. apply Nat.eqb_neq in N.
  induction m as [|[k0 v0] m IH]; cbn; [reflexivity|].
  destruct (Nat.eqb k' k0) eqn:E; cbn.
  - apply Nat.eqb_eq in E. subst k0. now rewrite N.
  - now rewrite IH.
Qed.

(** Case analysis on every [match] of the goal, for the handlers that
    leave a part of the world alone. *)
Ltac cases :=
  repeat match goal with
         | |- context [match ?x with _ => _ end] => destruct x eqn:?; cbn
         | |- context [if ?x then _ else _] => destruct x eqn:?; cbn
         end.

Section Registry.
Variable env : Env.

Lemma send_registry ws f W : registry (send ws f W) = registry W.
Proof. unfold send. cases; reflexivity. Qed.

Lemma close_ws_registry ws W : registry (close_ws ws W) = registry W.
Proof. unfold close_ws. cbn. cases; reflexivity. Qed.

Lemma terminate_ws_registry ws W : registry (terminate_ws ws W) = registry W.
Proof. unfold terminate_ws. cbn. cases; reflexivity. Qed.

Lemma flush_registry p W : registry (flush p W) = registry W.
Proof.
  unfold flush. cases; try reflexivity.
  unfold store. cbn. unfold registry. cbn. apply send_registry.
Qed.

Lemma onData_callback_registry p data now W :
  registry (onData_callback p data now W) = registry W.
Proof.
  unfold onData_callback. cases; try reflexivity; rewrite flush_registry; reflexivity.
Qed.

Lemma onExit_callback_registry p W : registry (onExit_callback p W) = registry W.
Proof. unfold onExit_callback. cases; [apply close_ws_registry | reflexivity]. Qed.

Lemma handleAuth_registry ws session token W :
  registry (snd (handleAuth env ws session token W)) = registry W /\
  messageCount (fst (handleAuth env ws session token W)) = messageCount session /\
  lastMinute (fst (handleAuth env ws session token W)) = lastMinute session.
Proof.
  unfold handleAuth, PTYManager.spawn.
  destruct (pty_spawn_throws env (log W)); cbn; unfold sendError;
    rewrite ?close_ws_registry, ?send_registry; repeat split.
Qed.

Lemma handleInput_registry session data W :
  registry (handleInput env session data W) = registry W.
Proof. unfold handleInput, PTYManager.write. cases; reflexivity. Qed.

Lemma handleResize_registry session message W :
  registry (handleResize env session message W) = registry W.
Proof. unfold handleResize, PTYManager.resize. cases; reflexivity. Qed.

Lemma handleFileUpload_registry ws session message W :
  registry (handleFileUpload env ws session message W) = registry W.
Proof.
  unfold handleFileUpload, sendError. cases; rewrite ?send_registry; reflexivity.
Qed.

Lemma routeMessage_registry ws session message W session' W' :
  routeMessage env ws session message W = Some (session', W') ->
  registry W' = registry W /\
  messageCount session' = messageCount session /\
  lastMinute session' = lastMinute session.
Proof.
  unfold routeMessage. intros R.
  assert (K : forall t, (if String.eqb t MessageType.AUTH
                         then Some (handleAuth env ws session (prop message "token") W)
                         else if String.eqb t MessageType.INPUT then
                           Some (session, if authenticated session
                                          then handleInput env session (prop message "data") W
                                          else W)
                         else if String.eqb t MessageType.RESIZE then
                           Some (session, if authenticated session
                                          then handleResize env session message W else W)
                         else if String.eqb t MessageType.FILE_UPLOAD then
                           Some (session, if authenticated session
                                          then handleFileUpload env ws session message W
                                          else W)
                         else Some (session, W)) = Some (session', W') ->
              registry W' = registry W /\
              messageCount session' = messageCount session /\
              lastMinute session' = lastMinute session).
  { intros t. destruct (String.eqb t MessageType.AUTH).
    - intros H. injection H as H.
      pose proof (handleAuth_registry ws session (prop message "token") W) as P.
      rewrite H in P. exact P.
    - destruct (String.eqb t MessageType.INPUT);
        [|destruct (String.eqb t MessageType.RESIZE);
          [|destruct (String.eqb t MessageType.FILE_UPLOAD)]];
        intros H; injection H as <- <-; destruct (authenticated session);
        rewrite ?handleInput_registry, ?handleResize_registry, ?handleFileUpload_registry;
        auto. }
  destruct message; try discriminate R;
    destruct (prop _ "type") as [[| | |t| | |]|];
    try (injection R as <- <-; auto); apply (K t); exact R.
Qed.

(** A message of the socket [ws] is counted in its session and leaves
    the session registered, whatever becomes of the message. *)
Lemma handleMessage_counts ws data isBinary now W session :
  Map_get ws (sessions W) = Some session ->
  exists session',
    Map_get ws (sessions (handleMessage env ws data isBinary now W)) = Some session' /\
    messageCount session' = messageCount (count_message now session) /\
    lastMinute session' = lastMinute (count_message now session) /\
    rateLimit (handleMessage env ws data isBinary now W) = rateLimit W.
Proof.
  intros G. unfold handleMessage. rewrite G.
  set (counted := set_sessions (Map_set ws (count_message now session) (sessions W)) W).
  assert (C : Map_get ws (sessions counted) = Some (count_message now session))
    by apply Map_get_set_eq.
  assert (E : forall msg, exists session',
             Map_get ws (sessions (sendError ws msg counted)) = Some session' /\
             messageCount session' = messageCount (count_message now session) /\
             lastMinute session' = lastMinute (count_message now session) /\
             rateLimit (sendError ws msg counted) = rateLimit W).
  { intros msg. exists (count_message now session). unfold sendError.
    pose proof (send_registry ws (Error msg) counted) as P. unfold registry in P.
    injection P as -> -> _. auto. }
  destruct (messageCount (count_message now session) >? rateLimit counted); [apply E|].
  unfold accept.
  destruct (Z.of_nat (List.length data) >? maxMessageSize counted); [apply E|].
  destruct (decode env data isBinary) as [message|]; [|apply E].
  destruct (routeMessage env ws (count_message now session) message counted)
    as [[s' W']|] eqn:R; [|apply E].
  apply routeMessage_registry in R. destruct R as (P & M & L).
  unfold registry in P. injection P as P1 P2 _.
  exists s'. cbn. rewrite Map_get_set_eq. auto.
Qed.

(** A message of another socket does not touch the session of [ws]. *)
Lemma handleMessage_other ws ws' data isBinary now W :
  ws <> ws' ->
  Map_get ws (sessions (handleMessage env ws' data isBinary now W)) = Map_get ws (sessions W) /\
  rateLimit (handleMessage env ws' data isBinary now W) = rateLimit W.
Proof.
  intros N. unfold handleMessage.
  destruct (Map_get ws' (sessions W)) as [session|]; [|auto].
  set (counted := set_sessions (Map_set ws' (count_message now session) (sessions W)) W).
  assert (C : Map_get ws (sessions counted) = Map_get ws (sessions W))
    by (apply Map_get_set_neq; exact N).
  assert (E : forall msg,
             Map_get ws (sessions (sendError ws' msg counted)) = Map_get ws (sessions W) /\
             rateLimit (sendError ws' msg counted) = rateLimit W).
  { intros msg. unfold sendError.
    pose proof (send_registry ws' (Error msg) counted) as P. unfold registry in P.
    injection P as -> -> _. auto. }
  destruct (messageCount (count_message now session) >? rateLimit counted); [apply E|].
  unfold accept.
  destruct (Z.of_nat (List.length data) >? maxMessageSize counted); [apply E|].
  destruct (decode env data isBinary) as [message|]; [|apply E].
  destruct (routeMessage env ws' (count_message now session) message counted)
    as [[s' W']|] eqn:R; [|apply E].
  apply routeMessage_registry in R. destruct R as (P & _ & _).
  unfold registry in P. injection P as P1 P2 _.
  cbn. rewrite Map_get_set_neq by exact N. rewrite P1, P2. auto.
Qed.

Lemma count_message_fields now session :
  messageCount (count_message now session)
    = (if (now - lastMinute session) / 60000 >? 0 then 0 else messageCount session) + 1 /\
  lastMinute (count_message now session)
    = (if (now - lastMinute session) / 60000 >? 0 then now else lastMinute session).
Proof. unfold count_message. destruct (_ >? 0); split; reflexivity. Qed.

Lemma minutesPassed_positive (now last : Z) :
  ((now - last) / 60000 >? 0) = (60000 <=? now - last).
Proof.
  destruct (Z.leb_spec 60000 (now - last)) as [H|H].
  - apply Z.gtb_lt. apply Z.div_str_pos. lia.
  - destruct (Z.gtb_spec ((now - last) / 60000) 0) as [G|G]; [|reflexivity].
    exfalso.
    assert ((now - last) / 60000 < 1) by (apply Z.div_lt_upper_bound; lia). lia.
Qed.

Lemma pong_rate ws ws' W :
  rate ws (pong ws' W) = rate ws W /\ rateLimit (pong ws' W) = rateLimit W.
Proof.
  unfold pong, rate. destruct (Map_get ws' (sessions W)) as [s|] eqn:G; [|auto].
  cbn. destruct (Nat.eq_dec ws ws') as [->|N].
  - rewrite Map_get_set_eq, G. auto.
  - rewrite Map_get_set_neq by exact N. auto.
Qed.

Lemma heartbeat_entry_rate ws W k :
  rate ws (heartbeat_entry W k) = rate ws W /\
  rateLimit (heartbeat_entry W k) = rateLimit W.
Proof.
  unfold heartbeat_entry, rate.
  destruct (Map_get k (sessions W)) as [s|] eqn:G; [|auto].
  destruct (negb (isAlive s)).
  - pose proof (terminate_ws_registry k W) as P. unfold registry in P.
    injection P as -> -> _. auto.
  - cbn. destruct (Nat.eq_dec ws k) as [->|N].
    + rewrite Map_get_set_eq, G. auto.
    + rewrite Map_get_set_neq by exact N. auto.
Qed.

Lemma heartbeat_rate ws W :
  rate ws (heartbeat W) = rate ws W /\ rateLimit (heartbeat W) = rateLimit W.
Proof.
  unfold heartbeat. generalize (map fst (sessions W)) as keys.
  intros keys. revert W. induction keys as [|k keys IH]; intros W; [auto|].
  cbn [fold_left]. destruct (IH (heartbeat_entry W k)) as (R & L).
  destruct (heartbeat_entry_rate ws W k) as (R' & L'). rewrite R, L. auto.
Qed.

Lemma timeout_registry now id W :
  registry (dispatch env now (timeout id) W) = registry W.
Proof.
  cbn. destruct (Map_get id (timers W)) as [[due p]|]; [|reflexivity].
  rewrite flush_registry. reflexivity.
Qed.

Lemma advance_registry now W : registry (advance env now W) = registry W.
Proof.
  unfold advance. generalize (timers W) as ts. intros ts. revert W.
  induction ts as [|t ts IH]; intros W; [reflexivity|].
  cbn [fold_left]. rewrite IH.
  destruct (fst (snd t) <=? now); [apply timeout_registry | reflexivity].
Qed.

Lemma registry_rate ws W W' :
  registry W' = registry W -> rate ws W' = rate ws W /\ rateLimit W' = rateLimit W.
Proof. unfold registry, rate. intros P. injection P as -> -> _. auto. Qed.

Lemma handleClose_other ws w W :
  ws <> w ->
  rate ws (handleClose env w W) = rate ws W /\
  rateLimit (handleClose env w W) = rateLimit W.
Proof.
  intros N. unfold handleClose, rate.
  destruct (Map_get w (sessions W)) as [s|]; [|auto].
  unfold PTYManager.kill.
  destruct (ptyProcess (pty s)); [destruct (pty_kill_throws env _ _)|]; cbn;
    rewrite Map_get_delete_neq by exact N; auto.
Qed.

(** One event that is not a registration of [ws]: a message of [ws] is
    counted, everything else leaves its rate window alone. *)
Lemma dispatch_rate ws now e W count last :
  rate ws W = Some (count, last) ->
  registration ws e = false ->
  rate ws (dispatch env now e W)
    = Some (if message_of ws e
            then ((if 60000 <=? now - last then 0 else count) + 1,
                  if 60000 <=? now - last then now else last)
            else (count, last)) /\
  rateLimit (dispatch env now e W) = rateLimit W.
Proof.
  intros R N.
  destruct e as [w sid | w data isBinary | w | w | w | p data | p | id | ];
    cbn [registration message_of] in *.
  - (* connection *)
    apply Nat.eqb_neq in N. cbn. unfold handleConnection, rate in *. cbn.
    rewrite Map_get_set_neq by auto. auto.
  - (* message *)
    cbn [dispatch]. destruct (Nat.eqb w ws) eqn:E.
    + apply Nat.eqb_eq in E. subst w. unfold rate in *.
      destruct (Map_get ws (sessions W)) as [s|] eqn:G; [|discriminate R].
      cbn in R. injection R as <- <-.
      destruct (handleMessage_counts ws data isBinary now W s G) as (s' & G' & C & L & RL).
      rewrite G'. cbn.
      destruct (count_message_fields now s) as (C' & L').
      rewrite minutesPassed_positive in C', L'. rewrite C, L, C', L'. auto.
    + apply Nat.eqb_neq in E. unfold rate.
      destruct (handleMessage_other ws w data isBinary now W) as (G & RL); [auto|].
      rewrite G. auto.
  - rewrite <- R. apply pong_rate.
  - (* close of another socket *)
    apply Nat.eqb_neq in N. cbn [dispatch]. rewrite <- R.
    apply (handleClose_other ws w
             (set_readyState (fun w0 => if Nat.eqb w0 w then CLOSED else readyState W w0) W)).
    auto.
  - (* error of another socket *)
    apply Nat.eqb_neq in N. cbn [dispatch]. rewrite <- R.
    apply handleClose_other. auto.
  - rewrite <- R. apply registry_rate, onData_callback_registry.
  - rewrite <- R. apply registry_rate, onExit_callback_registry.
  - rewrite <- R. apply registry_rate, timeout_registry.
  - rewrite <- R. apply heartbeat_rate.
Qed.

Lemma messages_of_cons ws t e events :
  messages_of ws ((t, e) :: events)
  = (if message_of ws e then 1 else 0) + messages_of ws events.
Proof.
  unfold messages_of. cbn [filter snd]. destruct (message_of ws e); cbn [List.length]; lia.
Qed.

(** The events of one window: the messages of [ws] are counted one by
    one and the window keeps its start. *)
Lemma run_rate ws t0 events W count :
  rate ws W = Some (count, t0) ->
  forallb (in_window ws t0) events = true ->
  rate ws (run env events W) = Some (count + messages_of ws events, t0) /\
  rateLimit (run env events W) = rateLimit W.
Proof.
  revert W count. induction events as [|[t e] events IH]; intros W count R F.
  - cbn. rewrite R. unfold messages_of. cbn. rewrite Z.add_0_r. auto.
  - cbn [forallb] in F. apply andb_true_iff in F. destruct F as [Fe F].
    unfold in_window in Fe. cbn [fst snd] in Fe.
    apply andb_true_iff in Fe. destruct Fe as [Nr Wd].
    apply negb_true_iff in Nr.
    cbn [run].
    destruct (registry_rate ws _ _ (advance_registry t W)) as (Ra & La).
    rewrite R in Ra.
    destruct (dispatch_rate ws t e (advance env t W) count t0 Ra Nr) as (Rd & Ld).
    rewrite messages_of_cons.
    destruct (message_of ws e).
    + cbn [negb orb] in Wd. apply Z.ltb_lt in Wd.
      destruct (Z.leb_spec 60000 (t - t0)); [lia|].
      destruct (IH _ _ Rd F) as (Ri & Li).
      rewrite Ri, Li, Ld, La. split; [f_equal; f_equal; lia | reflexivity].
    + destruct (IH _ _ Rd F) as (Ri & Li).
      rewrite Ri, Li, Ld, La. split; [f_equal; f_equal; lia | reflexivity].
Qed.

End Registry.

(** C7, counterexample.  With two messages a minute admitted and the
    window started at 1000, the third message is refused at 60999 but
    handled at 61000, when exactly one minute, and no more, has passed:
    the window restarts there and the input reaches the shell. *)
Lemma message_a_minute_after_the_start_is_handled :
  let Wk := run quiet [ (1500, message 1%nat AUTH_frame false);
                        (2000, message 1%nat INPUT_frame false) ] strict in
  rate 1%nat Wk = Some (2, 1000) /\ rateLimit Wk = 2 /\
  log (handleMessage quiet 1%nat INPUT_frame false 60999 Wk)
  = log Wk ++ [ws_send 1%nat (Error "Rate limit exceeded")] /\
  log (handleMessage quiet 1%nat INPUT_frame false 61000 Wk)
  = log Wk ++ [pty_write 0%nat (Some (JStr "ls")) true] /\
  rate 1%nat (handleMessage quiet 1%nat INPUT_frame false 61000 Wk) = Some (1, 61000).
Proof. vm_compute. repeat split. Qed.

(** C7, as the code has it.  Let the window of the session of [ws] have
    started at [t0] and have counted [c] messages (none after the
    connection, one after the message that restarted it), and let
    events follow during which the session stays registered and its
    messages arrive less than a minute after [t0]; with those the
    window has counted [k] messages.  A further message of [ws] in the
    window is processed when it is at most the [rateLimit]-th: it is
    counted, refused with 'Message too large' when over the size limit,
    and otherwise decoded and routed, the session that routing returns
    being stored, with 'Invalid message protocol' when decoding or
    routing throws.  Beyond the [rateLimit]-th it only gets the ERROR
    reply on its open socket: it is counted, not decoded or routed, and
    the session stays registered with its socket as it was.  A message
    that arrives a minute or more after [t0], exactly a minute
    included, restarts the window at its own time with the count at
    one, and is processed in the same way when [rateLimit] admits one
    message. *)
Theorem rate_limit_window (env : Env) (ws : WebSocket) (c t0 : Z)
  (events : list (Z * Event)) (W : World) (now : Z) (data : Buffer) (isBinary : bool) :
  rate ws W = Some (c, t0) ->
  forallb (in_window ws t0) events = true ->
  let k := c + messages_of ws events in
  let Wk := advance env now (run env events W) in
  exists session,
    Map_get ws (sessions Wk) = Some session /\
    messageCount session = k /\ lastMinute session = t0 /\
    let counted := set_sessions (Map_set ws (count_message now session) (sessions Wk)) Wk in
    let after := handleMessage env ws data isBinary now Wk in
    let processed :=
      if Z.of_nat (List.length data) >? maxMessageSize Wk
      then sendError ws "Message too large" counted
      else
        match decode env data isBinary with
        | Some m =>
            match routeMessage env ws (count_message now session) m counted with
            | Some (session', W') => set_sessions (Map_set ws session' (sessions W')) W'
            | None => sendError ws "Invalid message protocol" counted
            end
        | None => sendError ws "Invalid message protocol" counted
        end in
    (now - t0 < 60000 -> k + 1 <= rateLimit W ->
       messageCount (count_message now session) = k + 1 /\
       lastMinute (count_message now session) = t0 /\
       after = processed) /\
    (now - t0 < 60000 -> rateLimit W < k + 1 -> readyState Wk ws = OPEN ->
       messageCount (count_message now session) = k + 1 /\
       log after = log Wk ++ [ws_send ws (Error "Rate limit exceeded")] /\
       sessions after = sessions counted /\
       Map_get ws (sessions after) = Some (count_message now session) /\
       readyState after = readyState Wk /\
       processes after = processes Wk /\
       dataHandlers after = dataHandlers Wk) /\
    (60000 <= now - t0 ->
       messageCount (count_message now session) = 1 /\
       lastMinute (count_message now session) = now /\
       (1 <= rateLimit W -> after = processed)).
Proof.
  intros R F k Wk.
  destruct (run_rate env ws t0 events W c R F) as (Rr & Lr).
  destruct (registry_rate ws _ _ (advance_registry env now (run env events W))) as (Ra & La).
  fold Wk in Ra, La. rewrite Rr in Ra. rewrite Lr in La.
  unfold rate in Ra.
  destruct (Map_get ws (sessions Wk)) as [session|] eqn:G; [|discriminate Ra].
  cbn [option_map] in Ra. injection Ra as C L. fold k in C.
  exists session. split; [reflexivity|]. split; [exact C|]. split; [exact L|].
  intros counted after processed.
  destruct (count_message_fields now session) as (Cf & Lf).
  rewrite minutesPassed_positive, L in Cf, Lf. rewrite C in Cf.
  assert (A : after = if messageCount (count_message now session) >? rateLimit W
                      then sendError ws "Rate limit exceeded" counted
                      else processed).
  { unfold after, handleMessage. rewrite G. fold counted.
    replace (rateLimit counted) with (rateLimit Wk) by reflexivity. rewrite La.
    destruct (_ >? rateLimit W); reflexivity. }
  split; [|split].
  - intros Wd Ok. destruct (Z.leb_spec 60000 (now - t0)); [lia|].
    split; [exact Cf|]. split; [exact Lf|]. rewrite A, Cf.
    destruct (Z.gtb_spec (k + 1) (rateLimit W)); [lia | reflexivity].
  - intros Wd Over O. destruct (Z.leb_spec 60000 (now - t0)); [lia|].
    split; [exact Cf|]. rewrite A, Cf.
    destruct (Z.gtb_spec (k + 1) (rateLimit W)); [|lia].
    unfold sendError. destruct (send_effects ws (Error "Rate limit exceeded") counted)
      as (S1 & S2 & S3).
    rewrite S1, S2, S3.
    replace (readyState counted ws) with (readyState Wk ws) by reflexivity. rewrite O.
    repeat split.
    + apply Map_get_set_eq.
    + unfold send. replace (readyState counted ws) with (readyState Wk ws) by reflexivity.
      now rewrite O.
    + unfold send. replace (readyState counted ws) with (readyState Wk ws) by reflexivity.
      now rewrite O.
  - intros Late. destruct (Z.leb_spec 60000 (now - t0)); [|lia].
    split; [exact Cf|]. split; [exact Lf|].
    intros One. rewrite A, Cf.
    destruct (Z.gtb_spec (0 + 1) (rateLimit W)); [lia | reflexivity].
Qed.

Lemma rate_limit_window_witness :
  let Wk := advance quiet 3000
              (run quiet [ (1500, message 1%nat AUTH_frame false);
                           (2000, message 1%nat INPUT_frame false) ] strict) in
  log (handleMessage quiet 1%nat INPUT_frame false 3000 Wk)
  = log Wk ++ [ws_send 1%nat (Error "Rate limit exceeded")].
Proof.
  cbv zeta.
  destruct (rate_limit_window quiet 1%nat 0 1000
              [ (1500, message 1%nat AUTH_frame false);
                (2000, message 1%nat INPUT_frame false) ]
              strict 3000 INPUT_frame false)
    as (session & _ & _ & _ & _ & over & _).
  - reflexivity.
  - reflexivity.
  - destruct over as (_ & L & _).
    + vm_compute. reflexivity.
    + vm_compute. reflexivity.
    + reflexivity.
    + exact L.
Defined.

(** ** Heartbeat *)

Lemma Map_get_app_fresh {V : Type} (k : nat) (pre l : list (nat * V)) :
  ~ In k (map fst pre) -> Map_get k (pre ++ l) = Map_get k l.
Proof.
  induction pre as [|[k' v'] pre IH]; cbn; intros N; [reflexivity|].
  destruct (Nat.eqb_spec k k') as [->|D]; [tauto | apply IH; tauto].
Qed.

Lemma Map_set_app_fresh {V : Type} (k : nat) (v : V) (pre l : list (nat * V)) :
  ~ In k (map fst pre) -> Map_set k v (pre ++ l) = pre ++ Map_set k v l.
Proof.
  induction pre as [|[k' v'] pre IH]; cbn; intros N; [reflexivity|].
  destruct (Nat.eqb_spec k k') as [->|D]; [tauto | f_equal; apply IH; tauto].
Qed.



Lemma Map_get_In {V : Type} (k : nat) (v : V) (m : list (nat * V)) :
  Map_get k m = Some v -> In (k, v) m.
Proof.
  induction m as [|[k' v'] m IH]; cbn; [discriminate|].
  destruct (Nat.eqb_spec k k') as [->|D]; [intros H; injection H as ->; auto | auto].
Qed.

Lemma flagged_dead (entry : WebSocket * SessionState) :
  isAlive (snd entry) = false -> flagged entry = entry.
Proof. destruct entry as [k [m a c l b]]. cbn. intros ->. reflexivity. Qed.

(** The entries of a tick one after the other. *)
Lemma heartbeat_fold (l pre : list (WebSocket * SessionState)) (W : World) :
  sessions W = pre ++ l ->
  NoDup (map fst (pre ++ l)) ->
  let W' := fold_left heartbeat_entry (map fst l) W in
  sessions W' = pre ++ map flagged l /\
  log W' = log W ++ map probe l /\
  processes W' = processes W /\
  rateLimit W' = rateLimit W.
Proof.
  revert pre W. induction l as [|[k s] l IH]; intros pre W S N; cbn zeta.
  - cbn. rewrite S, !app_nil_r. auto.
  - assert (Fk : ~ In k (map fst pre)).
    { rewrite map_app in N. apply NoDup_remove_2 in N. rewrite in_app_iff in N. tauto. }
    assert (E : heartbeat_entry W k
                = if isAlive s
                  then ping_ws k (set_sessions (pre ++ (k, with_isAlive false s) :: l) W)
                  else terminate_ws k W).
    { unfold heartbeat_entry. rewrite S, Map_get_app_fresh by exact Fk.
      cbn [Map_get]. rewrite Nat.eqb_refl.
      destruct (isAlive s); cbn [negb]; [|reflexivity].
      rewrite Map_set_app_fresh by exact Fk. cbn [Map_set]. now rewrite Nat.eqb_refl. }
    cbn [map fst fold_left]. rewrite E. clear E.
    destruct (isAlive s) eqn:A.
    + (* a probe *)
      destruct (IH (pre ++ [(k, with_isAlive false s)])
                  (ping_ws k (set_sessions (pre ++ (k, with_isAlive false s) :: l) W)))
        as (S' & L' & P' & R').
      * cbn. now rewrite <- app_assoc.
      * rewrite <- app_assoc. cbn. rewrite !map_app in *. exact N.
      * cbv zeta in S', L', P', R'. rewrite S', L', P', R'. cbn.
        unfold probe at 2. cbn. rewrite A. rewrite <- !app_assoc. auto.
    + (* the socket is terminated *)
      assert (T : terminate_ws k W
                  = set_readyState (readyState (terminate_ws k W)) (effect (ws_terminate k) W)).
      { unfold terminate_ws. cbn. destruct (readyState W k); reflexivity. }
      destruct (IH (pre ++ [(k, s)]) (terminate_ws k W)) as (S' & L' & P' & R').
      * rewrite T. cbn. rewrite S. now rewrite <- app_assoc.
      * rewrite <- app_assoc. exact N.
      * cbv zeta in S', L', P', R'. rewrite S', L', P', R'. rewrite T. cbn.
        unfold probe at 2. cbn. rewrite A.
        rewrite (flagged_dead (k, s) A). rewrite <- !app_assoc. auto.
Qed.

(** One tick: every entry is probed or terminated by its flag, and
    every flag is false afterwards. *)
Lemma heartbeat_tick (W : World) :
  NoDup (map fst (sessions W)) ->
  sessions (heartbeat W) = map flagged (sessions W) /\
  log (heartbeat W) = log W ++ map probe (sessions W) /\
  processes (heartbeat W) = processes W.
Proof.
  intros N. destruct (heartbeat_fold (sessions W) [] W eq_refl N) as (S & L & P & _).
  auto.
Qed.

Lemma flagged_keys (m : list (WebSocket * SessionState)) :
  map fst (map flagged m) = map fst m.
Proof. rewrite map_map. reflexivity. Qed.

Lemma Map_get_flagged (ws : WebSocket) (m : list (WebSocket * SessionState)) :
  Map_get ws (map flagged m) = option_map (with_isAlive false) (Map_get ws m).
Proof.
  induction m as [|[k s] m IH]; cbn; [reflexivity|].
  destruct (Nat.eqb ws k); [reflexivity | exact IH].
Qed.




Lemma handleClose_without_process (env : Env) (ws : WebSocket) (session : SessionState)
  (W : World) :
  Map_get ws (sessions W) = Some session ->
  ptyProcess (pty session) = None ->
  handleClose env ws W = set_sessions (Map_delete ws (sessions W)) W.
Proof.
  intros G P. unfold handleClose, PTYManager.kill. now rewrite G, P.
Qed.

Lemma Map_set_keys {V : Type} (k : nat) (v : V) (m : list (nat * V)) :
  NoDup (map fst m) -> NoDup (map fst (Map_set k v m)) /\
  forall x, In x (map fst (Map_set k v m)) -> x = k \/ In x (map fst m).
Proof.
  induction m as [|[k' v'] m IH]; cbn; intros N.
  - split; [repeat constructor; intros [] | intros x [->|[]]; auto].
  - inversion N as [|? ? Hn Hd]; subst. destruct (IH Hd) as (N' & I').
    destruct (Nat.eqb_spec k k') as [->|D]; cbn.
    + split; [exact N | intros x [->|H]; auto].
    + split.
      * constructor; [|exact N']. intros H. apply I' in H. destruct H as [->|H]; tauto.
      * intros x [->|H]; [auto|]. apply I' in H. tauto.
Qed.

Lemma Map_delete_keys {V : Type} (k : nat) (m : list (nat * V)) :
  NoDup (map fst m) -> NoDup (map fst (Map_delete k m)) /\
  forall x, In x (map fst (Map_delete k m)) -> In x (map fst m).
Proof.
  induction m as [|[k' v'] m IH]; cbn; intros N; [auto|].
  inversion N as [|? ? Hn Hd]; subst. destruct (IH Hd) as (N' & I').
  destruct (Nat.eqb_spec k k') as [->|D]; cbn.
  - auto.
  - split.
    + constructor; [|exact N']. intros H. apply I' in H. tauto.
    + intros x [->|H]; auto.
Qed.

(** The registry never holds a socket twice: every event keeps its
    keys distinct, so they are distinct in every world the handler
    reaches. *)
Lemma dispatch_keys (env : Env) (now : Z) (e : Event) (W : World) :
  NoDup (map fst (sessions W)) -> NoDup (map fst (sessions (dispatch env now e W))).
Proof.
  intros N.
  assert (R : forall W', registry W' = registry W -> NoDup (map fst (sessions W'))).
  { intros W' E. unfold registry in E. injection E as -> _ _. exact N. }
  destruct e as [w sid | w data isBinary | w | w | w | q data | q | id | ]; cbn [dispatch].
  - apply Map_set_keys, N.
  - unfold handleMessage. destruct (Map_get w (sessions W)) as [s|]; [|exact N].
    set (counted := set_sessions (Map_set w (count_message now s) (sessions W)) W).
    assert (Nc : NoDup (map fst (sessions counted))) by (apply Map_set_keys, N).
    assert (Ec : forall msg, NoDup (map fst (sessions (sendError w msg counted)))).
    { intros msg. unfold sendError.
      pose proof (send_registry w (Error msg) counted) as E. unfold registry in E.
      injection E as -> _ _. exact Nc. }
    destruct (_ >? rateLimit counted); [apply Ec|]. unfold accept.
    destruct (_ >? maxMessageSize counted); [apply Ec|].
    destruct (decode env data isBinary) as [m|]; [|apply Ec].
    destruct (routeMessage env w (count_message now s) m counted) as [[s' W']|] eqn:Q;
      [|apply Ec].
    apply routeMessage_registry in Q. destruct Q as (E & _).
    unfold registry in E. injection E as E _ _. cbn. apply Map_set_keys. now rewrite E.
  - unfold pong. destruct (Map_get w (sessions W)); [apply Map_set_keys, N | exact N].
  - unfold handleClose. cbn [sessions set_readyState].
    destruct (Map_get w (sessions W)) as [s|]; [|exact N].
    unfold PTYManager.kill.
    destruct (ptyProcess (pty s)); [destruct (pty_kill_throws env _ _)|]; cbn;
      apply Map_delete_keys, N.
  - unfold handleError, handleClose.
    destruct (Map_get w (sessions W)) as [s|]; [|exact N].
    unfold PTYManager.kill.
    destruct (ptyProcess (pty s)); [destruct (pty_kill_throws env _ _)|]; cbn;
      apply Map_delete_keys, N.
  - apply R, onData_callback_registry.
  - apply R, onExit_callback_registry.
  - apply R, (timeout_registry env now id W).
  - unfold heartbeat. generalize (map fst (sessions W)) as keys. intros keys.
    clear R. revert W N. induction keys as [|x keys IH]; intros W N; [exact N|].
    cbn [fold_left]. apply IH.
    unfold heartbeat_entry. destruct (Map_get x (sessions W)) as [s|]; [|exact N].
    destruct (negb (isAlive s)).
    + pose proof (terminate_ws_registry x W) as E. unfold registry in E.
      injection E as -> _ _. exact N.
    + cbn. apply Map_set_keys, N.
Qed.

Lemma run_keys (env : Env) (events : list (Z * Event)) (W : World) :
  NoDup (map fst (sessions W)) -> NoDup (map fst (sessions (run env events W))).
Proof.
  revert W. induction events as [|[t e] events IH]; intros W N; [exact N|].
  cbn [run]. apply IH, dispatch_keys.
  pose proof (advance_registry env t W) as E. unfold registry in E.
  injection E as -> _ _. exact N.
Qed.



(** ** Output coalescing *)

Lemma Map_set_set {V : Type} (k : nat) (v v' : V) (m : list (nat * V)) :
  Map_set k v' (Map_set k v m) = Map_set k v' m.
Proof.
  induction m as [|[k0 v0] m IH]; cbn.
  - now rewrite Nat.eqb_refl.
  - destruct (Nat.eqb k k0) eqn:E; cbn; [now rewrite Nat.eqb_refl | now rewrite E, IH].
Qed.

Section Coalescing.
Variable env : Env.
Variables (p : IPty) (ws : WebSocket).

(** A write that leaves the buffer at 8192 or less while a flush is
    pending only extends the buffer. *)
Lemma pending_write (buffer data : string) (id : Timeout) (due now : Z) (W : World) :
  now < due ->
  Z.of_nat (String.length (buffer +++ data)) <= 8192 ->
  dispatch env now (pty_data p data) (advance env now (pending p ws buffer id due W))
  = pending p ws (buffer +++ data) id due W.
Proof.
  intros T L.
  assert (A : advance env now (pending p ws buffer id due W) = pending p ws buffer id due W).
  { unfold advance. cbn. destruct (Z.leb_spec due now); [lia | reflexivity]. }
  rewrite A. cbn [dispatch]. unfold onData_callback.
  unfold pending at 1. cbn [dataHandlers set_dataHandlers]. rewrite Map_get_set_eq.
  cbn [outputBuffer cl_ws flushTimeout].
  destruct (Z.ltb_spec 8192 (Z.of_nat (String.length (buffer +++ data)))); [lia|].
  unfold store, pending. cbn. now rewrite Map_set_set.
Qed.

Lemma pending_burst (writes : list (Z * string)) (buffer : string) (id : Timeout) (due : Z)
  (W : World) :
  Forall (fun w => fst w < due) writes ->
  Z.of_nat (String.length (buffer +++ joined (map snd writes))) <= 8192 ->
  run env (writes_of p writes) (pending p ws buffer id due W)
  = pending p ws (buffer +++ joined (map snd writes)) id due W.
Proof.
  revert buffer. induction writes as [|[t d] writes IH]; intros buffer F L.
  - cbn. now rewrite append_nil_r.
  - cbn [writes_of map run fst snd joined] in *.
    rewrite <- append_assoc in L |- *.
    rewrite pending_write.
    + apply IH; [exact (Forall_inv_tail F) | exact L].
    + exact (Forall_inv F).
    + rewrite length_append in L. lia.
Qed.

(** The pending timer fires: one OUTPUT frame with the buffer. *)
Lemma pending_flush (buffer : string) (id : Timeout) (due now : Z) (W : World) :
  due <= now -> readyState W ws = OPEN -> 0 < Z.of_nat (String.length buffer) ->
  advance env now (pending p ws buffer id due W)
  = set_dataHandlers
      (Map_set p {| cl_ws := ws; outputBuffer := ""; flushTimeout := None |} (dataHandlers W))
      (set_timers (S id) [] (effect (ws_send ws (Output buffer)) W)).
Proof.
  intros D O N. unfold advance. cbn [timers pending set_dataHandlers set_timers fold_left fst snd].
  destruct (Z.leb_spec due now); [|lia].
  cbn [dispatch]. cbn [timers pending set_dataHandlers set_timers Map_get].
  rewrite Nat.eqb_refl. unfold flush, clearTimeout.
  cbn [dataHandlers pending set_dataHandlers set_timers timers timeouts Map_delete].
  rewrite Map_get_set_eq, Nat.eqb_refl. cbn [outputBuffer cl_ws].
  destruct (Z.ltb_spec 0 (Z.of_nat (String.length buffer))); [|lia].
  unfold send, store. cbn. rewrite O. cbn. now rewrite Map_set_set.
Qed.

End Coalescing.

(** ** A burst among the output of other sessions *)

Lemma frames_app (ws : WebSocket) (a b : list Effect) :
  frames ws (a ++ b) = frames ws a ++ frames ws b.
Proof.
  induction a as [|e a IH]; [reflexivity|]. cbn [app frames].
  destruct e; try exact IH. destruct (Nat.eqb ws0 ws); [cbn; now rewrite IH | exact IH].
Qed.

Lemma In_Map_delete {V : Type} (k : nat) (x : nat * V) (m : list (nat * V)) :
  In x (Map_delete k m) -> In x m.
Proof.
  induction m as [|[k0 v0] m IH]; cbn; [auto|].
  destruct (Nat.eqb k k0); cbn; [auto | intros [E|H]; auto].
Qed.

Lemma In_Map_delete_other {V : Type} (k : nat) (x : nat * V) (m : list (nat * V)) :
  In x m -> fst x <> k -> In x (Map_delete k m).
Proof.
  induction m as [|[k0 v0] m IH]; cbn; [auto|]. intros [E|H] N.
  - subst x. cbn in N. destruct (Nat.eqb_spec k k0); [congruence | now left].
  - destruct (Nat.eqb k k0); [exact H | right; now apply IH].
Qed.

Lemma NoDup_keys_In {V : Type} (k : nat) (v v' : V) (m : list (nat * V)) :
  NoDup (map fst m) -> In (k, v) m -> In (k, v') m -> v = v'.
Proof.
  induction m as [|[k0 v0] m IH]; cbn; [contradiction|]. intros N A B.
  inversion N as [|? ? Hn Hd]; subst.
  destruct A as [A|A], B as [B|B].
  - congruence.
  - injection A as -> ->. exfalso. apply Hn. now apply (in_map fst) in B.
  - injection B as -> ->. exfalso. apply Hn. now apply (in_map fst) in A.
  - now apply IH.
Qed.

Lemma Map_get_of_In {V : Type} (k : nat) (v : V) (m : list (nat * V)) :
  NoDup (map fst m) -> In (k, v) m -> Map_get k m = Some v.
Proof.
  intros N I. destruct (Map_get k m) as [v'|] eqn:G.
  - apply Map_get_In in G. f_equal. exact (NoDup_keys_In k v' v m N G I).
  - exfalso. revert G. clear N. induction m as [|[k0 v0] m IH]; cbn; [contradiction|].
    destruct I as [E|I]; [injection E as -> ->; now rewrite Nat.eqb_refl|].
    destruct (Nat.eqb k k0); [discriminate | now apply IH].
Qed.

Lemma not_In_Map_delete {V : Type} (k : nat) (v : V) (m : list (nat * V)) :
  NoDup (map fst m) -> ~ In (k, v) (Map_delete k m).
Proof.
  induction m as [|[k0 v0] m IH]; cbn; [auto|]. intros N.
  inversion N as [|? ? Hn Hd]; subst.
  destruct (Nat.eqb_spec k k0) as [->|D].
  - intros I. apply Hn. now apply (in_map fst) in I.
  - intros [E|I]; [congruence | now apply IH in I].
Qed.

Section Among.
Variable env : Env.
Variables (p : IPty) (ws : WebSocket).

Lemma spared_refl (X : World) : spared p ws X X.
Proof. unfold spared. repeat split; auto. apply incl_refl. Qed.

Lemma spared_trans (X Y Z : World) : spared p ws X Y -> spared p ws Y Z -> spared p ws X Z.
Proof.
  intros (A1 & A2 & A3 & A4 & A5 & A6 & A7 & A8) (B1 & B2 & B3 & B4 & B5 & B6 & B7 & B8).
  unfold spared. repeat split.
  - congruence.
  - intros q. now rewrite B2.
  - congruence.
  - congruence.
  - congruence.
  - eapply incl_tran; eassumption.
  - auto.
  - intros t I P. apply B8; [now apply A8 | exact P].
Qed.

Lemma spared_others (X Y : World) :
  spared p ws X Y -> others_elsewhere p ws X -> others_elsewhere p ws Y.
Proof.
  intros (_ & S & _) O q w Q. rewrite S in Q. now apply O.
Qed.

(** The flush of another process's closure. *)
Lemma flush_spared (q : IPty) (X : World) :
  q <> p -> others_elsewhere p ws X -> spared p ws X (flush q X).
Proof.
  intros N O. unfold flush.
  destruct (Map_get q (dataHandlers X)) as [c|] eqn:G; [|apply spared_refl].
  assert (E : cl_ws c <> ws).
  { apply (O q); [unfold socket_of; now rewrite G | exact N]. }
  assert (K : forall b t Y,
             dataHandlers Y = dataHandlers X -> readyState Y = readyState X ->
             frames ws (log Y) = frames ws (log X) -> timeouts Y = timeouts X ->
             timers Y = timers X ->
             spared p ws X (store q {| cl_ws := cl_ws c; outputBuffer := b;
                                       flushTimeout := t |} Y)).
  { intros b t Y D R F T1 T2. unfold spared, store. cbn. rewrite D, T1, T2.
    repeat split; auto.
    - apply Map_get_set_neq. congruence.
    - intros r. unfold socket_of. cbn.
      destruct (Nat.eq_dec r q) as [->|Nr].
      + now rewrite Map_get_set_eq, G.
      + now rewrite Map_get_set_neq.
    - apply incl_refl. }
  destruct (0 <? Z.of_nat (String.length (outputBuffer c))).
  - apply K; unfold send; destruct (readyState X (cl_ws c)); try reflexivity.
    cbn. rewrite frames_app. cbn. apply Nat.eqb_neq in E. rewrite E. apply app_nil_r.
  - apply K; reflexivity.
Qed.

(** A timer of another process fires, or is not due, or is gone. *)
Lemma fire_spared (now : Z) (S : list (Timeout * (Z * IPty))) (t : Timeout * (Z * IPty))
  (X : World) :
  NoDup (map fst S) -> incl (timers X) S -> In t S ->
  (fst (snd t) <= now -> snd (snd t) <> p) ->
  others_elsewhere p ws X ->
  spared p ws X (if fst (snd t) <=? now then dispatch env now (timeout (fst t)) X else X).
Proof.
  intros N I T D O.
  destruct (Z.leb_spec (fst (snd t)) now) as [Due|]; [|apply spared_refl].
  cbn [dispatch]. destruct (Map_get (fst t) (timers X)) as [[due q]|] eqn:G;
    [|apply spared_refl].
  apply Map_get_In in G.
  assert (E : (due, q) = snd t).
  { apply (NoDup_keys_In (fst t) _ _ S N); [now apply I | now destruct t]. }
  assert (Q : q <> p) by (specialize (D Due); rewrite <- E in D; exact D).
  assert (C : spared p ws X (clearTimeout (fst t) X)).
  { unfold spared, clearTimeout. cbn. repeat split; auto.
    - intros x. apply In_Map_delete.
    - intros Nd. now apply Map_delete_keys.
    - intros x Ix Px. apply In_Map_delete_other; [exact Ix|].
      intros F. destruct x as [k [d r]]. cbn in F, Px. subst k r.
      assert ((d, p) = (due, q)).
      { apply (NoDup_keys_In (fst t) _ _ S N); now apply I. }
      congruence. }
  eapply spared_trans; [exact C|].
  apply flush_spared; [exact Q | exact (spared_others _ _ C O)].
Qed.

Lemma fold_spared (now : Z) (S ts : list (Timeout * (Z * IPty))) (X : World) :
  NoDup (map fst S) -> incl (timers X) S -> incl ts S ->
  (forall t, In t ts -> fst (snd t) <= now -> snd (snd t) <> p) ->
  others_elsewhere p ws X ->
  spared p ws X
    (fold_left (fun W t => if fst (snd t) <=? now
                           then dispatch env now (timeout (fst t)) W else W) ts X).
Proof.
  intros N. revert X. induction ts as [|t ts IH]; intros X I T D O; [apply spared_refl|].
  cbn [fold_left].
  assert (F := fire_spared now S t X N I (T t (or_introl eq_refl))
                 (D t (or_introl eq_refl)) O).
  eapply spared_trans; [exact F|].
  apply IH.
  - destruct F as (_ & _ & _ & _ & _ & Inc & _). eapply incl_tran; eassumption.
  - intros x Hx. apply T. now right.
  - intros x Hx. apply D. now right.
  - exact (spared_others _ _ F O).
Qed.

Lemma advance_spared (now : Z) (X : World) :
  NoDup (map fst (timers X)) ->
  (forall t, In t (timers X) -> fst (snd t) <= now -> snd (snd t) <> p) ->
  others_elsewhere p ws X ->
  spared p ws X (advance env now X).
Proof.
  intros N D O. unfold advance.
  apply (fold_spared now (timers X)); auto using incl_refl.
Qed.


Lemma holding_advance (buffer : string) (id : Timeout) (due now : Z) (X : World) :
  holding p ws buffer id due X -> now < due ->
  holding p ws buffer id due (advance env now X) /\
  frames ws (log (advance env now X)) = frames ws (log X).
Proof.
  intros (C & O & R & N & I & U) Late.
  assert (S : spared p ws X (advance env now X)).
  { apply advance_spared; [exact N | | exact O].
    intros t It Due Pt. specialize (U t It Pt). subst t. cbn in Due. lia. }
  pose proof (spared_others _ _ S O) as O'.
  destruct S as (S1 & S2 & S3 & S4 & S5 & S6 & S7 & S8).
  split; [|exact S4].
  unfold holding. rewrite S1, S3. repeat split; auto.
Qed.

Lemma holding_write (buffer data : string) (id : Timeout) (due now : Z) (X : World) :
  holding p ws buffer id due X ->
  Z.of_nat (String.length (buffer +++ data)) <= 8192 ->
  holding p ws (buffer +++ data) id due (dispatch env now (pty_data p data) X) /\
  log (dispatch env now (pty_data p data) X) = log X.
Proof.
  intros (C & O & R & N & I & U) L.
  cbn [dispatch]. unfold onData_callback. rewrite C. cbn [outputBuffer cl_ws flushTimeout].
  destruct (Z.ltb_spec 8192 (Z.of_nat (String.length (buffer +++ data)))); [lia|].
  split; [|reflexivity].
  unfold holding, store. cbn. repeat split; auto.
  - apply Map_get_set_eq.
  - intros q w Q Nq. unfold socket_of in Q. cbn in Q.
    rewrite Map_get_set_neq in Q by exact Nq. now apply (O q).
Qed.

Lemma holding_burst (writes : list (Z * string)) (buffer : string) (id : Timeout) (due : Z)
  (X : World) :
  holding p ws buffer id due X ->
  Forall (fun w => fst w < due) writes ->
  Z.of_nat (String.length (buffer +++ joined (map snd writes))) <= 8192 ->
  holding p ws (buffer +++ joined (map snd writes)) id due (run env (writes_of p writes) X) /\
  frames ws (log (run env (writes_of p writes) X)) = frames ws (log X).
Proof.
  revert buffer X. induction writes as [|[t d] writes IH]; intros buffer X H F L.
  - cbn. now rewrite append_nil_r.
  - cbn [writes_of map run fst snd joined] in *.
    rewrite <- append_assoc in L |- *.
    destruct (holding_advance buffer id due t X H (Forall_inv F)) as (Ha & Fa).
    destruct (holding_write buffer d id due t _ Ha) as (Hw & Lw).
    { rewrite length_append in L. lia. }
    destruct (IH _ _ Hw (Forall_inv_tail F) L) as (Hr & Fr).
    split; [exact Hr|]. etransitivity; [exact Fr|]. rewrite Lw. exact Fa.
Qed.

(** The first write of a burst: it sets the timer. *)
Lemma holding_first (data : string) (now : Z) (W : World) :
  Map_get p (dataHandlers W)
    = Some {| cl_ws := ws; outputBuffer := ""; flushTimeout := None |} ->
  readyState W ws = OPEN ->
  no_flush_pending p W -> timers_distinct W -> others_elsewhere p ws W ->
  Z.of_nat (String.length data) <= 8192 ->
  holding p ws data (timeouts W) (now + 5)
    (dispatch env now (pty_data p data) (advance env now W)) /\
  frames ws (log (dispatch env now (pty_data p data) (advance env now W)))
  = frames ws (log W).
Proof.
  intros C R P (N & Fr) O L.
  assert (S : spared p ws W (advance env now W)).
  { apply advance_spared; [exact N | | exact O].
    intros t It _. unfold no_flush_pending in P. rewrite Forall_forall in P. now apply P. }
  pose proof (spared_others _ _ S O) as O'.
  destruct S as (S1 & S2 & S3 & S4 & S5 & S6 & S7 & S8).
  set (A := advance env now W) in *.
  cbn [dispatch]. unfold onData_callback. rewrite S1, C.
  cbn [outputBuffer cl_ws flushTimeout String.append].
  destruct (Z.ltb_spec 8192 (Z.of_nat (String.length data))); [lia|].
  unfold setTimeout, store. cbn. rewrite S5. split; [|exact S4].
  unfold holding. cbn. rewrite S3. repeat split.
  - rewrite Map_set_set. apply Map_get_set_eq.
  - intros q w Q Nq. unfold socket_of in Q. cbn in Q.
    rewrite Map_set_set, Map_get_set_neq in Q by exact Nq. now apply (O' q).
  - exact R.
  - rewrite map_app. apply NoDup_app; [now apply S7 | repeat constructor; intros [] |].
    intros k Ik [E|[]]. subst k. apply in_map_iff in Ik. destruct Ik as (t & E & It).
    apply S6 in It. rewrite Forall_forall in Fr. specialize (Fr t It). cbn beta in Fr.
    destruct t as [k v]. cbn in E, Fr. subst k. exact (Nat.lt_irrefl _ Fr).
  - apply in_or_app. right. now left.
  - intros t It Pt. apply in_app_or in It. destruct It as [It | [E|[]]]; [|now symmetry].
    exfalso. apply S6 in It. unfold no_flush_pending in P. rewrite Forall_forall in P.
    exact (P t It Pt).
Qed.

(** The timer of the burst fires among the others that are due. *)
Lemma holding_flush (buffer : string) (id : Timeout) (due now : Z) (X : World) :
  holding p ws buffer id due X -> due <= now ->
  0 < Z.of_nat (String.length buffer) ->
  frames ws (log (advance env now X)) = frames ws (log X) ++ [Output buffer] /\
  Map_get p (dataHandlers (advance env now X))
    = Some {| cl_ws := ws; outputBuffer := ""; flushTimeout := None |} /\
  no_flush_pending p (advance env now X).
Proof.
  intros (C & O & R & N & I & U) Due Len.
  destruct (in_split _ _ I) as (pre & post & E).
  assert (Np : forall t, In t pre \/ In t post -> snd (snd t) <> p).
  { intros t It Pt.
    assert (In t (timers X)) as It' by (rewrite E; apply in_or_app; cbn; tauto).
    specialize (U t It' Pt). subst t.
    rewrite E, map_app in N. cbn [map fst] in N.
    apply NoDup_remove_2 in N. apply N. apply in_or_app.
    destruct It as [It|It]; [left | right]; now apply (in_map fst) in It. }
  set (fire := fun (W : World) (t : Timeout * (Z * IPty)) =>
                 if fst (snd t) <=? now then dispatch env now (timeout (fst t)) W else W).
  assert (S1 : spared p ws X (fold_left fire pre X)).
  { apply (fold_spared now (timers X)); [exact N | apply incl_refl | | | exact O].
    - rewrite E. intros t It. apply in_or_app. now left.
    - intros t It _. apply Np. now left. }
  set (X1 := fold_left fire pre X) in *.
  pose proof (spared_others _ _ S1 O) as O1.
  destruct S1 as (A1 & A2 & A3 & A4 & A5 & A6 & A7 & A8).
  set (X2 := store p {| cl_ws := ws; outputBuffer := ""; flushTimeout := None |}
               (effect (ws_send ws (Output buffer)) (clearTimeout id X1))).
  assert (Fire : fire X1 (id, (due, p)) = X2).
  { unfold fire. cbn [fst snd]. destruct (Z.leb_spec due now); [|lia].
    cbn [dispatch].
    rewrite (Map_get_of_In id (due, p) (timers X1) (A7 N) (A8 _ I eq_refl)).
    unfold flush. unfold clearTimeout at 1. cbn [dataHandlers set_timers]. rewrite A1, C.
    cbn [outputBuffer cl_ws].
    destruct (Z.ltb_spec 0 (Z.of_nat (String.length buffer))); [|lia].
    unfold send. unfold clearTimeout at 1. cbn [readyState set_timers]. rewrite A3, R.
    reflexivity. }
  assert (Adv : advance env now X = fold_left fire post X2).
  { unfold advance. rewrite E. rewrite fold_left_app.
    change (fold_left fire post (fire X1 (id, (due, p))) = fold_left fire post X2).
    now rewrite Fire. }
  rewrite Adv.
  assert (O2 : others_elsewhere p ws X2).
  { intros q w Q Nq. unfold socket_of, X2, store in Q. cbn in Q.
    rewrite Map_get_set_neq in Q by exact Nq. now apply (O1 q). }
  assert (T2 : timers X2 = Map_delete id (timers X1)) by reflexivity.
  assert (S2 : spared p ws X2 (fold_left fire post X2)).
  { apply (fold_spared now (timers X)); [exact N | | | | exact O2].
    - rewrite T2. intros t It. apply A6. now apply In_Map_delete in It.
    - rewrite E. intros t It. apply in_or_app. right. now right.
    - intros t It _. apply Np. now right. }
  destruct S2 as (B1 & B2 & B3 & B4 & B5 & B6 & B7 & B8).
  split; [|split].
  - rewrite B4. unfold X2, store, clearTimeout. cbn. rewrite frames_app, A4. cbn.
    now rewrite Nat.eqb_refl.
  - rewrite B1. unfold X2, store. cbn. apply Map_get_set_eq.
  - unfold no_flush_pending. rewrite Forall_forall. intros t It Pt.
    apply B6 in It. rewrite T2 in It.
    pose proof (In_Map_delete _ _ _ It) as It1.
    specialize (U t (A6 _ It1) Pt). subst t.
    exact (not_In_Map_delete id (due, p) (timers X1) (A7 N) It).
Qed.

End Among.

(** ** The timers of every world that is reached *)

Section Clock.
Variable env : Env.

Lemma send_clock ws f W : clock (send ws f W) = clock W.
Proof. unfold send. cases; reflexivity. Qed.

Lemma close_ws_clock ws W : clock (close_ws ws W) = clock W.
Proof. unfold close_ws. cases; reflexivity. Qed.

Lemma terminate_ws_clock ws W : clock (terminate_ws ws W) = clock W.
Proof. unfold terminate_ws. cases; reflexivity. Qed.

Lemma flush_clock p W : clock (flush p W) = clock W.
Proof.
  unfold flush. cases; try reflexivity.
  unfold store, clock. cbn. apply send_clock.
Qed.

Lemma onExit_callback_clock p W : clock (onExit_callback p W) = clock W.
Proof. unfold onExit_callback. cases; [apply close_ws_clock | reflexivity]. Qed.

Lemma handleAuth_clock ws session token W :
  clock (snd (handleAuth env ws session token W)) = clock W.
Proof.
  unfold handleAuth, PTYManager.spawn.
  destruct (pty_spawn_throws env (log W)); cbn; unfold sendError;
    rewrite ?close_ws_clock, ?send_clock; reflexivity.
Qed.

Lemma handleInput_clock session data W : clock (handleInput env session data W) = clock W.
Proof. unfold handleInput, PTYManager.write. cases; reflexivity. Qed.

Lemma handleResize_clock session message W :
  clock (handleResize env session message W) = clock W.
Proof. unfold handleResize, PTYManager.resize. cases; reflexivity. Qed.

Lemma handleFileUpload_clock ws session message W :
  clock (handleFileUpload env ws session message W) = clock W.
Proof.
  unfold handleFileUpload, sendError. cases; rewrite ?send_clock; reflexivity.
Qed.

Lemma routeMessage_clock ws session message W session' W' :
  routeMessage env ws session message W = Some (session', W') -> clock W' = clock W.
Proof.
  unfold routeMessage. intros R.
  assert (K : forall t, (if String.eqb t MessageType.AUTH
                         then Some (handleAuth env ws session (prop message "token") W)
                         else if String.eqb t MessageType.INPUT then
                           Some (session, if authenticated session
                                          then handleInput env session (prop message "data") W
                                          else W)
                         else if String.eqb t MessageType.RESIZE then
                           Some (session, if authenticated session
                                          then handleResize env session message W else W)
                         else if String.eqb t MessageType.FILE_UPLOAD then
                           Some (session, if authenticated session
                                          then handleFileUpload env ws session message W
                                          else W)
                         else Some (session, W)) = Some (session', W') ->
              clock W' = clock W).
  { intros t. destruct (String.eqb t MessageType.AUTH).
    - intros H. injection H as H.
      pose proof (handleAuth_clock ws session (prop message "token") W) as P.
      rewrite H in P. exact P.
    - destruct (String.eqb t MessageType.INPUT);
        [|destruct (String.eqb t MessageType.RESIZE);
          [|destruct (String.eqb t MessageType.FILE_UPLOAD)]];
        intros H; injection H as <- <-; destruct (authenticated session);
        rewrite ?handleInput_clock, ?handleResize_clock, ?handleFileUpload_clock;
        auto. }
  destruct message; try discriminate R;
    destruct (prop _ "type") as [[| | |t| | |]|];
    try (injection R as <- <-; auto); apply (K t); exact R.
Qed.

Lemma handleMessage_clock ws data isBinary now W :
  clock (handleMessage env ws data isBinary now W) = clock W.
Proof.
  unfold handleMessage. destruct (Map_get ws (sessions W)) as [session|]; [|reflexivity].
  set (counted := set_sessions _ W).
  assert (E : forall msg, clock (sendError ws msg counted) = clock W)
    by (intros msg; unfold sendError; now rewrite send_clock).
  destruct (_ >? rateLimit counted); [apply E|].
  unfold accept. destruct (_ >? maxMessageSize counted); [apply E|].
  destruct (decode env data isBinary) as [m|]; [|apply E].
  destruct (routeMessage env ws (count_message now session) m counted)
    as [[s' W']|] eqn:R; [|apply E].
  apply routeMessage_clock in R. unfold clock in *. cbn. exact R.
Qed.

Lemma handleClose_clock ws W : clock (handleClose env ws W) = clock W.
Proof.
  unfold handleClose, PTYManager.kill.
  destruct (Map_get ws (sessions W)) as [session|]; [|reflexivity].
  destruct (ptyProcess (pty session)) as [p|]; [|reflexivity].
  destruct (pty_kill_throws env (log W) p); reflexivity.
Qed.

Lemma heartbeat_clock W : clock (heartbeat W) = clock W.
Proof.
  unfold heartbeat. generalize (map fst (sessions W)) as l. intros l. revert W.
  induction l as [|ws l IH]; intros W; [reflexivity|].
  cbn [fold_left]. rewrite IH. unfold heartbeat_entry.
  cases; unfold clock; cbn; try reflexivity;
    try apply terminate_ws_clock.
Qed.

Lemma clearTimeout_distinct id W : timers_distinct W -> timers_distinct (clearTimeout id W).
Proof.
  intros (N & F). unfold timers_distinct, clearTimeout. cbn. split.
  - now apply Map_delete_keys.
  - rewrite Forall_forall in *. intros t It. apply F. now apply In_Map_delete in It.
Qed.

Lemma clock_distinct W W' : clock W' = clock W -> timers_distinct W -> timers_distinct W'.
Proof. unfold clock, timers_distinct. intros E. injection E as -> ->. auto. Qed.

Lemma onData_callback_distinct p data now W :
  timers_distinct W -> timers_distinct (onData_callback p data now W).
Proof.
  intros D. unfold onData_callback.
  destruct (Map_get p (dataHandlers W)) as [c|]; [|exact D].
  cbn [outputBuffer cl_ws flushTimeout].
  destruct (8192 <? _).
  - apply (clock_distinct _ _ (flush_clock _ _)).
    destruct (flushTimeout c); [apply clearTimeout_distinct|]; exact D.
  - destruct (flushTimeout c); [exact D|].
    destruct D as (N & F). unfold timers_distinct, setTimeout, store. cbn. split.
    + rewrite map_app. apply NoDup_app; [exact N | repeat constructor; intros [] |].
      intros k Ik [E|[]]. cbn in E. subst k. apply in_map_iff in Ik.
      destruct Ik as ([k v] & E & It). rewrite Forall_forall in F. specialize (F _ It).
      cbn in E, F. subst k. exact (Nat.lt_irrefl _ F).
    + apply Forall_app. split.
      * rewrite Forall_forall in *. intros t It. specialize (F t It). cbn beta in F.
        apply Nat.lt_lt_succ_r. exact F.
      * repeat constructor.
Qed.

Lemma dispatch_distinct now e W :
  timers_distinct W -> timers_distinct (dispatch env now e W).
Proof.
  intros D. destruct e; cbn [dispatch].
  - exact D.
  - exact (clock_distinct _ _ (handleMessage_clock _ _ _ _ _) D).
  - unfold pong. destruct (Map_get ws (sessions W)); exact D.
  - apply (clock_distinct _ _ (handleClose_clock _ _)). exact D.
  - apply (clock_distinct _ _ (handleClose_clock _ _)). exact D.
  - now apply onData_callback_distinct.
  - exact (clock_distinct _ _ (onExit_callback_clock _ _) D).
  - destruct (Map_get id (timers W)) as [[due q]|]; [|exact D].
    apply (clock_distinct _ _ (flush_clock _ _)). now apply clearTimeout_distinct.
  - exact (clock_distinct _ _ (heartbeat_clock _) D).
Qed.

Lemma advance_distinct now W : timers_distinct W -> timers_distinct (advance env now W).
Proof.
  unfold advance. generalize (timers W) as ts. intros ts. revert W.
  induction ts as [|t ts IH]; intros W D; [exact D|].
  cbn [fold_left]. apply IH.
  destruct (fst (snd t) <=? now); [now apply dispatch_distinct | exact D].
Qed.

(** The ids of the pending timers are distinct in the handler as it is
    created and in every world reached from it. *)
Lemma run_distinct events W : timers_distinct W -> timers_distinct (run env events W).
Proof.
  revert W. induction events as [|[t e] events IH]; intros W D; [exact D|].
  cbn [run]. apply IH, dispatch_distinct, advance_distinct, D.
Qed.

Lemma new_distinct rateLimit maxMessageSize :
  timers_distinct (WebSocketHandler.new rateLimit maxMessageSize).
Proof. split; constructor. Qed.

End Clock.

(** C4, counterexample.  A single write of exactly 8192 characters into
    the empty buffer emits nothing at once: the flush is only scheduled,
    and the frame leaves five milliseconds later. *)
Lemma write_of_8192_waits :
  let data := chunk (Z.to_nat 8192) in
  let W := dispatch quiet 5000 (pty_data 0%nat data) authenticated_world in
  Z.of_nat (String.length data) = 8192 /\
  option_map outputBuffer (Map_get 0%nat (dataHandlers authenticated_world)) = Some "" /\
  log W = log authenticated_world /\
  timers W = [(0%nat, (5005, 0%nat))] /\
  log (advance quiet 5004 W) = log authenticated_world /\
  log (advance quiet 5005 W) = log authenticated_world ++ [ws_send 1%nat (Output data)].
Proof. vm_compute. repeat split. Qed.

(** C4, as the code has it.  On an open socket, a write that takes the
    buffer of a closure past 8192 characters emits at once exactly one
    OUTPUT frame with the whole buffer, removes the pending timer, sets
    no new one and empties the buffer.

    A burst of writes that starts on an empty buffer with no flush
    pending for it, lasts less than five milliseconds and totals
    between 1 and 8192 characters emits nothing while it lasts and
    exactly one OUTPUT frame, the chunks in their order, when the timer
    set by its first write fires.  Where no timer at all is pending,
    that frame is all that is added to the log.  Where other sessions
    have flushes pending, which fire in between on their own sockets,
    it is all that the socket of the burst is sent, the socket being
    written to by this process only; the buffer is empty afterwards and
    no flush is pending for it. *)
Theorem output_coalescing (env : Env) (W : World) (p : IPty) (c : Closure) :
  Map_get p (dataHandlers W) = Some c ->
  readyState W (cl_ws c) = OPEN ->
  (forall data now,
     8192 < Z.of_nat (String.length (outputBuffer c +++ data)) ->
     let W' := dispatch env now (pty_data p data) W in
     log W' = log W ++ [ws_send (cl_ws c) (Output (outputBuffer c +++ data))] /\
     Map_get p (dataHandlers W')
       = Some {| cl_ws := cl_ws c; outputBuffer := ""; flushTimeout := None |} /\
     timers W' = match flushTimeout c with
                 | Some id => Map_delete id (timers W)
                 | None => timers W
                 end /\
     timeouts W' = timeouts W) /\
  (forall t1 d1 writes,
     outputBuffer c = "" -> flushTimeout c = None -> timers W = [] ->
     Forall (fun w => fst w < t1 + 5) writes ->
     let total := joined (d1 :: map snd writes) in
     0 < Z.of_nat (String.length total) <= 8192 ->
     let burst := run env (writes_of p ((t1, d1) :: writes)) W in
     let W' := advance env (t1 + 5) burst in
     log burst = log W /\
     log W' = log W ++ [ws_send (cl_ws c) (Output total)] /\
     Map_get p (dataHandlers W')
       = Some {| cl_ws := cl_ws c; outputBuffer := ""; flushTimeout := None |} /\
     timers W' = []) /\
  (forall t1 d1 writes,
     outputBuffer c = "" -> flushTimeout c = None ->
     no_flush_pending p W -> timers_distinct W -> others_elsewhere p (cl_ws c) W ->
     Forall (fun w => fst w < t1 + 5) writes ->
     let total := joined (d1 :: map snd writes) in
     0 < Z.of_nat (String.length total) <= 8192 ->
     let burst := run env (writes_of p ((t1, d1) :: writes)) W in
     let W' := advance env (t1 + 5) burst in
     frames (cl_ws c) (log burst) = frames (cl_ws c) (log W) /\
     Map_get p (dataHandlers burst)
       = Some {| cl_ws := cl_ws c; outputBuffer := total;
                 flushTimeout := Some (timeouts W) |} /\
     frames (cl_ws c) (log W') = frames (cl_ws c) (log W) ++ [Output total] /\
     Map_get p (dataHandlers W')
       = Some {| cl_ws := cl_ws c; outputBuffer := ""; flushTimeout := None |} /\
     no_flush_pending p W').
Proof.
  intros G O. split; [|split].
  - intros data now Big. cbn [dispatch]. unfold onData_callback. rewrite G.
    cbn [outputBuffer cl_ws flushTimeout].
    destruct (Z.ltb_spec 8192 (Z.of_nat (String.length (outputBuffer c +++ data)))); [|lia].
    unfold flush.
    assert (F : forall X, dataHandlers X
                          = Map_set p {| cl_ws := cl_ws c;
                                         outputBuffer := outputBuffer c +++ data;
                                         flushTimeout := flushTimeout c |} (dataHandlers W) ->
                          readyState X = readyState W ->
                          Map_get p (dataHandlers X)
                          = Some {| cl_ws := cl_ws c;
                                    outputBuffer := outputBuffer c +++ data;
                                    flushTimeout := flushTimeout c |})
      by (intros X -> _; apply Map_get_set_eq).
    destruct (flushTimeout c) as [id|]; rewrite F by reflexivity;
      cbn [outputBuffer cl_ws];
      (destruct (Z.ltb_spec 0 (Z.of_nat (String.length (outputBuffer c +++ data)))); [|lia]);
      unfold send, store, clearTimeout; cbn; rewrite O; cbn;
      rewrite Map_get_set_eq; auto.
  - intros t1 d1 writes B T Q F total L burst W'.
    assert (First : dispatch env t1 (pty_data p d1) (advance env t1 W)
                    = pending p (cl_ws c) d1 (timeouts W) (t1 + 5) W).
    { assert (A : advance env t1 W = W) by (unfold advance; rewrite Q; reflexivity).
      rewrite A. cbn [dispatch]. unfold onData_callback. rewrite G, B, T.
      cbn [outputBuffer cl_ws flushTimeout String.append].
      assert (Z.of_nat (String.length d1) <= 8192).
      { unfold total in L. cbn [joined] in L. rewrite length_append in L. lia. }
      destruct (Z.ltb_spec 8192 (Z.of_nat (String.length d1))); [lia|].
      unfold setTimeout, store, pending. cbn. rewrite Q. cbn. now rewrite Map_set_set. }
    assert (Burst : burst = pending p (cl_ws c) total (timeouts W) (t1 + 5) W).
    { unfold burst. cbn [writes_of map run fst snd]. rewrite First.
      apply (pending_burst env p (cl_ws c) writes d1); [exact F | exact (proj2 L)]. }
    assert (Flush := pending_flush env p (cl_ws c) total (timeouts W) (t1 + 5) (t1 + 5) W
                       (Z.le_refl _) O (proj1 L)).
    unfold W'. rewrite Burst, Flush. cbn. rewrite Map_get_set_eq. auto.
  - intros t1 d1 writes B T P D E F total L burst W'.
    assert (G' : Map_get p (dataHandlers W)
                 = Some {| cl_ws := cl_ws c; outputBuffer := ""; flushTimeout := None |}).
    { rewrite G. destruct c as [w b t]. cbn in B, T. now subst. }
    assert (L1 : Z.of_nat (String.length d1) <= 8192).
    { unfold total in L. cbn [joined] in L. rewrite length_append in L. lia. }
    destruct (holding_first env p (cl_ws c) d1 t1 W G' O P D E L1) as (H1 & F1).
    destruct (holding_burst env p (cl_ws c) writes d1 (timeouts W) (t1 + 5) _ H1 F (proj2 L))
      as (Hb & Fb).
    assert (Hb' : holding p (cl_ws c) total (timeouts W) (t1 + 5) burst) by exact Hb.
    destruct (holding_flush env p (cl_ws c) total (timeouts W) (t1 + 5) (t1 + 5) burst Hb'
                (Z.le_refl _) (proj1 L)) as (Ff & Cf & Pf).
    assert (Fb' : frames (cl_ws c) (log burst) = frames (cl_ws c) (log W)).
    { etransitivity; [exact Fb | exact F1]. }
    split; [exact Fb'|]. split; [exact (proj1 Hb')|].
    split; [unfold W'; rewrite Ff, Fb'; reflexivity|].
    split; [exact Cf | exact Pf].
Qed.

Lemma output_coalescing_witness :
  log (advance quiet 5005
         (run quiet (writes_of 0%nat [(5000, "to"); (5002, "ta"); (5004, "l")])
            authenticated_world))
  = log authenticated_world ++ [ws_send 1%nat (Output "total")] /\
  frames 2%nat
    (log (advance quiet 5005
            (run quiet (writes_of 1%nat [(5000, "to"); (5002, "ta"); (5004, "l")])
               two_sessions)))
  = frames 2%nat (log two_sessions) ++ [Output "total"].
Proof.
  split.
  - destruct (output_coalescing quiet authenticated_world 0%nat
                {| cl_ws := 1%nat; outputBuffer := ""; flushTimeout := None |})
      as (_ & burst & _); [reflexivity | reflexivity |].
    destruct (burst 5000 "to" [(5002, "ta"); (5004, "l")]) as (_ & L & _).
    + reflexivity.
    + reflexivity.
    + reflexivity.
    + repeat constructor.
    + vm_compute. split; [reflexivity | discriminate].
    + exact L.
  - destruct (output_coalescing quiet two_sessions 1%nat
                {| cl_ws := 2%nat; outputBuffer := ""; flushTimeout := None |})
      as (_ & _ & among); [reflexivity | reflexivity |].
    destruct (among 5000 "to" [(5002, "ta"); (5004, "l")]) as (_ & _ & L & _).
    + reflexivity.
    + reflexivity.
    + unfold no_flush_pending.
      change (timers two_sessions) with [(0%nat, (5003, 0%nat))].
      repeat constructor. discriminate.
    + unfold timers_distinct.
      change (timers two_sessions) with [(0%nat, (5003, 0%nat))].
      change (timeouts two_sessions) with 1%nat.
      split; repeat constructor. intros [].
    + intros q w Q N. unfold socket_of in Q.
      change (dataHandlers two_sessions)
        with [ (0%nat, {| cl_ws := 1%nat; outputBuffer := "x"; flushTimeout := Some 0%nat |});
               (1%nat, {| cl_ws := 2%nat; outputBuffer := ""; flushTimeout := None |}) ] in Q.
      destruct q as [|[|q]]; cbn in Q; [injection Q as <-; discriminate | contradiction
                                       | discriminate Q].
    + repeat constructor.
    + vm_compute. split; [reflexivity | discriminate].
    + exact L.
Defined.

(** * More of the code *)

(** ** Issuing and validating tokens *)

Lemma split_acc_free (sep : ascii) (a cur : string) :
  free_of sep a = true -> split_acc sep cur a = [cur +++ a].
Proof.
  revert cur. induction a as [|c a IH]; intros cur; cbn.
  - now rewrite append_nil_r.
  - destruct (Ascii.eqb c sep); cbn; [discriminate|].
    intros N. rewrite IH by exact N. now rewrite append_assoc.
Qed.

Lemma split_acc_sep (sep : ascii) (a b cur : string) :
  free_of sep a = true ->
  split_acc sep cur (a +++ String sep b) = (cur +++ a) :: split_acc sep "" b.
Proof.
  revert cur. induction a as [|c a IH]; intros cur; cbn.
  - rewrite Ascii.eqb_refl. now rewrite append_nil_r.
  - destruct (Ascii.eqb c sep); cbn; [discriminate|].
    intros N. rewrite IH by exact N. now rewrite append_assoc.
Qed.

(** Three fields without colon, joined by colons, split into the three. *)
Lemma split_three (a b c : string) :
  free_of ":" a = true -> free_of ":" b = true -> free_of ":" c = true ->
  split ":" ((a +++ ":" +++ b) +++ ":" +++ c) = [a; b; c].
Proof.
  intros A B C. unfold split. rewrite append_assoc.
  change (split_acc ":" "" (a +++ String ":" (b +++ String ":" c)) = [a; b; c]).
  rewrite split_acc_sep by exact A.
  rewrite split_acc_sep by exact B.
  rewrite split_acc_free by exact C. reflexivity.
Qed.

Lemma digits_horner (u : Decimal.uint) (a : Z) :
  digits (Some a) (NilEmpty.string_of_uint u) = Some (horner u a).
Proof.
  revert a. induction u; intros a; cbn [NilEmpty.string_of_uint horner];
    [reflexivity | ..];
    cbn [digits]; match goal with |- context [digit ?c] =>
                    let v := eval vm_compute in (digit c) in
                    change (digit c) with v end;
    cbv iota beta; apply IHu.
Qed.

Lemma digits_first (u : Decimal.uint) :
  u <> Decimal.Nil ->
  digits None (NilEmpty.string_of_uint u) = Some (horner u 0).
Proof.
  destruct u; intros N; [contradiction | ..];
    cbn [NilEmpty.string_of_uint horner digits];
    match goal with |- context [digit ?c] =>
      let v := eval vm_compute in (digit c) in change (digit c) with v end;
    cbv iota beta; rewrite digits_horner; reflexivity.
Qed.

Lemma horner_acc (u : Decimal.uint) (acc : positive) :
  horner u (Z.pos acc) = Z.pos (Pos.of_uint_acc u acc).
Proof.
  revert acc. induction u; intros acc; cbn [horner Pos.of_uint_acc];
    [reflexivity | ..];
    rewrite <- IHu; f_equal; lia.
Qed.

Lemma horner_of_uint (u : Decimal.uint) : horner u 0 = Z.of_N (Pos.of_uint u).
Proof.
  induction u; cbn [horner Pos.of_uint]; [reflexivity | exact IHu | ..];
    cbn [Z.of_N]; rewrite <- horner_acc; reflexivity.
Qed.

Lemma uint_starts_with_digit (u : Decimal.uint) :
  u <> Decimal.Nil ->
  exists c r, NilEmpty.string_of_uint u = String c r /\
              isWhiteSpace c = false /\ c <> "-"%char /\ c <> "+"%char.
Proof.
  destruct u; intros N; [contradiction | ..]; cbn [NilEmpty.string_of_uint];
    eexists _, _; (split; [reflexivity|]); repeat split; discriminate.
Qed.

(** [parseInt] reads back an integer written in decimal digits. *)
Lemma parseInt_decimal (z : Z) : parseInt (decimal z) = Int z.
Proof.
  unfold decimal.
  assert (P : forall p, parseInt (NilEmpty.string_of_uint (Pos.to_uint p)) = Int (Z.pos p)
                        /\ digits None (NilEmpty.string_of_uint (Pos.to_uint p))
                           = Some (Z.pos p)).
  { intros p. pose proof (Unsigned.to_uint_nonnil p) as NN.
    assert (D : digits None (NilEmpty.string_of_uint (Pos.to_uint p)) = Some (Z.pos p)).
    { rewrite digits_first by exact NN. rewrite horner_of_uint, Unsigned.of_to. reflexivity. }
    split; [|exact D].
    destruct (uint_starts_with_digit _ NN) as (c & r & E & Wc & Mc & Pc).
    unfold parseInt. rewrite E in *. cbn [trimStart]. rewrite Wc.
    destruct (Ascii.eqb_spec c "-"); [contradiction|].
    destruct (Ascii.eqb_spec c "+"); [contradiction|].
    assert (S : (let '(sign, rest) :=
                   match String c r with
                   | String "-" r0 => (-1, r0)
                   | String "+" r0 => (1, r0)
                   | _ => (1, String c r)
                   end in
                 match digits None rest with
                 | Some n1 => Int (sign * n1)
                 | None => NaN
                 end)
                = match digits None (String c r) with
                  | Some n1 => Int (1 * n1)
                  | None => NaN
                  end).
    { destruct c as [[|] [|] [|] [|] [|] [|] [|] [|]]; try reflexivity; contradiction. }
    rewrite S, D. reflexivity. }
  assert (Q : forall p, NilZero.string_of_uint (Pos.to_uint p)
                        = NilEmpty.string_of_uint (Pos.to_uint p)).
  { intros p. pose proof (Unsigned.to_uint_nonnil p) as NN.
    destruct (Pos.to_uint p); try contradiction; reflexivity. }
  destruct z as [|p|p].
  - reflexivity.
  - cbn [Z.to_int NilZero.string_of_int]. rewrite Q. apply P.
  - cbn [Z.to_int NilZero.string_of_int]. rewrite Q.
    unfold parseInt. cbn [trimStart].
    change (isWhiteSpace "-") with false. cbv iota.
    destruct (P p) as (_ & D). rewrite D. reflexivity.
Qed.

Lemma uint_free_of_colon (u : Decimal.uint) :
  free_of ":" (NilEmpty.string_of_uint u) = true.
Proof. induction u; cbn; auto. Qed.

Lemma decimal_free_of_colon (z : Z) : free_of ":" (decimal z) = true.
Proof.
  unfold decimal.
  destruct (Z.to_int z) as [u|u]; cbn [NilZero.string_of_int];
    (destruct u; [reflexivity | ..]);
    cbn [NilZero.string_of_uint free_of]; try apply uint_free_of_colon;
    exact (uint_free_of_colon _).
Qed.

Lemma free_of_append (sep : ascii) (a b : string) :
  free_of sep (a +++ b) = free_of sep a && free_of sep b.
Proof.
  induction a as [|c a IH]; cbn; [reflexivity|]. now rewrite IH, andb_assoc.
Qed.

Lemma exponential_free_of_colon (v : Z) : free_of ":" (exponential v) = true.
Proof.
  unfold exponential.
  pose proof (decimal_free_of_colon (significand (decimal_length v) v)) as D.
  destruct (decimal (significand (decimal_length v) v)) as [|d rest]; [reflexivity|].
  cbn [free_of] in D. apply andb_true_iff in D. destruct D as (Dd & Dr).
  cbn [String.append free_of]. rewrite Dd. cbn [andb].
  rewrite free_of_append. cbn [free_of].
  rewrite decimal_free_of_colon.
  destruct rest; [reflexivity|]. cbn [free_of] in *. now rewrite Dr.
Qed.

(** The safe integers are doubles, and are printed digit for digit. *)
Lemma nearest_double_safe (z : Z) :
  Z.abs z <= MAX_SAFE_INTEGER -> nearest_double z = z.
Proof.
  intros S. unfold nearest_double.
  destruct (Z.leb_spec (Z.abs z) MAX_SAFE_INTEGER); [reflexivity | lia].
Qed.

Lemma safe_is_finite (z : Z) : Z.abs z <= MAX_SAFE_INTEGER -> infinite z = false.
Proof.
  intros S. unfold infinite, Infinity.
  destruct (Z.leb_spec (2 ^ 1024) (Z.abs z)) as [L|]; [|reflexivity].
  assert (2 ^ 53 < 2 ^ 1024) by (apply Z.pow_lt_mono_r; lia).
  unfold MAX_SAFE_INTEGER in S. lia.
Qed.

Lemma toString_safe (z : Z) :
  Z.abs z <= MAX_SAFE_INTEGER -> Number_toString (Int z) = decimal z.
Proof.
  intros S. unfold Number_toString. rewrite nearest_double_safe by exact S.
  destruct (Z.leb_spec (Z.abs z) MAX_SAFE_INTEGER); [reflexivity | lia].
Qed.

Lemma toString_free_of_colon (n : Number) : free_of ":" (Number_toString n) = true.
Proof.
  destruct n as [|z]; [reflexivity|]. unfold Number_toString.
  set (x := nearest_double z).
  destruct (Z.abs x <=? MAX_SAFE_INTEGER); [apply decimal_free_of_colon|].
  rewrite free_of_append.
  assert (Sg : free_of ":" (if x <? 0 then String "-" EmptyString else EmptyString) = true)
    by (destruct (x <? 0); reflexivity).
  rewrite Sg. cbn [andb].
  destruct (infinite x); [reflexivity|]. cbv zeta.
  destruct (_ <? 10 ^ 21); [apply decimal_free_of_colon | apply exponential_free_of_colon].
Qed.

(** Sums and products that stay among the safe integers are exact. *)
Lemma Number_mul_safe (x y : Z) :
  Z.abs x <= MAX_SAFE_INTEGER -> Z.abs y <= MAX_SAFE_INTEGER ->
  Z.abs (x * y) <= MAX_SAFE_INTEGER ->
  Number_mul (Int x) (Int y) = Int (x * y).
Proof.
  intros X Y P. unfold Number_mul.
  rewrite (nearest_double_safe x X), (nearest_double_safe y Y).
  rewrite (safe_is_finite x X), (safe_is_finite y Y). cbn [orb].
  now rewrite nearest_double_safe.
Qed.

Lemma Number_add_safe (x y : Z) :
  Z.abs x <= MAX_SAFE_INTEGER -> Z.abs y <= MAX_SAFE_INTEGER ->
  Z.abs (x + y) <= MAX_SAFE_INTEGER ->
  Number_add (Int x) (Int y) = Int (x + y).
Proof.
  intros X Y P. unfold Number_add.
  rewrite (nearest_double_safe x X), (nearest_double_safe y Y).
  rewrite (safe_is_finite x X), (safe_is_finite y Y). cbn [andb].
  now rewrite nearest_double_safe.
Qed.

Lemma land_255_range (y : Z) : 0 <= Z.land y 255 < 256.
Proof.
  change 255 with (Z.ones 8). rewrite Z.land_ones by lia. apply Z.mod_pos_bound. lia.
Qed.

Lemma be_bytes_range (n : nat) (x : Z) :
  Forall (fun b => 0 <= b < 256) (Sha256.be_bytes n x).
Proof.
  induction n as [|n IH]; cbn [Sha256.be_bytes]; constructor;
    [apply land_255_range | exact IH].
Qed.

(** A digest is made of bytes. *)
Lemma sha256_range (msg : Buffer) : Forall (fun b => 0 <= b < 256) (Sha256.sha256 msg).
Proof.
  unfold Sha256.sha256. apply Forall_flat_map, Forall_forall.
  intros x _. apply be_bytes_range.
Qed.

Lemma hex_digit_free (n : Z) : 0 <= n < 16 -> Ascii.eqb (Sha256.hex_digit n) ":" = false.
Proof.
  intros R.
  replace n with (Z.of_nat (Z.to_nat n)) by lia.
  assert (B : (Z.to_nat n < 16)%nat) by lia.
  revert B. generalize (Z.to_nat n) as m. intros m B.
  do 16 (destruct m as [|m]; [reflexivity|]). lia.
Qed.

Lemma hex_free_of_colon (bs : Buffer) :
  Forall (fun b => 0 <= b < 256) bs -> free_of ":" (Sha256.hex bs) = true.
Proof.
  induction 1 as [|b bs R _ IH]; [reflexivity|].
  cbn [Sha256.hex free_of]. rewrite !hex_digit_free, IH; [reflexivity | |].
  - change 15 with (Z.ones 4). rewrite Z.land_ones by lia. apply Z.mod_pos_bound. lia.
  - rewrite Z.shiftr_div_pow2 by lia. change (2 ^ 4) with 16.
    split; [apply Z.div_pos; lia | apply Z.div_lt_upper_bound; lia].
Qed.

Lemma createSignature_free_of_colon (a : AuthService.t) (payload : string) :
  free_of ":" (AuthService.createSignature a payload) = true.
Proof.
  unfold AuthService.createSignature, Sha256.hmac. apply hex_free_of_colon, sha256_range.
Qed.

(** The token of a service whose arithmetic stays among the safe
    integers. *)
Lemma issued_token_validates (key : string) (ttl issued now : Z) :
  Z.abs issued <= MAX_SAFE_INTEGER ->
  Z.abs (ttl * 1000) <= MAX_SAFE_INTEGER ->
  Z.abs (issued + ttl * 1000) <= MAX_SAFE_INTEGER ->
  let a := {| AuthService.secret := key; AuthService.tokenExpiry := Int ttl |} in
  snd (AuthService.generateToken a issued) = Int (issued + ttl * 1000) /\
  AuthService.validateToken a now (fst (AuthService.generateToken a issued))
  = (now <=? issued + ttl * 1000).
Proof.
  intros Si Sm Ss a.
  assert (St : Z.abs ttl <= MAX_SAFE_INTEGER) by lia.
  assert (S1000 : Z.abs 1000 <= MAX_SAFE_INTEGER) by (unfold MAX_SAFE_INTEGER; lia).
  unfold AuthService.generateToken, AuthService.validateToken.
  cbn [fst snd AuthService.tokenExpiry a].
  rewrite (Number_mul_safe ttl 1000 St S1000 Sm).
  rewrite (Number_add_safe issued (ttl * 1000) Si Sm Ss).
  split; [reflexivity|].
  rewrite (toString_safe issued Si), (toString_safe _ Ss).
  set (ts := decimal issued).
  set (ex := decimal (issued + ttl * 1000)).
  set (sig := AuthService.createSignature a (ts +++ ":" +++ ex)).
  rewrite split_three;
    [| apply decimal_free_of_colon | apply decimal_free_of_colon
     | apply createSignature_free_of_colon].
  fold sig. rewrite String.eqb_refl. cbn [negb].
  unfold ex. rewrite parseInt_decimal. cbn [Number_gt].
  destruct (Z.gtb_spec now (issued + ttl * 1000)), (Z.leb_spec now (issued + ttl * 1000));
    (reflexivity || lia).
Qed.

(** Beyond the safe integers the service does not get its own token
    back: with a lifetime of 10^18 seconds the expiry is printed as
    [1.0000000017e+21], which [parseInt] reads as 1, and the token is
    refused from the start. *)
Example generateToken_beyond_safe_integers :
  let a := {| AuthService.secret := "s3cret"; AuthService.tokenExpiry := Int (10 ^ 18) |} in
  let token := fst (AuthService.generateToken a 1700000000000) in
  nth 1 (split ":" token) "" = "1.0000000017e+21" /\
  parseInt "1.0000000017e+21" = Int 1 /\
  AuthService.validateToken a 1700000000000 token = false.
Proof. vm_compute. repeat split. Qed.

(** X1.  A token issued at time [issued] with a lifetime of [ttl]
    seconds, where these, the lifetime in milliseconds and the expiry
    are safe integers, expires at [issued + 1000 * ttl] and is valid at
    exactly the times up to that expiry, that time included, whatever
    the secret. *)
Theorem token_valid_until_expiry (key : string) (ttl issued now : Z) :
  Z.abs issued <= MAX_SAFE_INTEGER ->
  Z.abs (ttl * 1000) <= MAX_SAFE_INTEGER ->
  Z.abs (issued + ttl * 1000) <= MAX_SAFE_INTEGER ->
  let a := {| AuthService.secret := key; AuthService.tokenExpiry := Int ttl |} in
  snd (AuthService.generateToken a issued) = Int (issued + ttl * 1000) /\
  AuthService.validateToken a now (fst (AuthService.generateToken a issued))
  = (now <=? issued + ttl * 1000).
Proof.
  intros Si Sm Ss a.
  destruct (issued_token_validates key ttl issued now Si Sm Ss) as (E & V).
  split; [exact E | exact V].
Qed.

Lemma token_valid_until_expiry_witness :
  AuthService.validateToken service 1700003600000
    (fst (AuthService.generateToken service 1700000000000)) = true /\
  AuthService.validateToken service 1700003600001
    (fst (AuthService.generateToken service 1700000000000)) = false.
Proof.
  split.
  - destruct (token_valid_until_expiry "s3cret" 3600 1700000000000 1700003600000)
      as (_ & V); [vm_compute; discriminate | vm_compute; discriminate
                  | vm_compute; discriminate | exact V].
  - destruct (token_valid_until_expiry "s3cret" 3600 1700000000000 1700003600001)
      as (_ & V); [vm_compute; discriminate | vm_compute; discriminate
                  | vm_compute; discriminate | exact V].
Defined.

(** X2.  A token that is valid at some time is valid at every earlier
    time: validity is only ever lost by the passing of time. *)
Theorem validity_only_lost_with_time (a : AuthService.t) (token : string) (now earlier : Z) :
  AuthService.validateToken a now token = true ->
  earlier <= now ->
  AuthService.validateToken a earlier token = true.
Proof.
  intros V E. apply validateToken_true_iff in V.
  destruct V as (ts & ex & sg & S & G & X).
  apply validateToken_true_iff. exists ts, ex, sg. split; [exact S|]. split; [exact G|].
  destruct (parseInt ex) as [|z]; [reflexivity|]. cbn [Number_gt] in *.
  destruct (Z.gtb_spec now z); [discriminate|].
  destruct (Z.gtb_spec earlier z); [lia | reflexivity].
Qed.

Lemma validity_only_lost_with_time_witness :
  AuthService.validateToken service 1700000000500
    (fst (AuthService.generateToken service 1700000000000)) = true.
Proof.
  apply (validity_only_lost_with_time service _ 1700003600000 1700000000500).
  - vm_compute. reflexivity.
  - lia.
Defined.

(** ** Shell selection *)

(** X3.  [detectShell] always answers with a shell, never the empty
    string: one that exists on disk, or [/bin/sh] as the last resort,
    also when the user database cannot be read. *)
Theorem detectShell_gives_a_shell (h : Shell.Host) :
  truthy (Shell.detectShell h) = true /\
  (Shell.existsSync h (Shell.detectShell h) = true \/ Shell.detectShell h = "/bin/sh").
Proof.
  unfold Shell.detectShell.
  destruct (Shell.passwd_shell h) as [shell|] eqn:P.
  - unfold Shell.passwd_shell in P.
    destruct (Shell.username h), (Shell.passwd h); try discriminate P.
    destruct (find _ _); [|discriminate P].
    destruct (truthy s1); [|discriminate P].
    destruct (truthy _ && Shell.existsSync h _) eqn:U; [|discriminate P].
    injection P as <-. apply andb_true_iff in U. tauto.
  - destruct (find (Shell.usable h) (Shell.fallbacks h)) as [[shell|]|] eqn:F;
      try (split; [reflexivity | right; reflexivity]).
    apply find_some in F. destruct F as (_ & U). cbn in U.
    apply andb_true_iff in U. tauto.
Qed.

Lemma split_acc_concat (sep : ascii) (lines : list string) :
  lines <> [] -> Forall (fun l => free_of sep l = true) lines ->
  split sep (String.concat (String sep "") lines) = lines.
Proof.
  unfold split. induction lines as [|a [|b r] IH]; intros NE F.
  - contradiction.
  - cbn. pose proof (Forall_inv F) as Ha. cbn beta in Ha. now rewrite split_acc_free.
  - pose proof (Forall_inv F) as Ha. cbn beta in Ha.
    change (String.concat (String sep "") (a :: b :: r))
      with (a +++ String sep (String.concat (String sep "") (b :: r))).
    rewrite split_acc_sep by exact Ha. cbn [String.append].
    f_equal. apply IH; [discriminate | exact (Forall_inv_tail F)].
Qed.

Lemma find_skips {A : Type} (f : A -> bool) (before after : list A) (x : A) :
  Forall (fun y => f y = false) before -> f x = true ->
  find f (before ++ x :: after) = Some x.
Proof.
  induction 1 as [|y before Hy _ IH]; intros X; cbn; [now rewrite X | now rewrite Hy, IH].
Qed.

Lemma last_app_one {A : Type} (l : list A) (x d : A) : List.last (l ++ [x]) d = x.
Proof. apply last_last. Qed.

(** X4.  The login shell of the user's entry in [/etc/passwd] wins over
    [$SHELL] and the conventional paths: in a file of lines without
    line break, where the first line that starts with the user's name
    and a colon is the entry [name:...:shell] of colon-free fields and
    that shell, trimmed, exists, [detectShell] returns it. *)
Theorem passwd_entry_wins (h : Shell.Host) (name shell : string)
  (fields before after : list string) :
  Shell.username h = Some name ->
  Shell.passwd h
    = Some (unlines (before ++ colon_separated (name :: fields ++ [shell]) :: after)) ->
  Forall (fun l => free_of "010" l = true)
    (before ++ colon_separated (name :: fields ++ [shell]) :: after) ->
  Forall (fun f => free_of ":" f = true) (name :: fields ++ [shell]) ->
  Forall (fun l => startsWith l (name +++ ":") = false) before ->
  truthy (trim shell) = true ->
  Shell.existsSync h (trim shell) = true ->
  Shell.detectShell h = trim shell.
Proof.
  intros U P NL NC B T E.
  set (entry := colon_separated (name :: fields ++ [shell])) in *.
  assert (S : startsWith entry (name +++ ":") = true).
  { unfold entry, colon_separated, startsWith.
    replace (String.concat ":" (name :: fields ++ [shell]))
      with ((name +++ ":") +++ String.concat ":" (fields ++ [shell])).
    - apply prefix_append.
    - rewrite append_assoc. destruct (fields ++ [shell]) eqn:Q; [|reflexivity].
      destruct fields; discriminate Q. }
  assert (Y : truthy entry = true).
  { unfold truthy. destruct entry; [|reflexivity]. unfold startsWith in S.
    destruct name; discriminate S. }
  unfold Shell.detectShell, Shell.passwd_shell. rewrite U, P.
  unfold unlines. rewrite split_acc_concat by (exact NL || (destruct before; discriminate)).
  rewrite (find_skips _ before after entry B S). rewrite Y. cbv zeta.
  assert (L : List.last (split ":" entry) "" = shell).
  { unfold entry, colon_separated.
    rewrite split_acc_concat by (exact NC || discriminate).
    change (name :: fields ++ [shell]) with ((name :: fields) ++ [shell]).
    apply last_app_one. }
  rewrite L, T, E. reflexivity.
Qed.

Lemma passwd_entry_wins_witness :
  Shell.detectShell
    {| Shell.username := Some "term";
       Shell.passwd := Some (unlines [ "root:x:0:0:root:/root:/bin/bash";
                                       "term:x:1000:1000:Web Term:/home/term:/usr/bin/fish ";
                                       "" ]);
       Shell.existsSync := fun path => String.eqb path "/usr/bin/fish"
                                       || String.eqb path "/bin/bash";
       Shell.SHELL := Some "/bin/bash" |}
  = "/usr/bin/fish".
Proof.
  apply (passwd_entry_wins _ "term" "/usr/bin/fish "
           ["x"; "1000"; "1000"; "Web Term"; "/home/term"]
           ["root:x:0:0:root:/root:/bin/bash"] [""]).
  - reflexivity.
  - reflexivity.
  - repeat constructor.
  - repeat constructor.
  - repeat constructor.
  - reflexivity.
  - reflexivity.
Defined.

Lemma get_put_eq (k v : string) (o : Shell.Dict) : Shell.get k (Shell.put k v o) = Some v.
Proof.
  induction o as [|[k' v'] o IH]; cbn.
  - now rewrite String.eqb_refl.
  - destruct (String.eqb k k') eqn:E; cbn; [now rewrite String.eqb_refl | now rewrite E].
Qed.

Lemma get_put_neq (k k' v : string) (o : Shell.Dict) :
  k <> k' -> Shell.get k (Shell.put k' v o) = Shell.get k o.
Proof.
  intros N. apply String.eqb_neq in N.
  induction o as [|[k0 v0] o IH]; cbn.
  - now rewrite N.
  - destruct (String.eqb k' k0) eqn:E; cbn.
    + apply String.eqb_eq in E. subst k0. now rewrite N.
    + now rewrite IH.
Qed.

(** A spread gives the properties of its source and leaves the others. *)
Lemma get_spread (k : string) (source o : Shell.Dict) :
  NoDup (map fst source) ->
  Shell.get k (Shell.spread o source)
  = match Shell.get k source with
    | Some v => Some v
    | None => Shell.get k o
    end.
Proof.
  unfold Shell.spread. revert o.
  induction source as [|[k' v'] source IH]; intros o N; [reflexivity|].
  cbn [fold_left fst snd Shell.get]. inversion N as [|? ? Hn Hd]; subst.
  rewrite IH by exact Hd.
  destruct (String.eqb_spec k k') as [->|D].
  - assert (G : Shell.get k' source = None).
    { clear -Hn. induction source as [|[k0 v0] source IH]; [reflexivity|].
      cbn in *. destruct (String.eqb_spec k' k0) as [->|]; [tauto | apply IH; tauto]. }
    now rewrite G, get_put_eq.
  - destruct (Shell.get k source); [reflexivity | now apply get_put_neq].
Qed.

(** X5.  In the environment that [spawn] hands to the shell the
    caller's overrides win, then come the fixed terminal settings
    (TERM, COLORTERM, HOME, USER, SHELL, and LANG with its default), and
    every other variable is the process's own. *)
Theorem spawn_env_layers (process_env config_env : Shell.Dict)
  (homedir username shell k : string) :
  NoDup (map fst process_env) ->
  NoDup (map fst config_env) ->
  Shell.get k (Shell.spawn_env process_env homedir username shell config_env)
  = match Shell.get k config_env with
    | Some v => Some v
    | None =>
        if String.eqb k "LANG" then
          Some match Shell.get "LANG" process_env with
               | Some l => if truthy l then l else "en_US.UTF-8"
               | None => "en_US.UTF-8"
               end
        else if String.eqb k "SHELL" then Some shell
        else if String.eqb k "USER" then Some username
        else if String.eqb k "HOME" then Some homedir
        else if String.eqb k "COLORTERM" then Some "truecolor"
        else if String.eqb k "TERM" then Some "xterm-256color"
        else Shell.get k process_env
    end.
Proof.
  intros Np Nc. unfold Shell.spawn_env. rewrite get_spread by exact Nc.
  destruct (Shell.get k config_env); [reflexivity|].
  repeat match goal with
         | |- context [String.eqb k ?x] =>
             destruct (String.eqb_spec k x) as [->|?];
             [rewrite ?get_put_eq; reflexivity | rewrite get_put_neq by assumption]
         end.
  rewrite get_spread by exact Np. now destruct (Shell.get k process_env).
Qed.

Lemma spawn_env_layers_witness :
  Shell.get "TERM"
    (Shell.spawn_env [("TERM", "dumb"); ("PATH", "/usr/bin")] "/home/term" "term" "/bin/sh"
       [("EDITOR", "vi")])
  = Some "xterm-256color".
Proof.
  rewrite spawn_env_layers.
  - reflexivity.
  - repeat constructor; cbn; intuition discriminate.
  - repeat constructor; cbn; intuition discriminate.
Defined.

(** ** What the message handlers add to the log *)

Lemma extends_refl (P : Effect -> bool) (W : World) : extends P W W.
Proof. exists []. now rewrite app_nil_r. Qed.

Lemma extends_trans (P : Effect -> bool) (W1 W2 W3 : World) :
  extends P W1 W2 -> extends P W2 W3 -> extends P W1 W3.
Proof.
  intros (n1 & L1 & F1) (n2 & L2 & F2). exists (n1 ++ n2).
  rewrite L2, L1, <- app_assoc, forallb_app, F1, F2. auto.
Qed.

Lemma extends_effect (P : Effect -> bool) (e : Effect) (W : World) :
  P e = true -> extends P W (effect e W).
Proof. intros H. exists [e]. cbn. now rewrite H. Qed.

Lemma extends_same_log (P : Effect -> bool) (W W' : World) :
  log W' = log W -> extends P W W'.
Proof. intros E. exists []. now rewrite E, app_nil_r. Qed.

Lemma extends_weaken (P Q : Effect -> bool) (W W' : World) :
  (forall e, P e = true -> Q e = true) -> extends P W W' -> extends Q W W'.
Proof.
  intros I (n & L & F). exists n. split; [exact L|].
  rewrite forallb_forall in *. auto.
Qed.

Lemma extends_send (P : Effect -> bool) (ws : WebSocket) (f : Frame) (W : World) :
  P (ws_send ws f) = true -> extends P W (send ws f W).
Proof.
  intros H. unfold send. destruct (readyState W ws);
    [now apply extends_effect | apply extends_refl | apply extends_refl].
Qed.

Lemma extends_effect_send (P : Effect -> bool) (e : Effect) (ws : WebSocket) (f : Frame)
  (W : World) :
  P e = true -> P (ws_send ws f) = true -> extends P W (send ws f (effect e W)).
Proof.
  intros He Hs. apply (extends_trans P W (effect e W));
    [now apply extends_effect | now apply extends_send].
Qed.

Lemma send_readyState (ws : WebSocket) (f : Frame) (W : World) :
  readyState (send ws f W) = readyState W.
Proof. unfold send. now destruct (readyState W ws). Qed.

Section Handlers.
Variable env : Env.

Lemma handleInput_extends session data W :
  extends (fun e => match e with pty_write _ _ _ => true | _ => false end)
    W (handleInput env session data W) /\
  readyState (handleInput env session data W) = readyState W.
Proof.
  unfold handleInput, PTYManager.write.
  destruct (ptyProcess (pty session)); [destruct (pty_write_throws env _ _)|]; cbn;
    (split; [|reflexivity]); try apply extends_refl; now apply extends_effect.
Qed.

Lemma handleResize_extends session message W :
  extends (fun e => match e with pty_resize _ _ _ _ => true | _ => false end)
    W (handleResize env session message W) /\
  readyState (handleResize env session message W) = readyState W.
Proof.
  unfold handleResize, PTYManager.resize.
  destruct (ptyProcess (pty session)); cbn; (split; [|reflexivity]);
    [now apply extends_effect | apply extends_refl].
Qed.

Lemma handleFileUpload_extends ws session message W :
  extends (fun e => match e with
                    | fs_writeFileSync _ _ _ => true
                    | ws_send w _ => Nat.eqb w ws
                    | _ => false
                    end)
    W (handleFileUpload env ws session message W) /\
  readyState (handleFileUpload env ws session message W) = readyState W.
Proof.
  unfold handleFileUpload, sendError.
  cases; rewrite ?send_readyState; (split; [|reflexivity]);
    try (apply extends_send; cbn; apply Nat.eqb_refl);
    (apply extends_effect_send; [reflexivity | cbn; apply Nat.eqb_refl]).
Qed.

(** The result of routing a message whose type is not AUTH. *)
Lemma routeMessage_not_AUTH ws session message W :
  prop message "type" <> Some (JStr MessageType.AUTH) ->
  routeMessage env ws session message W = None \/
  routeMessage env ws session message W = Some (session, W) \/
  routeMessage env ws session message W
    = Some (session, handleInput env session (prop message "data") W) \/
  routeMessage env ws session message W
    = Some (session, handleResize env session message W) \/
  routeMessage env ws session message W
    = Some (session, handleFileUpload env ws session message W).
Proof.
  intros N. unfold routeMessage.
  destruct message; auto;
    destruct (prop _ "type") as [[| | |t| | |]|]; auto;
    (destruct (String.eqb_spec t MessageType.AUTH) as [->|_]; [now contradiction N|]);
    destruct (String.eqb t MessageType.INPUT), (String.eqb t MessageType.RESIZE),
             (String.eqb t MessageType.FILE_UPLOAD), (authenticated session); auto 6.
Qed.

End Handlers.

(** X6.  Only an AUTH message starts or ends anything: routing any
    other message leaves the session record as it is, keeps every
    socket in its state, and makes no call that spawns or kills a shell
    or closes or terminates a socket. *)
Theorem only_AUTH_touches_the_lifecycle (env : Env) (ws : WebSocket)
  (session session' : SessionState) (message : JSValue) (W W' : World) :
  prop message "type" <> Some (JStr MessageType.AUTH) ->
  routeMessage env ws session message W = Some (session', W') ->
  session' = session /\
  readyState W' = readyState W /\
  registry W' = registry W /\
  extends (fun e => negb (lifecycle e)) W W'.
Proof.
  intros N R.
  destruct (routeMessage_not_AUTH env ws session message W N) as [E | [E | [E | [E | E]]]];
    rewrite E in R; try discriminate R; injection R as <- <-.
  - repeat split. apply extends_refl.
  - destruct (handleInput_extends env session (prop message "data") W) as (X & S).
    repeat split; [exact S | apply handleInput_registry |].
    eapply extends_weaken; [|exact X]. now intros [].
  - destruct (handleResize_extends env session message W) as (X & S).
    repeat split; [exact S | apply handleResize_registry |].
    eapply extends_weaken; [|exact X]. now intros [].
  - destruct (handleFileUpload_extends env ws session message W) as (X & S).
    repeat split; [exact S | apply handleFileUpload_registry |].
    eapply extends_weaken; [|exact X]. now intros [].
Qed.

Lemma only_AUTH_touches_the_lifecycle_witness :
  readyState (handleFileUpload quiet 1%nat
                {| pty := {| ptyProcess := Some 0%nat; sessionId := "5e55" |};
                   authenticated := true; messageCount := 1; lastMinute := 1000;
                   isAlive := true |} traversal_upload authenticated_world)
  = readyState authenticated_world.
Proof.
  destruct (only_AUTH_touches_the_lifecycle quiet 1%nat
              {| pty := {| ptyProcess := Some 0%nat; sessionId := "5e55" |};
                 authenticated := true; messageCount := 1; lastMinute := 1000;
                 isAlive := true |}
              {| pty := {| ptyProcess := Some 0%nat; sessionId := "5e55" |};
                 authenticated := true; messageCount := 1; lastMinute := 1000;
                 isAlive := true |}
              traversal_upload authenticated_world
              (handleFileUpload quiet 1%nat
                 {| pty := {| ptyProcess := Some 0%nat; sessionId := "5e55" |};
                    authenticated := true; messageCount := 1; lastMinute := 1000;
                    isAlive := true |} traversal_upload authenticated_world))
    as (_ & S & _).
  - discriminate.
  - reflexivity.
  - exact S.
Defined.

(** X7.  The INPUT messages of an authenticated session that holds a
    process reach that process one call of [write] each, with the data
    as received and in the order of the messages; nothing else is
    called and the session is as before. *)
Theorem inputs_forwarded_in_order (env : Env) (ws : WebSocket) (session : SessionState)
  (p : IPty) (inputs : list JSValue) (W : World) :
  authenticated session = true ->
  ptyProcess (pty session) = Some p ->
  exists W' new,
    route_all env ws session (map INPUT_message inputs) W = Some (session, W') /\
    log W' = log W ++ new /\
    writes new = map (fun d => (p, Some d)) inputs /\
    List.length new = List.length inputs /\
    registry W' = registry W /\
    readyState W' = readyState W.
Proof.
  intros A P. revert W. induction inputs as [|d inputs IH]; intros W.
  - exists W, []. cbn. rewrite app_nil_r. repeat split.
  - cbn [map route_all].
    assert (R : routeMessage env ws session (INPUT_message d) W
                = Some (session, handleInput env session (Some d) W)).
    { unfold routeMessage, INPUT_message. cbn. rewrite A. reflexivity. }
    rewrite R.
    assert (H : exists ok, handleInput env session (Some d) W
                           = effect (pty_write p (Some d) ok) W).
    { unfold handleInput, PTYManager.write. rewrite P.
      destruct (pty_write_throws env (log W) p); eexists; reflexivity. }
    destruct H as (ok & H). rewrite H.
    destruct (IH (effect (pty_write p (Some d) ok) W)) as (W' & new & E & L & Wr & Len & Rg & Rs).
    exists W', (pty_write p (Some d) ok :: new). split; [exact E|].
    split; [rewrite L; cbn; now rewrite <- app_assoc|].
    split; [cbn; now rewrite Wr|]. split; [cbn; now rewrite Len|].
    split; [rewrite Rg; reflexivity | rewrite Rs; reflexivity].
Qed.

Lemma inputs_forwarded_in_order_witness :
  let session := {| pty := {| ptyProcess := Some 0%nat; sessionId := "5e55" |};
                    authenticated := true; messageCount := 1; lastMinute := 1000;
                    isAlive := true |} in
  let inputs := [JStr "l"; JStr "s"; JStr (String "013" "")] in
  exists W' new,
    route_all quiet 1%nat session (map INPUT_message inputs) authenticated_world
      = Some (session, W') /\
    log W' = log authenticated_world ++ new /\
    writes new = map (fun d => (0%nat, Some d)) inputs /\
    List.length new = List.length inputs /\
    registry W' = registry authenticated_world /\
    readyState W' = readyState authenticated_world.
Proof.
  cbv zeta.
  apply (inputs_forwarded_in_order quiet 1%nat _ 0%nat); reflexivity.
Defined.

(** X8.  A text frame whose value is not null and whose [type] is none
    of AUTH, INPUT, RESIZE and FILE_UPLOAD (or is missing) is ignored
    without any reply: once it has passed the limits, handling it only
    counts it. *)
Theorem other_messages_are_only_counted (env : Env) (ws : WebSocket)
  (session : SessionState) (data : Buffer) (message : JSValue) (now : Z) (W : World) :
  Map_get ws (sessions W) = Some session ->
  messageCount (count_message now session) <= rateLimit W ->
  Z.of_nat (List.length data) <= maxMessageSize W ->
  JSON_parse env (Buffer_toString env data) = Some message ->
  message <> JNull ->
  (forall t, prop message "type" = Some (JStr t) ->
             t <> MessageType.AUTH /\ t <> MessageType.INPUT /\
             t <> MessageType.RESIZE /\ t <> MessageType.FILE_UPLOAD) ->
  handleMessage env ws data false now W
  = set_sessions (Map_set ws (count_message now session) (sessions W)) W.
Proof.
  intros G C S J NN T. unfold handleMessage. rewrite G.
  set (counted := set_sessions (Map_set ws (count_message now session) (sessions W)) W).
  replace (rateLimit counted) with (rateLimit W) by reflexivity.
  destruct (Z.gtb_spec (messageCount (count_message now session)) (rateLimit W)); [lia|].
  unfold accept. replace (maxMessageSize counted) with (maxMessageSize W) by reflexivity.
  destruct (Z.gtb_spec (Z.of_nat (List.length data)) (maxMessageSize W)); [lia|].
  assert (D : decode env data false = Some message) by exact J. rewrite D.
  assert (R : routeMessage env ws (count_message now session) message counted
              = Some (count_message now session, counted)).
  { unfold routeMessage.
    destruct message; try contradiction; try reflexivity.
    destruct (prop (JObj fields) "type") as [[| | |t| | |]|] eqn:Q; try reflexivity.
    destruct (T t eq_refl) as (N1 & N2 & N3 & N4).
    apply String.eqb_neq in N1, N2, N3, N4. now rewrite N1, N2, N3, N4. }
  rewrite R. unfold counted. cbn [sessions set_sessions].
  rewrite Map_set_set. reflexivity.
Qed.

Lemma other_messages_are_only_counted_witness :
  log (handleMessage quiet 1%nat
         (utf8_encode ("{" +++ Json.quoted "type" +++ ":" +++ Json.quoted "output" +++ "}"))
         false 3000 authenticated_world)
  = log authenticated_world.
Proof.
  rewrite (other_messages_are_only_counted quiet 1%nat
             {| pty := {| ptyProcess := Some 0%nat; sessionId := "5e55" |};
                authenticated := true; messageCount := 1; lastMinute := 1000;
                isAlive := true |}
             _ (JObj [("type", JStr "output")]) 3000 authenticated_world).
  - reflexivity.
  - reflexivity.
  - vm_compute. discriminate.
  - vm_compute. discriminate.
  - reflexivity.
  - discriminate.
  - intros t E. injection E as <-. repeat split; discriminate.
Defined.

(** X9.  A frame larger than [maxMessageSize] is refused before it is
    read: on the open socket the ERROR 'Message too large' is sent, the
    message is counted, and nothing else changes, whatever the frame
    holds. *)
Theorem oversized_message_is_refused (env : Env) (ws : WebSocket) (session : SessionState)
  (data : Buffer) (isBinary : bool) (now : Z) (W : World) :
  Map_get ws (sessions W) = Some session ->
  messageCount (count_message now session) <= rateLimit W ->
  maxMessageSize W < Z.of_nat (List.length data) ->
  readyState W ws = OPEN ->
  handleMessage env ws data isBinary now W
  = effect (ws_send ws (Error "Message too large"))
      (set_sessions (Map_set ws (count_message now session) (sessions W)) W).
Proof.
  intros G C S O. unfold handleMessage. rewrite G.
  set (counted := set_sessions (Map_set ws (count_message now session) (sessions W)) W).
  replace (rateLimit counted) with (rateLimit W) by reflexivity.
  destruct (Z.gtb_spec (messageCount (count_message now session)) (rateLimit W)); [lia|].
  unfold accept. replace (maxMessageSize counted) with (maxMessageSize W) by reflexivity.
  destruct (Z.gtb_spec (Z.of_nat (List.length data)) (maxMessageSize W)); [|lia].
  unfold sendError, send. replace (readyState counted ws) with (readyState W ws) by reflexivity.
  now rewrite O.
Qed.

Lemma oversized_message_is_refused_witness :
  log (handleMessage quiet 1%nat AUTH_frame false 2000
         (handleConnection 1%nat "5e55" 1000 (WebSocketHandler.new 2000 16)))
  = [ws_send 1%nat (Error "Message too large")].
Proof.
  rewrite (oversized_message_is_refused quiet 1%nat
             {| pty := PTYManager.new "5e55"; authenticated := false; messageCount := 0;
                lastMinute := 1000; isAlive := true |});
    [reflexivity | reflexivity | vm_compute; discriminate | vm_compute; reflexivity
    | reflexivity].
Defined.

(** X10.  A text frame that is not JSON, or is the JSON [null], is
    answered with the ERROR 'Invalid message protocol' on the open
    socket; the session stays registered and only its counter moves. *)
Theorem malformed_frame_is_answered (env : Env) (ws : WebSocket) (session : SessionState)
  (data : Buffer) (now : Z) (W : World) :
  Map_get ws (sessions W) = Some session ->
  messageCount (count_message now session) <= rateLimit W ->
  Z.of_nat (List.length data) <= maxMessageSize W ->
  readyState W ws = OPEN ->
  JSON_parse env (Buffer_toString env data) = None \/
  JSON_parse env (Buffer_toString env data) = Some JNull ->
  handleMessage env ws data false now W
  = effect (ws_send ws (Error "Invalid message protocol"))
      (set_sessions (Map_set ws (count_message now session) (sessions W)) W).
Proof.
  intros G C S O J. unfold handleMessage. rewrite G.
  set (counted := set_sessions (Map_set ws (count_message now session) (sessions W)) W).
  replace (rateLimit counted) with (rateLimit W) by reflexivity.
  destruct (Z.gtb_spec (messageCount (count_message now session)) (rateLimit W)); [lia|].
  unfold accept. replace (maxMessageSize counted) with (maxMessageSize W) by reflexivity.
  destruct (Z.gtb_spec (Z.of_nat (List.length data)) (maxMessageSize W)); [lia|].
  assert (E : sendError ws "Invalid message protocol" counted
              = effect (ws_send ws (Error "Invalid message protocol")) counted).
  { unfold sendError, send.
    replace (readyState counted ws) with (readyState W ws) by reflexivity. now rewrite O. }
  unfold decode. destruct J as [-> | ->]; exact E.
Qed.

Lemma malformed_frame_is_answered_witness :
  log (handleMessage quiet 1%nat (utf8_encode "ls -la") false 3000 authenticated_world)
  = log authenticated_world ++ [ws_send 1%nat (Error "Invalid message protocol")].
Proof.
  rewrite (malformed_frame_is_answered quiet 1%nat
             {| pty := {| ptyProcess := Some 0%nat; sessionId := "5e55" |};
                authenticated := true; messageCount := 1; lastMinute := 1000;
                isAlive := true |});
    [reflexivity | reflexivity | vm_compute; discriminate | vm_compute; discriminate
    | reflexivity | left; reflexivity].
Defined.

(** X11.  When the shell cannot be spawned for a session without a
    process, AUTH leaves the session authenticated without a process
    and its socket no longer open; from then on its INPUT and RESIZE
    messages are dropped without any call or reply. *)
Theorem failed_spawn_drops_input (env : Env) (ws : WebSocket) (session : SessionState)
  (token : option JSValue) (W : World) :
  ptyProcess (pty session) = None ->
  pty_spawn_throws env (log W) = true ->
  let session' := fst (handleAuth env ws session token W) in
  let W' := snd (handleAuth env ws session token W) in
  authenticated session' = true /\
  ptyProcess (pty session') = None /\
  readyState W' ws <> OPEN /\
  forall message type later,
    prop message "type" = Some (JStr type) ->
    type = MessageType.INPUT \/ type = MessageType.RESIZE ->
    routeMessage env ws session' message later = Some (session', later).
Proof.
  intros P S. cbv zeta.
  unfold handleAuth, PTYManager.spawn. rewrite S. cbn [fst snd].
  split; [reflexivity|]. split; [exact P|]. split.
  - unfold close_ws, sendError, send. cbn.
    destruct (readyState W ws) eqn:O; cbn; rewrite ?O; cbn;
      rewrite ?Nat.eqb_refl; rewrite ?O; discriminate.
  - intros message type later T K. unfold routeMessage. rewrite T.
    destruct message; try discriminate T.
    destruct K as [-> | ->]; cbn;
      unfold handleInput, handleResize, PTYManager.write, PTYManager.resize;
      cbn; rewrite P; reflexivity.
Qed.

Lemma failed_spawn_drops_input_witness :
  let stuck := {| process_cwd := "/srv/app"; os_homedir := "/home/term";
                  detectShell := "/bin/sh"; JSON_parse := Json.parse;
                  Buffer_toString := ascii_toString; base64_decode := base64;
                  Buffer_from_object := fun _ => None;
                  pty_spawn_throws := fun _ => true;
                  pty_write_throws := fun _ _ => false;
                  pty_resize_throws := fun _ _ => false;
                  pty_kill_throws := fun _ _ => false;
                  fs_writeFileSync_throws := fun _ _ => false |} in
  let session := {| pty := PTYManager.new "5e55"; authenticated := false;
                    messageCount := 1; lastMinute := 1000; isAlive := true |} in
  routeMessage stuck 1%nat (fst (handleAuth stuck 1%nat session None connected))
    (INPUT_message (JStr "ls")) (snd (handleAuth stuck 1%nat session None connected))
  = Some (fst (handleAuth stuck 1%nat session None connected),
          snd (handleAuth stuck 1%nat session None connected)).
Proof.
  cbv zeta.
  match goal with
  | |- routeMessage ?e ?w (fst (handleAuth ?e ?w ?s ?t ?X)) ?m ?L = _ =>
      destruct (failed_spawn_drops_input e w s t X eq_refl eq_refl) as (_ & _ & _ & D);
      apply (D m "input" L); [reflexivity | left; reflexivity]
  end.
Defined.

(** ** Shutdown and the life of a connection *)

Lemma cleanup_entry_effects (env : Env) (W : World) (k : WebSocket) (s : SessionState) :
  Map_get k (sessions W) = Some s ->
  exists s' killed,
    sessions (cleanup_entry env W k) = Map_set k s' (sessions W) /\
    log (cleanup_entry env W k) = log W ++ killed ++ [ws_close k] /\
    (killed = [] /\ ptyProcess (pty s) = None \/
     exists p ok, ptyProcess (pty s) = Some p /\ killed = [pty_kill p ok]).
Proof.
  intros G. unfold cleanup_entry, PTYManager.kill. rewrite G.
  destruct (ptyProcess (pty s)) as [p|] eqn:P.
  - destruct (pty_kill_throws env (log W) p); eexists _, [pty_kill p _];
      (split; [|split; [|right; eauto]]);
      unfold close_ws; cbn;
      match goal with |- context [match ?r with _ => _ end] => destruct r end;
      cbn; rewrite <- ?app_assoc; reflexivity.
  - eexists _, []. split; [|split; [|left; auto]];
      unfold close_ws; cbn;
      match goal with |- context [match ?r with _ => _ end] => destruct r end;
      cbn; reflexivity.
Qed.

Lemma cleanup_fold (env : Env) (l pre : list (WebSocket * SessionState)) (W : World) :
  sessions W = pre ++ l ->
  NoDup (map fst (pre ++ l)) ->
  exists new,
    log (fold_left (cleanup_entry env) (map fst l) W) = log W ++ new /\
    forallb (fun e => match e with
                      | pty_kill _ _ | ws_close _ => true
                      | _ => false
                      end) new = true /\
    forall ws session, In (ws, session) l ->
      In (ws_close ws) new /\
      forall p, ptyProcess (pty session) = Some p -> exists ok, In (pty_kill p ok) new.
Proof.
  revert pre W. induction l as [|[k s] l IH]; intros pre W S N.
  - exists []. cbn. rewrite app_nil_r. repeat split; contradiction.
  - assert (Fk : ~ In k (map fst pre)).
    { rewrite map_app in N. apply NoDup_remove_2 in N. rewrite in_app_iff in N. tauto. }
    assert (G : Map_get k (sessions W) = Some s).
    { rewrite S, Map_get_app_fresh by exact Fk. cbn. now rewrite Nat.eqb_refl. }
    destruct (cleanup_entry_effects env W k s G) as (s' & killed & S1 & L1 & K).
    cbn [map fst fold_left].
    destruct (IH (pre ++ [(k, s')]) (cleanup_entry env W k)) as (new & L & F & A).
    + rewrite S1, S, Map_set_app_fresh by exact Fk. cbn [Map_set].
      rewrite Nat.eqb_refl. now rewrite <- app_assoc.
    + rewrite <- app_assoc. cbn. rewrite !map_app in *. exact N.
    + exists (killed ++ [ws_close k] ++ new). split; [|split].
      * rewrite L, L1. now rewrite <- !app_assoc.
      * rewrite !forallb_app, F.
        destruct K as [(-> & _) | (p & ok & _ & ->)]; reflexivity.
      * intros ws session [Q | Q].
        -- injection Q as <- <-. split.
           ++ apply in_or_app. right. left. reflexivity.
           ++ intros p Pp. destruct K as [(_ & Pn) | (q & ok & Pq & ->)]; [congruence|].
              exists ok. rewrite Pp in Pq. injection Pq as <-. left. reflexivity.
        -- destruct (A ws session Q) as (C & Kp). split.
           ++ apply in_or_app. right. right. exact C.
           ++ intros p Pp. destruct (Kp p Pp) as (ok & I). exists ok.
              apply in_or_app. right. right. exact I.
Qed.

(** X12.  [cleanup] empties the registry after calling [kill] on the
    process of every session that holds one and [close] on every
    registered socket, and calls nothing else. *)
Theorem cleanup_ends_every_session (env : Env) (W : World) :
  NoDup (map fst (sessions W)) ->
  sessions (cleanup env W) = [] /\
  exists new,
    log (cleanup env W) = log W ++ new /\
    forallb (fun e => match e with
                      | pty_kill _ _ | ws_close _ => true
                      | _ => false
                      end) new = true /\
    forall ws session, Map_get ws (sessions W) = Some session ->
      In (ws_close ws) new /\
      forall p, ptyProcess (pty session) = Some p -> exists ok, In (pty_kill p ok) new.
Proof.
  intros N. split; [reflexivity|].
  destruct (cleanup_fold env (sessions W) [] W eq_refl N) as (new & L & F & A).
  exists new. split; [exact L|]. split; [exact F|].
  intros ws session G. apply A. now apply Map_get_In.
Qed.

Lemma cleanup_ends_every_session_witness :
  log (cleanup quiet authenticated_world)
  = log authenticated_world ++ [pty_kill 0%nat true; ws_close 1%nat] /\
  sessions (cleanup quiet authenticated_world) = [].
Proof.
  destruct (cleanup_ends_every_session quiet authenticated_world) as (E & _).
  - repeat constructor. intros [].
  - split; [reflexivity | exact E].
Defined.



(** X14.  A session that answers every probe is never terminated by
    the heartbeat: after any number of periods, each with a tick and
    the socket's pong, its record is unchanged and no [terminate] has
    been called on its socket. *)
Theorem answered_probes_keep_the_session (n : nat) (ws : WebSocket)
  (session : SessionState) (W : World) :
  NoDup (map fst (sessions W)) ->
  Map_get ws (sessions W) = Some session ->
  isAlive session = true ->
  Map_get ws (sessions (rounds n ws W)) = Some session /\
  filter (is_terminate ws) (log (rounds n ws W)) = filter (is_terminate ws) (log W).
Proof.
  revert W. induction n as [|n IH]; intros W N G A; [auto|].
  cbn [rounds].
  destruct (heartbeat_tick W N) as (S1 & L1 & _).
  assert (G1 : Map_get ws (sessions (heartbeat W)) = Some (with_isAlive false session))
    by (rewrite S1, Map_get_flagged, G; reflexivity).
  assert (E : with_isAlive true (with_isAlive false session) = session)
    by (destruct session; cbn in *; subst; reflexivity).
  assert (Sp : sessions (pong ws (heartbeat W))
               = Map_set ws session (sessions (heartbeat W)))
    by (unfold pong; rewrite G1, E; reflexivity).
  assert (Lp : log (pong ws (heartbeat W)) = log (heartbeat W))
    by (unfold pong; rewrite G1; reflexivity).
  destruct (IH (pong ws (heartbeat W))) as (Gn & Fn).
  - rewrite Sp. apply Map_set_keys. rewrite S1, flagged_keys. exact N.
  - rewrite Sp. apply Map_get_set_eq.
  - exact A.
  - split; [exact Gn|]. rewrite Fn, Lp, L1, filter_app.
    assert (Z : filter (is_terminate ws) (map probe (sessions W)) = []).
    { clear -N G A. induction (sessions W) as [|[k s] m IHm]; [reflexivity|].
      cbn [map filter]. inversion N as [|? ? Hn Hd]; subst.
      cbn [Map_get] in G. unfold probe at 1. cbn [fst snd].
      destruct (Nat.eqb_spec ws k) as [->|D].
      - injection G as ->. rewrite A. cbn [is_terminate].
        clear -Hn. induction m as [|[k0 s0] m IH]; [reflexivity|].
        cbn [map filter]. unfold probe at 1. cbn [fst snd]. cbn in Hn.
        assert (D : Nat.eqb k0 k = false) by (apply Nat.eqb_neq; tauto).
        destruct (isAlive s0); cbn [is_terminate]; rewrite ?D; apply IH; tauto.
      - assert (D' : Nat.eqb k ws = false) by (apply Nat.eqb_neq; auto).
        destruct (isAlive s); cbn [is_terminate]; rewrite ?D'; now apply IHm. }
    rewrite Z. apply app_nil_r.
Qed.

Lemma answered_probes_keep_the_session_witness :
  filter (is_terminate 1%nat) (log (rounds 3 1%nat authenticated_world)) = [].
Proof.
  destruct (answered_probes_keep_the_session 3 1%nat
              {| pty := {| ptyProcess := Some 0%nat; sessionId := "5e55" |};
                 authenticated := true; messageCount := 1; lastMinute := 1000;
                 isAlive := true |} authenticated_world) as (_ & F).
  - repeat constructor. intros [].
  - reflexivity.
  - reflexivity.
  - rewrite F. reflexivity.
Defined.

(** ** The path of the shell's output *)

Lemma outputs_app (ws : WebSocket) (a b : list Effect) :
  outputs ws (a ++ b) = outputs ws a +++ outputs ws b.
Proof.
  induction a as [|e a IH]; [reflexivity|]. cbn [app outputs].
  destruct e as [w [d|m|st c]| | | | | | | |]; try exact IH.
  destruct (Nat.eqb w ws); [now rewrite IH, append_assoc | exact IH].
Qed.

Lemma empty_of_length (s : string) : (0 <? Z.of_nat (String.length s)) = false -> s = "".
Proof. destruct s; [reflexivity|]. cbn. discriminate. Qed.

Lemma send_outputs (ws w : WebSocket) (data : string) (W : World) :
  outputs ws (log (send w (Output data) W))
  = outputs ws (log W) +++ (if Nat.eqb w ws
                            then match readyState W ws with OPEN => data | _ => "" end
                            else "").
Proof.
  unfold send. destruct (Nat.eqb_spec w ws) as [->|D].
  - destruct (readyState W ws); cbn [log effect set_log];
      rewrite ?outputs_app; cbn [outputs]; rewrite ?Nat.eqb_refl, ?append_nil_r; reflexivity.
  - apply Nat.eqb_neq in D.
    destruct (readyState W w); cbn [log effect set_log];
      rewrite ?outputs_app; cbn [outputs]; rewrite ?D, ?append_nil_r; reflexivity.
Qed.

Section Output.
Variable env : Env.
Variables (ws : WebSocket) (p : IPty).

Lemma flush_effects (q : IPty) (W : World) :
  outputs ws (log (flush q W)) = outputs ws (log W) +++ flushed ws q W /\
  buffer_of p (flush q W) = (if Nat.eqb q p then "" else buffer_of p W) /\
  (forall r, socket_of r (flush q W) = socket_of r W) /\
  readyState (flush q W) = readyState W.
Proof.
  unfold flush, flushed, buffer_of, socket_of.
  destruct (Map_get q (dataHandlers W)) as [c|] eqn:G.
  - assert (K : forall b X, dataHandlers X = dataHandlers W ->
              (forall r, option_map cl_ws
                           (Map_get r (Map_set q {| cl_ws := cl_ws c; outputBuffer := b;
                                                    flushTimeout := None |} (dataHandlers X)))
                         = option_map cl_ws (Map_get r (dataHandlers W)))).
    { intros b X -> r. destruct (Nat.eq_dec r q) as [->|D].
      - rewrite Map_get_set_eq, G. reflexivity.
      - rewrite Map_get_set_neq by exact D. reflexivity. }
    destruct (0 <? Z.of_nat (String.length (outputBuffer c))) eqn:Len.
    + unfold store. cbn [log dataHandlers set_dataHandlers readyState].
      rewrite send_outputs, send_readyState.
      assert (Dh : dataHandlers (send (cl_ws c) (Output (outputBuffer c)) W) = dataHandlers W)
        by (unfold send; destruct (readyState W (cl_ws c)); reflexivity).
      rewrite Dh. repeat split.
      * destruct (Nat.eqb_spec q p) as [->|D].
        -- now rewrite Map_get_set_eq.
        -- rewrite Map_get_set_neq by auto. reflexivity.
      * intros r. apply (K "" W eq_refl).
    + apply empty_of_length in Len. unfold store. cbn. rewrite Len. repeat split.
      * destruct (Nat.eqb (cl_ws c) ws); [destruct (readyState W ws)|];
          now rewrite append_nil_r.
      * destruct (Nat.eqb_spec q p) as [->|D].
        -- now rewrite Map_get_set_eq.
        -- rewrite Map_get_set_neq by auto. reflexivity.
      * intros r. apply (K "" W eq_refl).
  - rewrite append_nil_r. repeat split.
    destruct (Nat.eqb_spec q p) as [->|D]; [now rewrite G | reflexivity].
Qed.

End Output.

Section Delivery.
Variable env : Env.
Variables (ws : WebSocket) (p : IPty).

(** The callback for a chunk of process [q]: the chunk is appended to
    the buffer, and then the buffer is flushed or not. *)
Lemma onData_callback_shape (q : IPty) (d : string) (now : Z) (W : World) (c : Closure) :
  Map_get q (dataHandlers W) = Some c ->
  exists X,
    log X = log W /\ readyState X = readyState W /\
    (forall r, socket_of r X = socket_of r W) /\
    buffer_of q X = outputBuffer c +++ d /\
    (forall r, r <> q -> buffer_of r X = buffer_of r W) /\
    (onData_callback q d now W = X \/ onData_callback q d now W = flush q X).
Proof.
  intros G. unfold onData_callback. rewrite G. cbn [outputBuffer cl_ws flushTimeout].
  assert (K : forall t X, log X = log W -> readyState X = readyState W ->
                dataHandlers X
                = Map_set q {| cl_ws := cl_ws c; outputBuffer := outputBuffer c +++ d;
                               flushTimeout := t |} (dataHandlers W) ->
                log X = log W /\ readyState X = readyState W /\
                (forall r, socket_of r X = socket_of r W) /\
                buffer_of q X = outputBuffer c +++ d /\
                (forall r, r <> q -> buffer_of r X = buffer_of r W)).
  { intros t X L R D. split; [exact L|]. split; [exact R|].
    unfold socket_of, buffer_of. rewrite D. repeat split.
    - intros r. destruct (Nat.eq_dec r q) as [->|N].
      + rewrite Map_get_set_eq, G. reflexivity.
      + rewrite Map_get_set_neq by exact N. reflexivity.
    - now rewrite Map_get_set_eq.
    - intros r N. rewrite Map_get_set_neq by exact N. reflexivity. }
  assert (Done : forall X Y, (exists t,
                  log X = log W /\ readyState X = readyState W /\
                  dataHandlers X
                  = Map_set q {| cl_ws := cl_ws c; outputBuffer := outputBuffer c +++ d;
                                 flushTimeout := t |} (dataHandlers W)) ->
                (Y = X \/ Y = flush q X) ->
                exists X,
                  log X = log W /\ readyState X = readyState W /\
                  (forall r, socket_of r X = socket_of r W) /\
                  buffer_of q X = outputBuffer c +++ d /\
                  (forall r, r <> q -> buffer_of r X = buffer_of r W) /\
                  (Y = X \/ Y = flush q X)).
  { intros X Y (t & L & R & D) S. exists X.
    destruct (K t X L R D) as (A1 & A2 & A3 & A4 & A5). repeat split; auto. }
  destruct (8192 <? Z.of_nat (String.length (outputBuffer c +++ d))).
  - destruct (flushTimeout c) as [id|].
    + eapply Done; [|right; reflexivity]. eexists. repeat split.
    + eapply Done; [|right; reflexivity]. eexists. repeat split.
  - destruct (flushTimeout c) as [id|].
    + eapply Done; [|left; reflexivity]. eexists. repeat split.
    + unfold setTimeout, store. cbn.
      eapply Done; [|left; reflexivity]. exists (Some (timeouts W)). repeat split.
      cbn. now rewrite Map_set_set.
Qed.

Lemma sole_writer_kept (W X : World) :
  (forall r, socket_of r X = socket_of r W) -> readyState X = readyState W ->
  sole_writer ws p W -> sole_writer ws p X.
Proof.
  intros S R (A & B & C). unfold sole_writer. rewrite R. split; [now rewrite S|].
  split; [|exact C]. intros q w Q. rewrite S in Q. now apply B.
Qed.

Lemma flush_conserves (q : IPty) (W : World) :
  sole_writer ws p W ->
  delivered_and_held ws p (flush q W) = delivered_and_held ws p W /\
  sole_writer ws p (flush q W).
Proof.
  intros I. destruct (flush_effects ws p q W) as (O & B & S & R).
  split; [|now apply (sole_writer_kept W)].
  unfold delivered_and_held. rewrite O, B. destruct I as (Sp & Others & Open).
  unfold flushed, socket_of, buffer_of in *.
  destruct (Nat.eqb_spec q p) as [->|N].
  - destruct (Map_get p (dataHandlers W)) as [c|]; [|discriminate Sp].
    cbn in Sp. injection Sp as ->. rewrite Nat.eqb_refl, Open.
    now rewrite append_nil_r.
  - destruct (Map_get q (dataHandlers W)) as [c|] eqn:G.
    + destruct (Nat.eqb_spec (cl_ws c) ws) as [E|_].
      * exfalso. apply (Others q (cl_ws c)); [now rewrite G | exact N | exact E].
      * now rewrite append_nil_r.
    + now rewrite append_nil_r.
Qed.

Lemma flush_silent (q : IPty) (W : World) :
  readyState W ws <> OPEN ->
  outputs ws (log (flush q W)) = outputs ws (log W) /\
  readyState (flush q W) = readyState W.
Proof.
  intros C. destruct (flush_effects ws p q W) as (O & _ & _ & R).
  split; [|exact R]. rewrite O. unfold flushed.
  destruct (Map_get q (dataHandlers W)) as [c|]; [|apply append_nil_r].
  destruct (Nat.eqb (cl_ws c) ws); [|apply append_nil_r].
  destruct (readyState W ws); [contradiction | apply append_nil_r | apply append_nil_r].
Qed.

Lemma timeout_shape (now : Z) (id : Timeout) (W : World) :
  dispatch env now (timeout id) W = W \/
  exists q X, same_but_timers W X /\ dispatch env now (timeout id) W = flush q X.
Proof.
  cbn [dispatch]. destruct (Map_get id (timers W)) as [[due q]|]; [|auto].
  right. exists q, (clearTimeout id W). repeat split.
Qed.

Lemma same_but_timers_conserves (W X : World) :
  same_but_timers W X ->
  delivered_and_held ws p X = delivered_and_held ws p W /\
  (sole_writer ws p W -> sole_writer ws p X) /\
  outputs ws (log X) = outputs ws (log W).
Proof.
  intros (L & R & D). unfold delivered_and_held, buffer_of. rewrite L, D.
  split; [reflexivity|]. split; [|reflexivity].
  apply sole_writer_kept; [|exact R].
  intros r. unfold socket_of. now rewrite D.
Qed.

Lemma advance_conserves (now : Z) (W : World) :
  sole_writer ws p W ->
  delivered_and_held ws p (advance env now W) = delivered_and_held ws p W /\
  sole_writer ws p (advance env now W).
Proof.
  unfold advance. generalize (timers W) as ts. intros ts. revert W.
  induction ts as [|t ts IH]; intros W I; [auto|].
  cbn [fold_left].
  assert (Step : delivered_and_held ws p
                   (if fst (snd t) <=? now then dispatch env now (timeout (fst t)) W else W)
                 = delivered_and_held ws p W /\
                 sole_writer ws p
                   (if fst (snd t) <=? now then dispatch env now (timeout (fst t)) W else W)).
  { destruct (fst (snd t) <=? now); [|auto].
    destruct (timeout_shape now (fst t) W) as [-> | (q & X & T & ->)]; [auto|].
    destruct (same_but_timers_conserves W X T) as (M & K & _).
    destruct (flush_conserves q X (K I)) as (M' & I'). rewrite M', M. auto. }
  destruct Step as (M & I'). destruct (IH _ I') as (M2 & I2). rewrite M2, M. auto.
Qed.

Lemma advance_silent (now : Z) (W : World) :
  readyState W ws <> OPEN ->
  outputs ws (log (advance env now W)) = outputs ws (log W) /\
  readyState (advance env now W) = readyState W.
Proof.
  unfold advance. generalize (timers W) as ts. intros ts. revert W.
  induction ts as [|t ts IH]; intros W C; [auto|].
  cbn [fold_left].
  assert (Step : outputs ws (log (if fst (snd t) <=? now
                                  then dispatch env now (timeout (fst t)) W else W))
                 = outputs ws (log W) /\
                 readyState (if fst (snd t) <=? now
                             then dispatch env now (timeout (fst t)) W else W)
                 = readyState W).
  { destruct (fst (snd t) <=? now); [|auto].
    destruct (timeout_shape now (fst t) W) as [-> | (q & X & T & ->)]; [auto|].
    destruct T as (L & R & D).
    destruct (flush_silent q X) as (O & R'); [now rewrite R|].
    rewrite O, R', L, R. auto. }
  destruct Step as (O & R). destruct (IH _ (eq_ind_r (fun r => r ws <> OPEN) C R)) as (O2 & R2).
  rewrite O2, R2, O, R. auto.
Qed.

End Delivery.

(** X15.  While the closure of a process is the only writer of an open
    socket, no output is lost, repeated or reordered on its way: after
    any run of output events of any processes, with the timers firing
    as they fall due, what the socket has been sent as OUTPUT followed
    by what the closure still holds is what it was before followed by
    the chunks of the process in their order. *)
Theorem output_is_conserved (env : Env) (ws : WebSocket) (p : IPty)
  (events : list (Z * Event)) (W : World) :
  sole_writer ws p W ->
  forallb (fun te => is_pty_data (snd te)) events = true ->
  delivered_and_held ws p (run env events W)
  = delivered_and_held ws p W +++ data_of p events.
Proof.
  revert W. induction events as [|[t e] events IH]; intros W I F.
  - cbn. now rewrite append_nil_r.
  - cbn [forallb snd] in F. apply andb_true_iff in F. destruct F as (Fe & F).
    destruct e as [| | | | |q d| | |]; try discriminate Fe.
    cbn [run data_of].
    destruct (advance_conserves env ws p t W I) as (Ma & Ia).
    set (A := advance env t W) in *.
    assert (Step : delivered_and_held ws p (dispatch env t (pty_data q d) A)
                   = delivered_and_held ws p A +++ (if Nat.eqb q p then d else "") /\
                   sole_writer ws p (dispatch env t (pty_data q d) A)).
    { cbn [dispatch]. destruct (Map_get q (dataHandlers A)) as [c|] eqn:G.
      - destruct (onData_callback_shape q d t A c G) as (X & L & R & S & Bq & Bo & Shape).
        assert (IX : sole_writer ws p X) by now apply (sole_writer_kept ws p A).
        assert (MX : delivered_and_held ws p X
                     = delivered_and_held ws p A +++ (if Nat.eqb q p then d else "")).
        { unfold delivered_and_held. rewrite L. destruct (Nat.eqb_spec q p) as [->|N].
          - rewrite Bq. unfold buffer_of. rewrite G. now rewrite append_assoc.
          - rewrite Bo by auto. now rewrite append_nil_r. }
        destruct Shape as [-> | ->]; [auto|].
        destruct (flush_conserves ws p q X IX) as (Mf & If). rewrite Mf. auto.
      - unfold onData_callback. rewrite G. split; [|exact Ia].
        destruct (Nat.eqb_spec q p) as [->|N]; [|now rewrite append_nil_r].
        exfalso. destruct Ia as (Sp & _). unfold socket_of in Sp. rewrite G in Sp.
        discriminate Sp. }
    destruct Step as (Ms & Is). rewrite (IH _ Is F), Ms, Ma.
    destruct (Nat.eqb q p); now rewrite ?append_assoc.
Qed.

Lemma output_is_conserved_witness :
  let W := run quiet [ (5000, pty_data 0%nat "abc"); (5001, pty_data 0%nat "de");
                       (5010, pty_data 0%nat "f") ] authenticated_world in
  delivered_and_held 1%nat 0%nat W = "abcdef".
Proof.
  cbv zeta. rewrite output_is_conserved.
  - reflexivity.
  - repeat split.
    + intros q w Q N. unfold socket_of in Q.
      change (dataHandlers authenticated_world)
        with [(0%nat, {| cl_ws := 1%nat; outputBuffer := ""; flushTimeout := None |})] in Q.
      cbn in Q. destruct q as [|q]; [contradiction | discriminate Q].
  - reflexivity.
Defined.

(** X16.  A socket that is not open is sent no output: whatever the
    processes write and whichever timers fire, nothing is added to what
    it has been sent. *)
Theorem closed_socket_gets_no_output (env : Env) (ws : WebSocket)
  (events : list (Z * Event)) (W : World) :
  readyState W ws <> OPEN ->
  forallb (fun te => is_pty_data (snd te)) events = true ->
  outputs ws (log (run env events W)) = outputs ws (log W) /\
  readyState (run env events W) ws <> OPEN.
Proof.
  revert W. induction events as [|[t e] events IH]; intros W C F; [auto|].
  cbn [forallb snd] in F. apply andb_true_iff in F. destruct F as (Fe & F).
  destruct e as [| | | | |q d| | |]; try discriminate Fe.
  cbn [run].
  destruct (advance_silent env ws q t W C) as (Oa & Ra).
  set (A := advance env t W) in *.
  assert (CA : readyState A ws <> OPEN) by now rewrite Ra.
  assert (Step : outputs ws (log (dispatch env t (pty_data q d) A)) = outputs ws (log A) /\
                 readyState (dispatch env t (pty_data q d) A) = readyState A).
  { cbn [dispatch]. destruct (Map_get q (dataHandlers A)) as [c|] eqn:G.
    - destruct (onData_callback_shape q d t A c G) as (X & L & R & _ & _ & _ & Shape).
      destruct Shape as [-> | ->]; [now rewrite L, R|].
      destruct (flush_silent ws q q X) as (O & R'); [now rewrite R|].
      now rewrite O, R', L, R.
    - unfold onData_callback. now rewrite G. }
  destruct Step as (Os & Rs).
  destruct (IH (dispatch env t (pty_data q d) A)) as (Oi & Ri); [now rewrite Rs | exact F |].
  rewrite Oi, Os, Oa. auto.
Qed.

Lemma closed_socket_gets_no_output_witness :
  let W := dispatch quiet 4000 (pty_exit 0%nat) authenticated_world in
  outputs 1%nat (log (run quiet [(5000, pty_data 0%nat "late"); (5010, pty_data 0%nat "r")] W))
  = "".
Proof.
  cbv zeta.
  destruct (closed_socket_gets_no_output quiet 1%nat
              [(5000, pty_data 0%nat "late"); (5010, pty_data 0%nat "r")]
              (dispatch quiet 4000 (pty_exit 0%nat) authenticated_world)) as (O & _).
  - vm_compute. discriminate.
  - reflexivity.
  - rewrite O. reflexivity.
Defined.

(** ** The upgrade of a connection *)

Lemma truthy_false (s : string) : truthy s = false -> s = "".
Proof. destruct s; [reflexivity | discriminate]. Qed.

Lemma validateToken_empty (a : AuthService.t) (now : Z) :
  AuthService.validateToken a now "" = false.
Proof. reflexivity. Qed.

Lemma upgrade_cases (a : AuthService.t) (t : string) (handshake : option WebSocket)
  (sessionId : string) (now connected : Z) (W : World) :
  Server.upgrade a (Some (Some t)) handshake sessionId now connected W
  = if AuthService.validateToken a now t
    then match handshake with
         | Some ws => (Server.Upgraded, handleConnection ws sessionId connected W)
         | None => (Server.Aborted, W)
         end
    else (Server.Unauthorized, W).
Proof.
  unfold Server.upgrade. destruct (truthy t) eqn:T; cbn [negb orb].
  - now destruct (AuthService.validateToken a now t).
  - apply truthy_false in T. subst t. now rewrite validateToken_empty.
Qed.


(** X18.  The token that the server issues when it starts, its
    arithmetic staying among the safe integers, opens a connection
    whose URL parses and whose handshake ws completes at every time up
    to its expiry, and at none after. *)
Theorem startup_token_opens_until_expiry (key : string) (ttl issued : Z)
  (ws : WebSocket) (sessionId : string) (now connected : Z) (W : World) :
  Z.abs issued <= MAX_SAFE_INTEGER ->
  Z.abs (ttl * 1000) <= MAX_SAFE_INTEGER ->
  Z.abs (issued + ttl * 1000) <= MAX_SAFE_INTEGER ->
  let authService := {| AuthService.secret := key; AuthService.tokenExpiry := Int ttl |} in
  let demoToken := fst (AuthService.generateToken authService issued) in
  Server.upgrade authService (Some (Some demoToken)) (Some ws) sessionId now connected W
  = if now <=? issued + ttl * 1000
    then (Server.Upgraded, handleConnection ws sessionId connected W)
    else (Server.Unauthorized, W).
Proof.
  intros Si Sm Ss. cbv zeta. rewrite upgrade_cases.
  destruct (issued_token_validates key ttl issued now Si Sm Ss) as (_ & V).
  cbv zeta in V. rewrite V. reflexivity.
Qed.

Lemma startup_token_opens_until_expiry_witness :
  let demoToken := fst (AuthService.generateToken service 1700000000000) in
  fst (Server.upgrade service (Some (Some demoToken)) (Some 1%nat) "5e55"
         1700003600000 1700003600002 fresh) = Server.Upgraded /\
  fst (Server.upgrade service (Some (Some demoToken)) (Some 1%nat) "5e55"
         1700003600001 1700003600002 fresh) = Server.Unauthorized.
Proof.
  cbv zeta. unfold service.
  rewrite !startup_token_opens_until_expiry by (vm_compute; discriminate).
  split; reflexivity.
Defined.

(** ** The upload frame of the client *)

Lemma be_word_be_bytes (n : Z) :
  0 <= n < 2 ^ 32 -> Sha256.be_word (Sha256.be_bytes 4 n) = n.
Proof.
  intros R. unfold Sha256.be_word, Sha256.be_bytes. cbn [fold_left Z.of_nat].
  change 255 with (Z.ones 8). rewrite !Z.land_ones, !Z.shiftr_div_pow2 by lia.
  change (8 * Z.pos 3) with 24. change (8 * Z.pos 2) with 16.
  change (8 * Z.pos 1) with 8. change (8 * 0) with 0.
  change (2 ^ 24) with 16777216. change (2 ^ 16) with 65536.
  change (2 ^ 8) with 256. change (2 ^ 0) with 1. change (2 ^ 32) with 4294967296 in R.
  Z.div_mod_to_equations. lia.
Qed.

Lemma frame_parts (headerBuffer content : Buffer) :
  Z.of_nat (List.length headerBuffer) < 2 ^ 32 ->
  let data := Client.frame headerBuffer content in
  let headerLength := Z.of_nat (List.length headerBuffer) in
  readUInt32BE data = Some headerLength /\
  subarray data 4 (4 + headerLength) = headerBuffer /\
  subarray data (4 + headerLength) (Z.of_nat (List.length data)) = content.
Proof.
  intros R data headerLength.
  assert (D : data = Sha256.be_bytes 4 headerLength ++ headerBuffer ++ content)
    by reflexivity.
  assert (L4 : List.length (Sha256.be_bytes 4 headerLength) = 4%nat) by reflexivity.
  assert (S4 : skipn 4 data = headerBuffer ++ content).
  { rewrite D. rewrite <- L4 at 1. now rewrite skipn_app, skipn_all, Nat.sub_diag. }
  split; [|split].
  - unfold readUInt32BE.
    assert (LD : (4 <= List.length data)%nat) by (rewrite D, length_app, L4; lia).
    destruct (Z.ltb_spec (Z.of_nat (List.length data)) 4); [lia|].
    f_equal. rewrite D. rewrite <- L4 at 1. rewrite firstn_app, firstn_all, Nat.sub_diag.
    cbn [firstn]. rewrite app_nil_r. apply be_word_be_bytes. unfold headerLength. lia.
  - unfold subarray. change (Z.to_nat 4) with 4%nat. rewrite S4.
    replace (Z.to_nat (4 + headerLength) - 4)%nat with (List.length headerBuffer)
      by (unfold headerLength; lia).
    rewrite firstn_app, firstn_all, Nat.sub_diag. cbn [firstn]. apply app_nil_r.
  - unfold subarray.
    replace (Z.to_nat (4 + headerLength)) with (List.length headerBuffer + 4)%nat
      by (unfold headerLength; lia).
    rewrite <- skipn_skipn, S4.
    rewrite skipn_app, skipn_all, Nat.sub_diag. cbn [skipn app].
    apply firstn_all2. rewrite D, !length_app, L4. lia.
Qed.

(** X19.  The binary frame that the client builds for an upload is read
    back by the server as it was put together: the header text is the
    one the client encoded and the payload of the FILE_UPLOAD message is
    the content of the file, byte for byte. *)
Theorem upload_frame_is_read_back (env : Env) (headerBuffer content : Buffer) :
  Z.of_nat (List.length headerBuffer) < 2 ^ 32 ->
  decode env (Client.frame headerBuffer content) true
  = match JSON_parse env (Buffer_toString env headerBuffer) with
    | Some JNull | None => None
    | Some header => Some (FILE_UPLOAD_message header content)
    end.
Proof.
  intros R. destruct (frame_parts headerBuffer content R) as (Len & Header & Data).
  cbv zeta in Len, Header, Data.
  unfold decode. rewrite Len, Header, Data. reflexivity.
Qed.

Lemma upload_frame_is_read_back_witness :
  decode quiet (Client.uploadFile Print.stringify "notes.txt" [104; 105; 10]) true
  = Some (JObj [ ("type", JStr MessageType.FILE_UPLOAD);
                 ("filename", JStr "notes.txt");
                 ("data", JBuf [104; 105; 10]);
                 ("size", JNum 3) ]).
Proof.
  unfold Client.uploadFile. rewrite upload_frame_is_read_back.
  - vm_compute. reflexivity.
  - vm_compute. reflexivity.
Defined.

(** ** The reconnections of the client *)

(** X20.  After a connection has opened, however many times the socket
    closes without opening again, the client sets at most five
    reconnections, the i-th after i seconds, and then gives up. *)
Theorem reconnections_are_bounded (c : Client.State) (n : nat) :
  let c' := Nat.iter n Client.onclose (Client.onopen c) in
  Client.reconnectAttempts c' = Z.of_nat (Nat.min n 5) /\
  Client.scheduled c'
  = Client.scheduled c ++ map (fun i => 1000 * Z.of_nat i) (seq 1 (Nat.min n 5)).
Proof.
  cbv zeta. induction n as [|n (A & Sc)].
  - cbn. now rewrite app_nil_r.
  - change (Nat.iter (S n) Client.onclose (Client.onopen c))
      with (Client.onclose (Nat.iter n Client.onclose (Client.onopen c))).
    set (cn := Nat.iter n Client.onclose (Client.onopen c)) in *.
    unfold Client.onclose. rewrite A. unfold Client.maxReconnectAttempts.
    destruct (Z.ltb_spec (Z.of_nat (Nat.min n 5)) 5) as [Lt|Ge].
    + cbn [Client.reconnectAttempts Client.scheduled].
      replace (Nat.min (S n) 5) with (S (Nat.min n 5)) by lia.
      rewrite Sc, seq_S, map_app, <- app_assoc. cbn [map Nat.add].
      split; [lia|]. do 3 f_equal. lia.
    + replace (Nat.min (S n) 5) with (Nat.min n 5) by lia. auto.
Qed.

(** ** An upload from the browser to the disk *)

(** X21.  The frame that the client builds for a file arrives on disk:
    handled on an authenticated session within its limits, the server
    having read back the header the client wrote, it writes the content
    of the file, byte for byte, under the last component of its name in
    the working directory, and acknowledges it; nothing else is done. *)
Theorem client_upload_is_written (env : Env) (segs : list string) (ws : WebSocket)
  (session : SessionState) (name : string) (size : Z) (headerBuffer content : Buffer)
  (now : Z) (W : World) :
  Map_get ws (sessions W) = Some session ->
  authenticated session = true ->
  messageCount (count_message now session) <= rateLimit W ->
  Z.of_nat (List.length (Client.frame headerBuffer content)) <= maxMessageSize W ->
  Z.of_nat (List.length headerBuffer) < 2 ^ 32 ->
  JSON_parse env (Buffer_toString env headerBuffer)
    = Some (JObj [("filename", JStr name); ("size", JNum size)]) ->
  process_cwd env = directory segs ->
  Forall (fun s => component s = true) segs ->
  component (Path.basename name) = true ->
  fs_writeFileSync_throws env (log W) (directory (segs ++ [Path.basename name])) = false ->
  readyState W ws = OPEN ->
  log (handleMessage env ws (Client.frame headerBuffer content) true now W)
  = log W ++ [ fs_writeFileSync (directory (segs ++ [Path.basename name])) content true;
               ws_send ws (Output (upload_complete name)) ].
Proof.
  intros G A C S R P CWD F N T O. unfold handleMessage. rewrite G.
  set (counted := set_sessions (Map_set ws (count_message now session) (sessions W)) W).
  replace (rateLimit counted) with (rateLimit W) by reflexivity.
  destruct (Z.gtb_spec (messageCount (count_message now session)) (rateLimit W)); [lia|].
  unfold accept. replace (maxMessageSize counted) with (maxMessageSize W) by reflexivity.
  destruct (Z.gtb_spec (Z.of_nat (List.length (Client.frame headerBuffer content)))
              (maxMessageSize W)); [lia|].
  destruct (frame_parts headerBuffer content R) as (Len & Header & Data).
  cbv zeta in Len, Header, Data.
  unfold decode. rewrite Len, Header, Data, P.
  rewrite routeMessage_FILE_UPLOAD.
  destruct (count_message_keeps now session) as (-> & _ & _). rewrite A.
  unfold handleFileUpload. rewrite CWD.
  change (prop (FILE_UPLOAD_message (JObj [("filename", JStr name); ("size", JNum size)])
                  content) "filename") with (Some (JStr name)).
  change (prop (FILE_UPLOAD_message (JObj [("filename", JStr name); ("size", JNum size)])
                  content) "data") with (Some (JBuf content)).
  cbv zeta. destruct (resolve_component segs (Path.basename name) F N) as (-> & ->).
  cbn [negb Buffer_from].
  replace (log counted) with (log W) by reflexivity. rewrite T.
  unfold send.
  match goal with
  | |- context [readyState ?X ws] =>
      replace (readyState X ws) with (readyState W ws) by reflexivity
  end.
  rewrite O. cbn. now rewrite <- app_assoc.
Qed.

Lemma client_upload_is_written_witness :
  log (handleMessage quiet 1%nat
         (Client.uploadFile Print.stringify "docs/notes.txt" [104; 105; 10]) true 5000
         authenticated_world)
  = log authenticated_world
    ++ [ fs_writeFileSync "/srv/app/notes.txt" [104; 105; 10] true;
         ws_send 1%nat (Output (upload_complete "docs/notes.txt")) ].
Proof.
  unfold Client.uploadFile.
  rewrite (client_upload_is_written quiet ["srv"; "app"] 1%nat
             {| pty := {| ptyProcess := Some 0%nat; sessionId := "5e55" |};
                authenticated := true; messageCount := 1; lastMinute := 1000;
                isAlive := true |} "docs/notes.txt" 3).
  - reflexivity.
  - vm_compute. reflexivity.
  - reflexivity.
  - vm_compute. discriminate.
  - vm_compute. discriminate.
  - vm_compute. reflexivity.
  - vm_compute. reflexivity.
  - reflexivity.
  - repeat constructor.
  - vm_compute. reflexivity.
  - reflexivity.
  - vm_compute. reflexivity.
Defined.
